(** * Lumi deployment driver and generated resource providers

    A shallow embedding of
    - the environment/checkpoint driver of the [lumi] command (package
      [main]: [saveEnv], [readEnv], [backupEnv], [deleteEnv], [removeEnv],
      [apply], [applyProgress], [printSummary]), and
    - the generated gRPC provider stubs ([Name] and [InspectChange] of the
      [Authorizer], [Alarm] and [VPCGatewayAttachment] providers),
    followed by the properties established about them.  Further on come
    the commands around the driver ([initEnvCmd], [getCurrentEnv],
    [setCurrentEnv], [createEnv]), the indentation helpers of the plan
    printer, the stubs of the [Key] provider in full, and
    [getVersionPath] of the Go program generator.

    Go packages become modules of the same name.  Code that mutates the
    file system or the diagnostics sink is written in a small state monad
    with panics; Go's [(value, error)] results are pairs whose second
    component is an [option]. *)

From Stdlib Require Import ZArith String Ascii List Lia.
From stdpp Require Import base option gmap strings list fin_maps pretty.

Open Scope Z_scope.
Open Scope string_scope.

(** ** Go values *)

Abbreviation bytes := (list Byte.byte).

(** Go's [int] on a 64-bit platform: a [Z] kept in range by wrap-around. *)
Module goint.
Definition modulus : Z := 2 ^ 64.
Definition half : Z := 2 ^ 63.
Definition wrap (z : Z) : Z := (z + half) mod modulus - half.
Definition in_range (z : Z) : Prop := - half <= z < half.
Definition add (a b : Z) : Z := wrap (a + b).
Definition incr (a : Z) : Z := add a 1.
End goint.

(** Errors.  [PathError] and [LinkError] are the errors of package [os];
    [ErrorString] is what [errors.New] and [Errorf] build; [DecodeErr] is
    a [mapper.DecodeError] with its field failures; [Foreign] is an error
    produced by a collaborator outside this development. *)
Inductive Errno := ENOENT | EACCES | EIO | ENOTDIR | ENOSPC | EEXIST.

Inductive error :=
| PathError (op path : string) (errno : Errno)
| LinkError (op old new : string) (errno : Errno)
| ErrorString (msg : string)
| DecodeErr (failures : list string)
| Foreign (msg : string).

(** ** Diagnostics sink ([pkg/diag], [pkg/compiler/errors]) *)

Module errors.
(** The diagnostic templates the driver uses. *)
Inductive ID :=
| ErrorIO
| ErrorIllegalMarkupExtension
| ErrorInvalidEnvName
| ErrorCantReadDeployment
| ErrorPlanApplyFailed.

(** [errors.New] of the Go standard library. *)
Definition New (msg : string) : error := ErrorString msg.
End errors.

Module diag.
Inductive Arg := AString (s : string) | AError (e : error).

Inductive Diagnostic :=
| Error (id : errors.ID) (args : list Arg)
| Info (msg : string).

Definition is_error (d : Diagnostic) : bool :=
  match d with Error _ _ => true | Info _ => false end.

(** [Sink.Success]: no error has been issued so far. *)
Definition Success (log : list Diagnostic) : bool :=
  negb (existsb is_error log).
End diag.

(** ** The world: file system and diagnostics *)

Inductive Syscall :=
| SysRename (old new : string)
| SysStat (path : string)
| SysLstat (path : string)
| SysMkdir (path : string)
| SysWriteFile (path : string)
| SysReadFile (path : string).

(** Regular files by path, the directories there are, the failures the
    operating system injects into a call (permissions, full disk, an
    I/O error, ...), and what a write that fails leaves behind at a
    path, if anything. *)
Record FS := mkFS {
  files : gmap string bytes;
  dirs : gset string;
  faults : Syscall -> option Errno;
  torn : string -> option bytes
}.

(** The diagnostics of the one global sink ([cmdutil.Sink()], which every
    [resource.Context] of the driver wraps), oldest first. *)
Record World := mkWorld {
  fs : FS;
  sink : list diag.Diagnostic
}.

Inductive Outcome (A : Type) :=
| Done (a : A) (w : World)
| Panicked (msg : string) (w : World).
Arguments Done {A} a w.
Arguments Panicked {A} msg w.

Definition M (A : Type) : Type := World -> Outcome A.

#[global] Instance M_ret : MRet M := fun A a w => Done a w.
#[global] Instance M_bind : MBind M := fun A B f m w =>
  match m w with
  | Done a w' => f a w'
  | Panicked msg w' => Panicked msg w'
  end.

Definition panic {A} (msg : string) : M A := fun w => Panicked msg w.
Definition get_fs : M FS := fun w => Done (fs w) w.
Definition put_fs (f : FS) : M unit := fun w => Done tt (mkWorld f (sink w)).
Definition get_sink : M (list diag.Diagnostic) := fun w => Done (sink w) w.
Definition emit (d : diag.Diagnostic) : M unit :=
  fun w => Done tt (mkWorld (fs w) (sink w ++ [d])).

(** [Sink.Errorf] and [Sink.Infof]. *)
Definition Errorf (id : errors.ID) (args : list diag.Arg) : M unit :=
  emit (diag.Error id args).
Definition Infof (msg : string) : M unit := emit (diag.Info msg).

(** ** [pkg/util/contract] *)

Module contract.
Definition Require (cond : bool) (param : string) : M unit :=
  if cond then mret tt else panic ("precondition on " +:+ param).
Definition Assert (cond : bool) : M unit :=
  if cond then mret tt else panic "assertion failed".
Definition Failf {A} (msg : string) : M A := panic msg.
End contract.

(** ** Packages [os], [io/ioutil] and [path/filepath] *)

Module os.
Definition IsNotExist (err : error) : bool :=
  match err with
  | PathError _ _ ENOENT | LinkError _ _ _ ENOENT => true
  | _ => false
  end.

(** [os.Rename]: moves the file, replacing whatever is at [new]. *)
Definition Rename (old new : string) : M (option error) :=
  f ← get_fs;
  match faults f (SysRename old new) with
  | Some errno => mret (Some (LinkError "rename" old new errno))
  | None =>
      match files f !! old with
      | None => mret (Some (LinkError "rename" old new ENOENT))
      | Some content =>
          put_fs (mkFS (<[new := content]> (delete old (files f)))
                       (dirs f) (faults f) (torn f));;
          mret None
      end
  end.

(** What [os.Stat] reports of a path, of which the driver looks at the
    error only: the failure of the operating system, if any; no error
    when a file or a directory is there; and [ENOENT] otherwise. *)
Definition stat (f : FS) (name : string) : option error :=
  match faults f (SysStat name) with
  | Some errno => Some (PathError "stat" name errno)
  | None =>
      if bool_decide (is_Some (files f !! name))
         || bool_decide (name ∈ dirs f)
      then None
      else Some (PathError "stat" name ENOENT)
  end.

Definition Stat (name : string) : M (option error) :=
  f ← get_fs;
  mret (stat f name).

Definition IsPathSeparator (c : ascii) : bool := Ascii.eqb c "/"%char.

(** The two loops by which [MkdirAll] finds the parent of a path: [i]
    runs down over the trailing separators, then [j] over the last
    element. *)
Fixpoint skip_separators (path : string) (i : nat) : nat :=
  match i with
  | O => O
  | S k =>
      match String.get k path with
      | Some c => if IsPathSeparator c then skip_separators path k else i
      | None => i
      end
  end.

Fixpoint skip_element (path : string) (j : nat) : nat :=
  match j with
  | O => O
  | S k =>
      match String.get k path with
      | Some c => if IsPathSeparator c then j else skip_element path k
      | None => j
      end
  end.

(** [path[0:j-1]], the parent that [MkdirAll] makes first, when
    [j > 1]. *)
Definition parent (path : string) : option string :=
  let i := skip_separators path (String.length path) in
  let j := skip_element path i in
  if (1 <? j)%nat then Some (String.substring 0 (j - 1) path) else None.

(** A path and the parents [MkdirAll] goes through, the path first.  A
    parent is shorter than its path, so the length of the path bounds
    their number. *)
Fixpoint ancestors_from (fuel : nat) (path : string) : list string :=
  path ::
  match fuel with
  | O => []
  | S n =>
      match parent path with
      | Some p => ancestors_from n p
      | None => []
      end
  end.

Definition ancestors (path : string) : list string :=
  ancestors_from (String.length path) path.

(** [os.Mkdir], the parent being there: the operating system may
    refuse, the empty path names nothing, and a file or directory of
    that name is in the way. *)
Definition mkdir (name : string) (f : FS) : FS * option error :=
  match faults f (SysMkdir name) with
  | Some errno => (f, Some (PathError "mkdir" name errno))
  | None =>
      if String.eqb name ""
      then (f, Some (PathError "mkdir" name ENOENT))
      else if bool_decide (is_Some (files f !! name))
              || bool_decide (name ∈ dirs f)
      then (f, Some (PathError "mkdir" name EEXIST))
      else (mkFS (files f) ({[name]} ∪ dirs f) (faults f) (torn f), None)
  end.

(** Whether [os.Lstat] shows a directory. *)
Definition lstat_dir (f : FS) (name : string) : bool :=
  match faults f (SysLstat name) with
  | Some _ => false
  | None => bool_decide (name ∈ dirs f)
  end.

(** The recursion of [os.MkdirAll] along a path and its parents.  Fast
    path: when [Stat] can tell whether the path is a directory or a
    file, stop with success or error.  Slow path: make sure the parent
    exists and then call [Mkdir] for the path; when that fails,
    double-check that the directory is not there.  What it has made
    when it fails stays. *)
Fixpoint mkdir_all (chain : list string) (f : FS) : FS * option error :=
  match chain with
  | [] => (f, None)
  | path :: parents =>
      match stat f path with
      | None =>
          if bool_decide (path ∈ dirs f) then (f, None)
          else (f, Some (PathError "mkdir" path ENOTDIR))
      | Some _ =>
          let '(f, err) := mkdir_all parents f in
          match err with
          | Some err => (f, Some err)
          | None =>
              let '(f', err) := mkdir path f in
              match err with
              | Some err =>
                  if lstat_dir f path then (f, None) else (f, Some err)
              | None => (f', None)
              end
          end
      end
  end.

Definition MkdirAll (path : string) : M (option error) :=
  f ← get_fs;
  let '(f, err) := mkdir_all (ancestors path) f in
  put_fs f;;
  mret err.
End os.

Module ioutil.
Definition ReadFile (filename : string) : M (bytes * option error) :=
  f ← get_fs;
  match faults f (SysReadFile filename) with
  | Some errno => mret ([], Some (PathError "open" filename errno))
  | None =>
      match files f !! filename with
      | None => mret ([], Some (PathError "open" filename ENOENT))
      | Some content => mret (content, None)
      end
  end.

Definition WriteFile (filename : string) (data : bytes) : M (option error) :=
  f ← get_fs;
  match faults f (SysWriteFile filename) with
  | Some errno =>
      match torn f filename with
      | Some partial =>
          put_fs (mkFS (<[filename := partial]> (files f)) (dirs f)
                       (faults f) (torn f))
      | None => mret tt
      end;;
      mret (Some (PathError "open" filename errno))
  | None =>
      put_fs (mkFS (<[filename := data]> (files f)) (dirs f) (faults f)
                   (torn f));;
      mret None
  end.
End ioutil.

Module filepath.
Definition IsPathSeparator (c : ascii) : bool := Ascii.eqb c "/"%char.

(** The loop of [filepath.Ext], [i] running down from [len(path)-1]. *)
Fixpoint Ext_from (path : string) (n : nat) : string :=
  match n with
  | O => ""
  | S i =>
      match String.get i path with
      | None => ""
      | Some c =>
          if IsPathSeparator c then ""
          else if Ascii.eqb c "."%char
               then String.substring i (String.length path - i) path
               else Ext_from path i
      end
  end.

Definition Ext (path : string) : string :=
  Ext_from path (String.length path).
End filepath.

(** ** Dynamic values ([interface{}] as the decoders produce it) *)

Module mapper.
(** A [float64] is carried as its 64-bit pattern; no arithmetic is done
    on it here.  [VOpaque] stands for any other dynamic type, such as the
    [map[interface{}]interface{}] a YAML decoder builds. *)
#[warnings="-register-all"]
Inductive Value :=
| VNil
| VBool (b : bool)
| VNumber (bits : Z)
| VString (s : string)
| VArray (elems : list Value)
| VMap (m : gmap string Value)
| VOpaque (kind : string).

(** [mapper.Object], a [map[string]interface{}]. *)
Abbreviation Object := (gmap string Value).
End mapper.

(** ** [pkg/resource]: plan steps and environments *)

Module resource.
(** Modelled from the spec: the [StepOp] enumeration (Same, Create,
    Update, Delete, ReplaceCreate, ReplaceDelete), whose declaration is
    not part of the sources at hand; [OpReplace] is the further constant
    that package [main] names. *)
Inductive StepOp :=
| OpSame
| OpCreate
| OpUpdate
| OpDelete
| OpReplace
| OpReplaceCreate
| OpReplaceDelete.

#[global] Instance StepOp_eq_dec : EqDecision StepOp.
Proof. solve_decision. Defined.

Definition StepOp_to_nat (op : StepOp) : nat :=
  match op with
  | OpSame => 0 | OpCreate => 1 | OpUpdate => 2 | OpDelete => 3
  | OpReplace => 4 | OpReplaceCreate => 5 | OpReplaceDelete => 6
  end%nat.

Definition StepOp_of_nat (n : nat) : option StepOp :=
  match n with
  | 0 => Some OpSame | 1 => Some OpCreate | 2 => Some OpUpdate
  | 3 => Some OpDelete | 4 => Some OpReplace | 5 => Some OpReplaceCreate
  | 6 => Some OpReplaceDelete | _ => None
  end%nat.

#[global] Instance StepOp_countable : Countable StepOp.
Proof.
  apply (inj_countable StepOp_to_nat StepOp_of_nat).
  intros []; reflexivity.
Defined.

(** The state a provider leaves a resource in when a step fails.  The Go
    type is an integer type, so values other than the two named
    constants exist. *)
Inductive State :=
| StateOK
| StateUnknown
| StateOther (v : Z).

(** [resource.Step], of which the progress tracker reads [Op()]. *)
Record Step := mkStep { Op : StepOp }.

(** [resource.Env]. *)
Record Env := mkEnv {
  Name : string;
  Config : gmap string mapper.Value
}.
End resource.

Import resource.

(** ** [pkg/encoding] *)

Module encoding.
(** A [Marshaler], specialised to the two targets the driver decodes
    into: the typed envfile and a generic object. *)
Record Marshaler (Envfile : Type) := mkMarshaler {
  Marshal : Envfile -> bytes * option error;
  UnmarshalEnvfile : bytes -> Envfile * option error;
  UnmarshalObject : bytes -> mapper.Object * option error
}.
Arguments Marshal {Envfile} _ _.
Arguments UnmarshalEnvfile {Envfile} _ _.
Arguments UnmarshalObject {Envfile} _ _.
End encoding.

(** ** Collaborators of package [main]

    Functions of other packages whose sources are not at hand; the
    driver is verified for every behaviour of theirs. *)
Class Collaborators := {
  (** [resource.Snapshot] and [resource.Envfile] *)
  Snapshot : Type;
  Envfile : Type;
  (** [workspace.EnvPath]: the default location of an environment *)
  EnvPath : string -> string;
  (** [encoding.Detect]: the marshaler for a path, if any, and the
      extension it decided on *)
  Detect : string -> option (encoding.Marshaler Envfile) * string;
  (** [filepath.Dir] *)
  Dir : string -> string;
  (** [resource.SerializeEnvfile env snap ""] *)
  SerializeEnvfile : Env -> option Snapshot -> string -> Envfile;
  (** [resource.DeserializeEnvfile ctx envfile] *)
  DeserializeEnvfile : Envfile -> M (option Env * option Snapshot);
  (** [mapper.New(nil).Decode(obj, &ignore)] into an [Envfile] *)
  Decode : mapper.Object -> option error;
  (** [resource.StepOps()]: the operations in their canonical order *)
  StepOps : list StepOp;
  (** [StepOp.Prefix] *)
  Prefix : StepOp -> string
}.

(** ** Package [main]: environments and checkpoints

    Console output ([fmt.Printf] of headers and coloured text) and the
    clock are not part of the world modelled here. *)

Module lumi.
Section driver.
Context `{Collaborators}.

(** A pointer that the code dereferences; [nil] panics. *)
Definition deref {A} (p : option A) : M A :=
  match p with
  | Some a => mret a
  | None => panic "nil pointer dereference"
  end.

(** [backupEnv] makes a backup of an existing file, in preparation for
    writing a new one: it renames the file and ignores errors. *)
Definition backupEnv (file : string) : M unit :=
  contract.Require (negb (String.eqb file "")) "file";;
  _ ← os.Rename file (file +:+ ".bak");
  mret tt.

(** [deleteEnv] removes an existing snapshot file, leaving behind a
    backup. *)
Definition deleteEnv (env : option Env) : M unit :=
  contract.Require (bool_decide (is_Some env)) "env";;
  env ← deref env;
  let file := EnvPath (Name env) in
  backupEnv file.

(** [removeEnv]; the message it prints goes to the console. *)
Definition removeEnv (env : option Env) : M unit :=
  deleteEnv env;;
  _ ← deref env;
  mret tt.

(** [readEnv] reads in an existing snapshot file, issuing an error and
    returning nil if something goes awry. *)
Definition readEnv (name : string)
  : M (option Envfile * option Env * option Snapshot) :=
  contract.Require (negb (String.eqb name "")) "name";;
  let file := EnvPath name in
  let '(m, ext) := Detect file in
  match m with
  | None =>
      Errorf errors.ErrorIllegalMarkupExtension [diag.AString ext];;
      mret (None, None, None)
  | Some m =>
      '(b, err) ← ioutil.ReadFile file;
      match err with
      | Some err =>
          (if os.IsNotExist err
           then Errorf errors.ErrorInvalidEnvName [diag.AString name]
           else Errorf errors.ErrorIO [diag.AError err]);;
          mret (None, None, None)
      | None =>
          let '(envfile, err) := encoding.UnmarshalEnvfile m b in
          match err with
          | Some err =>
              Errorf errors.ErrorCantReadDeployment
                     [diag.AString file; diag.AError err];;
              mret (None, None, None)
          | None =>
              let '(obj, err) := encoding.UnmarshalObject m b in
              match err with
              | Some err =>
                  Errorf errors.ErrorCantReadDeployment
                         [diag.AString file; diag.AError err];;
                  mret (None, None, None)
              | None =>
                  (* remove the resources from obj["latest"], when that
                     is a map; the map is shared, so obj sees it *)
                  let obj :=
                    match obj !! "latest" with
                    | Some (mapper.VMap latest) =>
                        <["latest" := mapper.VMap (delete "resources" latest)]> obj
                    | _ => obj
                    end in
                  match Decode obj with
                  | Some err =>
                      Errorf errors.ErrorCantReadDeployment
                             [diag.AString file; diag.AError err];;
                      mret (None, None, None)
                  | None =>
                      '(env, snap) ← DeserializeEnvfile envfile;
                      contract.Assert (bool_decide (is_Some env));;
                      mret (Some envfile, env, snap)
                  end
              end
          end
      end
  end.

(** [saveEnv] saves a new snapshot at the given location, backing up any
    existing ones. *)
Definition saveEnv (env : option Env) (snap : option Snapshot)
    (file : string) (existok : bool) : M bool :=
  contract.Require (bool_decide (is_Some env)) "env";;
  env ← deref env;
  let file := if String.eqb file "" then EnvPath (Name env) else file in
  let '(m, ext) := Detect file in
  match m with
  | None =>
      Errorf errors.ErrorIllegalMarkupExtension [diag.AString ext];;
      mret false
  | Some m =>
      let file :=
        if String.eqb (filepath.Ext file) "" then file +:+ ext else file in
      let dep := SerializeEnvfile env snap "" in
      let '(b, err) := encoding.Marshal m dep in
      match err with
      | Some err =>
          Errorf errors.ErrorIO [diag.AError err];;
          mret false
      | None =>
          let write_out : M bool :=
            (* Back up the existing file if it already exists. *)
            backupEnv file;;
            (* Ensure the directory exists. *)
            err ← os.MkdirAll (Dir file);
            match err with
            | Some err =>
                Errorf errors.ErrorIO [diag.AError err];;
                mret false
            | None =>
                (* And now write out the new snapshot file. *)
                err ← ioutil.WriteFile file b;
                match err with
                | Some err =>
                    Errorf errors.ErrorIO [diag.AError err];;
                    mret false
                | None => mret true
                end
            end in
          (* If it's not ok for the file to already exist, ensure that
             it doesn't. *)
          if negb existok then
            staterr ← os.Stat file;
            match staterr with
            | None =>
                Errorf errors.ErrorIO
                  [diag.AError
                     (ErrorString
                        ("file '" +:+ file +:+ "' already exists"))];;
                mret false
            | Some _ => write_out
            end
          else write_out
      end
  end.

(** [createEnv] creates a new empty environment without deploying
    anything into it; selecting it as the current one is workspace
    business. *)
Definition createEnv (name : string) : M bool :=
  let env := Some (mkEnv name ∅) in
  saveEnv env None "" false.

(** *** Applying a plan *)

Record applyOptions := mkApplyOptions {
  Create : bool;
  Delete : bool;
  DryRun : bool;
  Analyzers : list string;
  ShowConfig : bool;
  ShowReplaceSteps : bool;
  ShowUnchanged : bool;
  Summary : bool;
  DOT : bool;
  Output : string
}.

(** [applyProgress] tracks the plan application as it goes.  Its [Ctx]
    is the context of the global sink. *)
Record applyProgress := mkApplyProgress {
  Steps : Z;
  Ops : gmap StepOp Z;
  MaybeCorrupt : bool;
  ProgressSummary : bool
}.

Definition newProgress (summary : bool) : applyProgress :=
  {| Steps := 0; Ops := ∅; MaybeCorrupt := false;
     ProgressSummary := summary |}.

(** [applyProgress.Before] prints the step and changes nothing. *)
Definition Before (prog : applyProgress) (step : Step) : M applyProgress :=
  mret prog.

Definition After (prog : applyProgress) (step : Step) (state : State)
    (err : option error) : M applyProgress :=
  match err with
  | None =>
      (* Increment the counters. *)
      let prog := {| Steps := goint.incr (Steps prog);
                     Ops := Ops prog;
                     MaybeCorrupt := MaybeCorrupt prog;
                     ProgressSummary := ProgressSummary prog |} in
      let prog := {| Steps := Steps prog;
                     Ops := <[Op step :=
                                goint.incr (default 0 (Ops prog !! Op step))]>
                              (Ops prog);
                     MaybeCorrupt := MaybeCorrupt prog;
                     ProgressSummary := ProgressSummary prog |} in
      mret prog
  | Some err =>
      (* Issue a true, bonafide error. *)
      Errorf errors.ErrorPlanApplyFailed [diag.AError err];;
      match state with
      | StateOK => mret prog
      | StateUnknown =>
          mret {| Steps := Steps prog;
                  Ops := Ops prog;
                  MaybeCorrupt := true;
                  ProgressSummary := ProgressSummary prog |}
      | StateOther _ => contract.Failf "Unrecognized resource state"
      end
  end.

(** [resource.Plan], an interface.  [Apply] is handed the progress
    tracker, whose callbacks it invokes around each step, and returns
    the checkpoint and the error of the first failing step, if any. *)
Record Plan := mkPlan {
  Empty : bool;
  PlanSteps : list Step;
  Apply : applyProgress ->
          M (option Snapshot * option error * applyProgress)
}.

Record envCmdInfo := mkEnvCmdInfo {
  InfoEnv : option Env;
  InfoEnvfile : option Envfile;
  Old : option Snapshot;
  Args : list string
}.

Record planResult := mkPlanResult {
  Info : envCmdInfo;
  New : option Snapshot;
  ThePlan : Plan
}.

Definition checkEmpty (plan : Plan) : M bool :=
  if Empty plan then
    Infof "no resources need to be updated";;
    mret true
  else mret false.

Definition plural (s : string) (c : Z) : string :=
  if negb (c =? 1)%Z then s +:+ "s" else s.

(** What [printSummary] writes: the arguments of its header line and of
    each of the lines that follow. *)
Record SummaryLine := mkSummaryLine {
  LinePrefix : string;
  LineCount : Z;
  LineNoun : string;
  LinePlanTo : string;
  LineOp : StepOp;
  LinePastTense : string
}.

Record SummaryText := mkSummaryText {
  Total : Z;
  Planned : string;
  Noun : string;
  Colon : string;
  Lines : list SummaryLine
}.

Definition isReplaceStep (op : StepOp) : bool :=
  bool_decide (op = OpReplaceCreate) || bool_decide (op = OpReplaceDelete).

(** [printSummary].  Go ranges over the map in no particular order; the
    additions commute, so every order makes the same total. *)
Definition printSummary (counts : gmap StepOp Z) (showReplaceSteps : bool)
    (plan : bool) : SummaryText :=
  let total :=
    map_fold (fun op c total =>
                if negb showReplaceSteps && isReplaceStep op
                then total (* skip counting replacement steps *)
                else goint.add total c)
             0 counts in
  let planned := if plan then "planned " else "" in
  let colon := if negb (total =? 0)%Z then ":" else "" in
  let planTo := if plan then "to " else "" in
  let pastTense := if plan then "" else "d" in
  {| Total := total;
     Planned := planned;
     Noun := plural "change" total;
     Colon := colon;
     Lines :=
       flat_map (fun op =>
         if negb showReplaceSteps && isReplaceStep op then []
         else
           let c := default 0 (counts !! op) in
           if (0 <? c)%Z
           then [mkSummaryLine (Prefix op) c (plural "resource" c)
                               planTo op pastTense]
           else []) StepOps |}.

(** [printPlan], as far as the sink and the summary go: the counts of
    the plan's steps, by operation. *)
Definition printPlan (result : planResult) (opts : applyOptions)
  : M (option SummaryText) :=
  empty ← checkEmpty (ThePlan result);
  if negb empty then
    let counts :=
      foldl (fun (counts : gmap StepOp Z) step =>
               <[Op step := goint.incr (default 0 (counts !! Op step))]>
                 counts)
            ∅ (PlanSteps (ThePlan result)) in
    mret (Some (printSummary counts (ShowReplaceSteps opts) true))
  else mret None.

(** [plan] compiles the program and builds the plan; it is taken as a
    whole.  [apply] prints or performs the planned operations. *)
Definition apply (plan : envCmdInfo -> applyOptions -> M (option planResult))
    (info : envCmdInfo) (opts : applyOptions) : M unit :=
  result ← plan info opts;
  match result with
  | None => mret tt
  | Some result =>
      if DryRun opts then
        if String.eqb (Output opts) "" || String.eqb (Output opts) "-"
        then
          _ ← printPlan result opts;
          mret tt
        else
          _ ← saveEnv (InfoEnv info) (New result) (Output opts) true;
          mret tt
      else
        (* Print a nice message if the update is an empty one. *)
        empty ← checkEmpty (ThePlan result);
        (* Create an object to track progress and perform the actual
           operations. *)
        let progress := newProgress (Summary opts) in
        '(checkpoint, err, progress) ← Apply (ThePlan result) progress;
        (if bool_decide (is_Some err)
         then log ← get_sink; contract.Assert (negb (diag.Success log))
         else mret tt);;
        let summary :=
          if negb empty
          then Some (printSummary (Ops progress) (ShowReplaceSteps opts) false)
          else None in
        (* Now save the updated snapshot to the specified output file,
           if any, or the standard location otherwise. *)
        let env := InfoEnv (Info result) in
        _ ← saveEnv env checkpoint (Output opts) true;
        mret tt
  end.
End driver.
End lumi.

(** ** Generated resource providers ([lib/aws/rpc])

    The stubs that the IDL compiler generates for each resource type.  A
    call either replies with Go's [(response, error)] pair or trips a
    [contract.Assert]. *)

Inductive RPC (A : Type) :=
| Reply (resp : option A) (err : option error)
| AssertFailed.
Arguments Reply {A} resp err.
Arguments AssertFailed {A}.

Module pbstruct.
(** A protobuf [Struct]: fields by name. *)
Abbreviation Struct := (gmap string mapper.Value).
End pbstruct.

Module lumirpc.
Record NameRequest := mkNameRequest {
  NameType : string;
  Properties : option pbstruct.Struct;
  Unknowns : gmap string bool
}.

Record NameResponse := mkNameResponse { Name : string }.

Record InspectChangeRequest := mkInspectChangeRequest {
  Id : string;
  InspectType : string;
  Olds : option pbstruct.Struct;
  News : option pbstruct.Struct
}.

Record InspectChangeResponse := mkInspectChangeResponse {
  Replaces : list string
}.
End lumirpc.

(** What the stubs use of [pkg/resource] and [pkg/util/mapper]: property
    maps, their structural diff, and the decoding of a property map into
    a struct. *)
Class Properties := {
  PropertyMap : Type;
  ObjectDiff : Type;
  (** [resource.UnmarshalProperties] *)
  UnmarshalProperties : option pbstruct.Struct -> PropertyMap;
  (** [PropertyMap.Mappable] *)
  Mappable : PropertyMap -> mapper.Object;
  (** [PropertyMap.Diff], nil when the maps are equal *)
  Diff : PropertyMap -> PropertyMap -> option ObjectDiff;
  (** [ObjectDiff.Changed] *)
  Changed : ObjectDiff -> string -> bool
}.

(** [mapper.MapIU tree &obj]: fills [obj] and reports the failures. *)
Class MapTarget (T : Type) := {
  MapIU : mapper.Object -> T -> T * option (list string)
}.

(** A [mapper.DecodeError] returned as an [error]. *)
Definition decode_error (decerr : option (list string)) : option error :=
  DecodeErr <$> decerr.

(** A [map[string]bool] read at a key: absent keys read [false]. *)
Definition lookup_bool (m : gmap string bool) (k : string) : bool :=
  default false (m !! k).

Module apigateway.
Section provider.
Context `{Properties}.

Definition AuthorizerToken : string := "aws:apigateway/authorizer:Authorizer".

(** [Authorizer] is a marshalable representation of its IDL type. *)
Record Authorizer := mkAuthorizer {
  Name : string;
  Type_ : string;
  AuthorizerCredentials : option string;
  AuthorizerResultTTLInSeconds : option Z;
  AuthorizerURI : option string;
  IdentitySource : option string;
  IdentityValidationExpression : option string;
  Providers : option (list string);
  RestAPI : option string
}.

Definition Authorizer_zero : Authorizer :=
  mkAuthorizer "" "" None None None None None None None.

Definition Authorizer_Name : string := "name".

(** [AuthorizerProviderOps], as far as [InspectChange] goes. *)
Record AuthorizerProviderOps := mkAuthorizerProviderOps {
  InspectChange :
    string -> Authorizer -> Authorizer -> option ObjectDiff ->
    list string * option error
}.

Context `{MapTarget Authorizer}.

Definition Unmarshal (v : option pbstruct.Struct)
  : Authorizer * PropertyMap * option (list string) :=
  let obj := Authorizer_zero in
  let props := UnmarshalProperties v in
  let '(obj, result) := MapIU (Mappable props) obj in
  (obj, props, result).

Definition AuthorizerProvider_Name (req : lumirpc.NameRequest)
  : RPC lumirpc.NameResponse :=
  if negb (String.eqb (lumirpc.NameType req) AuthorizerToken)
  then AssertFailed
  else
    let '(obj, _, decerr) := Unmarshal (lumirpc.Properties req) in
    match decerr with
    | Some _ => Reply None (decode_error decerr)
    | None =>
        if String.eqb (Name obj) "" then
          if lookup_bool (lumirpc.Unknowns req) Authorizer_Name
          then Reply None
                 (Some (errors.New
                    "Name property cannot be computed from unknown outputs"))
          else Reply None
                 (Some (errors.New "Name property cannot be empty"))
        else Reply (Some (lumirpc.mkNameResponse (Name obj))) None
    end.

Definition AuthorizerProvider_InspectChange (p : AuthorizerProviderOps)
    (req : lumirpc.InspectChangeRequest)
  : RPC lumirpc.InspectChangeResponse :=
  if negb (String.eqb (lumirpc.InspectType req) AuthorizerToken)
  then AssertFailed
  else
    let id := lumirpc.Id req in
    let '(old, oldprops, decerr) := Unmarshal (lumirpc.Olds req) in
    match decerr with
    | Some _ => Reply None (decode_error decerr)
    | None =>
        let '(new, newprops, decerr) := Unmarshal (lumirpc.News req) in
        match decerr with
        | Some _ => Reply None (decode_error decerr)
        | None =>
            let replaces : list string := [] in
            let diff := Diff oldprops newprops in
            let replaces :=
              match diff with
              | Some d =>
                  if Changed d "name"
                  then (replaces ++ ["name"])%list else replaces
              | None => replaces
              end in
            let '(more, err) := InspectChange p id old new diff in
            match err with
            | Some _ => Reply None err
            | None =>
                Reply (Some (lumirpc.mkInspectChangeResponse
                               (replaces ++ more)%list)) err
            end
        end
    end.
End provider.
End apigateway.

Module cloudwatch.
Section provider.
Context `{Properties}.

Definition AlarmToken : string := "aws:cloudwatch/alarm:Alarm".

(** [AlarmDimension] is a marshalable representation of its IDL type. *)
Record AlarmDimension := mkAlarmDimension {
  DimensionName : string;
  DimensionValue : mapper.Value
}.

(** [Alarm] is a marshalable representation of its IDL type. *)
Record Alarm := mkAlarm {
  Name : string;
  ComparisonOperator : string;
  EvaluationPeriods : Z;
  MetricName : string;
  Namespace : string;
  Period : Z;
  Statistic : string;
  Threshold : Z;
  ActionsEnabled : option bool;
  AlarmActions : option (list string);
  AlarmDescription : option string;
  AlarmName : option string;
  Dimensions : option (list AlarmDimension);
  InsufficientDataActions : option (list string);
  OKActions : option (list string);
  Unit : option string
}.

Definition Alarm_zero : Alarm :=
  mkAlarm "" "" 0 "" "" 0 "" 0 None None None None None None None None.

Definition Alarm_Name : string := "name".

(** [AlarmProviderOps], as far as [InspectChange] goes. *)
Record AlarmProviderOps := mkAlarmProviderOps {
  InspectChange :
    string -> Alarm -> Alarm -> option ObjectDiff ->
    list string * option error
}.

Context `{MapTarget Alarm}.

Definition Unmarshal (v : option pbstruct.Struct)
  : Alarm * PropertyMap * option (list string) :=
  let obj := Alarm_zero in
  let props := UnmarshalProperties v in
  let '(obj, result) := MapIU (Mappable props) obj in
  (obj, props, result).

Definition AlarmProvider_Name (req : lumirpc.NameRequest)
  : RPC lumirpc.NameResponse :=
  if negb (String.eqb (lumirpc.NameType req) AlarmToken)
  then AssertFailed
  else
    let '(obj, _, decerr) := Unmarshal (lumirpc.Properties req) in
    match decerr with
    | Some _ => Reply None (decode_error decerr)
    | None =>
        if String.eqb (Name obj) "" then
          if lookup_bool (lumirpc.Unknowns req) Alarm_Name
          then Reply None
                 (Some (errors.New
                    "Name property cannot be computed from unknown outputs"))
          else Reply None
                 (Some (errors.New "Name property cannot be empty"))
        else Reply (Some (lumirpc.mkNameResponse (Name obj))) None
    end.

Definition AlarmProvider_InspectChange (p : AlarmProviderOps)
    (req : lumirpc.InspectChangeRequest)
  : RPC lumirpc.InspectChangeResponse :=
  if negb (String.eqb (lumirpc.InspectType req) AlarmToken)
  then AssertFailed
  else
    let id := lumirpc.Id req in
    let '(old, oldprops, decerr) := Unmarshal (lumirpc.Olds req) in
    match decerr with
    | Some _ => Reply None (decode_error decerr)
    | None =>
        let '(new, newprops, decerr) := Unmarshal (lumirpc.News req) in
        match decerr with
        | Some _ => Reply None (decode_error decerr)
        | None =>
            let replaces : list string := [] in
            let diff := Diff oldprops newprops in
            let replaces :=
              match diff with
              | Some d =>
                  let replaces :=
                    if Changed d "name"
                    then (replaces ++ ["name"])%list else replaces in
                  let replaces :=
                    if Changed d "alarmName"
                    then (replaces ++ ["alarmName"])%list else replaces in
                  replaces
              | None => replaces
              end in
            let '(more, err) := InspectChange p id old new diff in
            match err with
            | Some _ => Reply None err
            | None =>
                Reply (Some (lumirpc.mkInspectChangeResponse
                               (replaces ++ more)%list)) err
            end
        end
    end.
End provider.
End cloudwatch.

Module ec2.
Section provider.
Context `{Properties}.

Definition VPCGatewayAttachmentToken : string :=
  "aws:ec2/vpcGatewayAttachment:VPCGatewayAttachment".

(** [VPCGatewayAttachment] is a marshalable representation of its IDL
    type. *)
Record VPCGatewayAttachment := mkVPCGatewayAttachment {
  Name : string;
  VPC : string;
  InternetGateway : string
}.

Definition VPCGatewayAttachment_zero : VPCGatewayAttachment :=
  mkVPCGatewayAttachment "" "" "".

Definition VPCGatewayAttachment_Name : string := "name".

(** [VPCGatewayAttachmentProviderOps], as far as [InspectChange] goes. *)
Record VPCGatewayAttachmentProviderOps := mkVPCGatewayAttachmentProviderOps {
  InspectChange :
    string -> VPCGatewayAttachment -> VPCGatewayAttachment ->
    option ObjectDiff -> list string * option error
}.

Context `{MapTarget VPCGatewayAttachment}.

Definition Unmarshal (v : option pbstruct.Struct)
  : VPCGatewayAttachment * PropertyMap * option (list string) :=
  let obj := VPCGatewayAttachment_zero in
  let props := UnmarshalProperties v in
  let '(obj, result) := MapIU (Mappable props) obj in
  (obj, props, result).

Definition VPCGatewayAttachmentProvider_Name (req : lumirpc.NameRequest)
  : RPC lumirpc.NameResponse :=
  if negb (String.eqb (lumirpc.NameType req) VPCGatewayAttachmentToken)
  then AssertFailed
  else
    let '(obj, _, decerr) := Unmarshal (lumirpc.Properties req) in
    match decerr with
    | Some _ => Reply None (decode_error decerr)
    | None =>
        if String.eqb (Name obj) "" then
          if lookup_bool (lumirpc.Unknowns req) VPCGatewayAttachment_Name
          then Reply None
                 (Some (errors.New
                    "Name property cannot be computed from unknown outputs"))
          else Reply None
                 (Some (errors.New "Name property cannot be empty"))
        else Reply (Some (lumirpc.mkNameResponse (Name obj))) None
    end.

Definition VPCGatewayAttachmentProvider_InspectChange
    (p : VPCGatewayAttachmentProviderOps)
    (req : lumirpc.InspectChangeRequest)
  : RPC lumirpc.InspectChangeResponse :=
  if negb (String.eqb (lumirpc.InspectType req) VPCGatewayAttachmentToken)
  then AssertFailed
  else
    let id := lumirpc.Id req in
    let '(old, oldprops, decerr) := Unmarshal (lumirpc.Olds req) in
    match decerr with
    | Some _ => Reply None (decode_error decerr)
    | None =>
        let '(new, newprops, decerr) := Unmarshal (lumirpc.News req) in
        match decerr with
        | Some _ => Reply None (decode_error decerr)
        | None =>
            let replaces : list string := [] in
            let diff := Diff oldprops newprops in
            let replaces :=
              match diff with
              | Some d =>
                  let replaces :=
                    if Changed d "name"
                    then (replaces ++ ["name"])%list else replaces in
                  let replaces :=
                    if Changed d "vpc"
                    then (replaces ++ ["vpc"])%list else replaces in
                  let replaces :=
                    if Changed d "internetGateway"
                    then (replaces ++ ["internetGateway"])%list
                    else replaces in
                  replaces
              | None => replaces
              end in
            let '(more, err) := InspectChange p id old new diff in
            match err with
            | Some _ => Reply None err
            | None =>
                Reply (Some (lumirpc.mkInspectChangeResponse
                               (replaces ++ more)%list)) err
            end
        end
    end.
End provider.
End ec2.

(** * Specifications

    The vocabulary in which the properties below are stated. *)

Section provider_specs.
Context `{Properties}.

(** What it means for a generated [InspectChange] stub, given by its
    [Unmarshal], its [ops] callback, its type token and the stub itself,
    to report a changed name: whenever the two property maps differ in
    the "name" key, every response carries "name" in front of the keys
    the callback declared, and a response is produced as soon as both
    decodes and the callback succeed. *)
Definition reports_changed_name {Obj Ops : Type}
    (unmarshal : option pbstruct.Struct ->
                 Obj * PropertyMap * option (list string))
    (callback : Ops -> string -> Obj -> Obj -> option ObjectDiff ->
                list string * option error)
    (token : string)
    (stub : Ops -> lumirpc.InspectChangeRequest ->
            RPC lumirpc.InspectChangeResponse) : Prop :=
  forall (ops : Ops) (req : lumirpc.InspectChangeRequest)
         old oldprops olderr new newprops newerr d,
    unmarshal (lumirpc.Olds req) = (old, oldprops, olderr) ->
    unmarshal (lumirpc.News req) = (new, newprops, newerr) ->
    Diff oldprops newprops = Some d ->
    Changed d "name" = true ->
    (forall resp err,
        stub ops req = Reply (Some resp) err ->
        In "name" (lumirpc.Replaces resp) /\
        exists structural more,
          In "name" structural /\
          callback ops (lumirpc.Id req) old new (Some d) = (more, None) /\
          lumirpc.Replaces resp = (structural ++ more)%list) /\
    (forall more,
        lumirpc.InspectType req = token ->
        olderr = None -> newerr = None ->
        callback ops (lumirpc.Id req) old new (Some d) = (more, None) ->
        exists resp,
          stub ops req = Reply (Some resp) None /\
          In "name" (lumirpc.Replaces resp)).

(** What it means for a generated [Name] stub to insist on a name: once
    the properties decode, an empty name is an error, whose message
    tells an unknown name from an empty one, and otherwise the response
    carries the decoded name. *)
Definition insists_on_name {Obj : Type}
    (unmarshal : option pbstruct.Struct ->
                 Obj * PropertyMap * option (list string))
    (name_of : Obj -> string) (token key : string)
    (stub : lumirpc.NameRequest -> RPC lumirpc.NameResponse) : Prop :=
  forall (req : lumirpc.NameRequest) obj props,
    unmarshal (lumirpc.Properties req) = (obj, props, None) ->
    (lumirpc.NameType req = token ->
       (name_of obj = "" ->
          exists msg,
            stub req = Reply None (Some (ErrorString msg)) /\
            msg = (if lookup_bool (lumirpc.Unknowns req) key
                   then "Name property cannot be computed from unknown outputs"
                   else "Name property cannot be empty")) /\
       (name_of obj <> "" ->
          stub req =
            Reply (Some (lumirpc.mkNameResponse (name_of obj))) None)) /\
    (forall resp err,
       stub req = Reply resp err ->
       (name_of obj = "" -> resp = None /\ is_Some err) /\
       (forall r, resp = Some r ->
          err = None /\ lumirpc.Name r = name_of obj /\
          lumirpc.Name r <> "")).
End provider_specs.



Section driver_specs.
Context `{Collaborators}.

(** The world a call leaves behind, whether it returns or panics. *)
Definition world_of {A} (o : Outcome A) : World :=
  match o with
  | Done _ w => w
  | Panicked _ w => w
  end.

(** The path [saveEnv] ends up writing to: the default location when no
    file is given, with the detected extension when it has none. *)
Definition resolved_path (env : Env) (file : string) : string :=
  let file := if String.eqb file "" then EnvPath (Name env) else file in
  if String.eqb (filepath.Ext file) "" then file +:+ snd (Detect file)
  else file.

(** The marshaler [saveEnv] detects for a file. *)
Definition detected (env : Env) (file : string)
  : option (encoding.Marshaler Envfile) :=
  fst (Detect (if String.eqb file "" then EnvPath (Name env) else file)).

(** The file system after the best-effort rename of [file] to its
    backup name. *)
Definition backed_up (file : string) (f : FS) : FS :=
  match faults f (SysRename file (file +:+ ".bak")), files f !! file with
  | None, Some content =>
      mkFS (<[file +:+ ".bak" := content]> (delete file (files f)))
           (dirs f) (faults f) (torn f)
  | _, _ => f
  end.

(** The file system after the best-effort rename and [MkdirAll] of the
    directory of [file], and the error of that [MkdirAll], if any. *)
Definition dir_made (file : string) (f : FS) : FS :=
  fst (os.mkdir_all (os.ancestors (Dir file)) (backed_up file f)).

Definition mkdir_error (file : string) (f : FS) : option error :=
  snd (os.mkdir_all (os.ancestors (Dir file)) (backed_up file f)).

(** The file system after a successful save of [data] at [file]. *)
Definition saved (file : string) (data : bytes) (f : FS) : FS :=
  let f := dir_made file f in
  mkFS (<[file := data]> (files f)) (dirs f) (faults f) (torn f).

(** The file system after a save whose directory was made and whose
    write at [file] then failed. *)
Definition write_failed (file : string) (f : FS) : FS :=
  let f := dir_made file f in
  mkFS (match torn f file with
        | Some partial => <[file := partial]> (files f)
        | None => files f
        end) (dirs f) (faults f) (torn f).

(** One [After] callback of a plan application. *)
Record Callback := mkCallback {
  cb_step : Step;
  cb_state : State;
  cb_err : option error
}.

(** The callbacks of a run, delivered in order to a progress tracker. *)
Fixpoint afterAll (cbs : list Callback) (prog : lumi.applyProgress)
  : M lumi.applyProgress :=
  match cbs with
  | [] => mret prog
  | cb :: rest =>
      prog ← lumi.After prog (cb_step cb) (cb_state cb) (cb_err cb);
      afterAll rest prog
  end.

(** A callback that reports a failure which left the resource in an
    unknown state. *)
Definition catastrophic (cb : Callback) : bool :=
  match cb_err cb, cb_state cb with
  | Some _, StateUnknown => true
  | _, _ => false
  end.

(** A callback whose state, if it reports a failure, is one of the two
    states the tracker knows. *)
Definition recognised (cb : Callback) : bool :=
  match cb_err cb, cb_state cb with
  | Some _, StateOther _ => false
  | _, _ => true
  end.

(** The operations whose counts a summary shows and adds up. *)
Definition counted (showReplaceSteps : bool) (op : StepOp) : bool :=
  showReplaceSteps || negb (lumi.isReplaceStep op).

(** The sum of the counts on the lines of a summary. *)
Definition displayed_sum (s : lumi.SummaryText) : Z :=
  foldr Z.add 0 (lumi.LineCount <$> lumi.Lines s).
End driver_specs.

(** The generic object as [readEnv] hands it to the validating decoder:
    without the resources of its "latest" entry, when that is a map. *)
Definition without_resources (obj : mapper.Object) : mapper.Object :=
  match obj !! "latest" with
  | Some (mapper.VMap latest) =>
      <["latest" := mapper.VMap (delete "resources" latest)]> obj
  | _ => obj
  end.

(** [readEnv]'s failure result, with the diagnostic it issued. *)
Definition read_failed {A B C : Type} (d : diag.Diagnostic) (w : World)
  : Outcome (option A * option B * option C) :=
  Done (None, None, None) (mkWorld (fs w) (sink w ++ [d])).

(** What an operation contributes to the lines of a summary: its count,
    when it is shown and positive. *)
Definition line_count (counts : gmap StepOp Z) (showReplaceSteps : bool)
    (op : StepOp) : Z :=
  let c := default 0 (counts !! op) in
  if counted showReplaceSteps op && (0 <? c)%Z then c else 0.

(** ** Proof steps *)

(** Running the monad: unfolds the plumbing of [M]. *)
Ltac run :=
  unfold mbind, M_bind, mret, M_ret, Errorf, Infof, emit, panic,
    get_fs, put_fs, get_sink, contract.Require, contract.Assert,
    contract.Failf in *;
  simpl in *.

(** Case analysis on the name test of a [Name] stub. *)
Ltac name_cases obj_name :=
  destruct (String.eqb_spec obj_name "") as [Hempty | Hname].

(** The tests on the further keys of a structural rule. *)
Ltac changed_cases d :=
  repeat match goal with
         | |- context [Changed d ?k] => destruct (Changed d k)
         end.

(** * A small concrete setting

    Concrete collaborators, on which the driver and the stubs can be run:
    envfiles that carry the name of the environment and the names of its
    resources, written out in a one-field text format, and property maps
    with string values. *)

Module fixture.

Record Checkpoint := mkCheckpoint {
  EnvName : string;
  Resources : list string
}.

Definition bytes_of (s : string) : bytes := String.list_byte_of_string s.
Definition string_of (b : bytes) : string := String.string_of_list_byte b.

(** The comma-separated fields of a line: the first one and the rest. *)
Fixpoint fields (s : string) : string * list string :=
  match s with
  | EmptyString => ("", [])
  | String c rest =>
      let '(first, others) := fields rest in
      if Ascii.eqb c ","%char then ("", first :: others)
      else (String c first, others)
  end.

Definition line (e : Checkpoint) : string :=
  foldl (fun s r => s +:+ "," +:+ r) (EnvName e) (Resources e).

(** The one marshaler: it writes the name of the environment and the
    names of its resources on a line.  An envfile with an unnamed
    resource cannot be encoded, and empty input cannot be decoded. *)
Definition json : encoding.Marshaler Checkpoint :=
  {| encoding.Marshal e :=
       if existsb (String.eqb "") (Resources e)
       then ([], Some (Foreign "resource without a name"))
       else (bytes_of (line e), None);
     encoding.UnmarshalEnvfile b :=
       match b with
       | [] => (mkCheckpoint "" [], Some (Foreign "unexpected end of input"))
       | _ => let '(name, resources) := fields (string_of b) in
              (mkCheckpoint name resources, None)
       end;
     encoding.UnmarshalObject b :=
       match b with
       | [] => (∅, Some (Foreign "unexpected end of input"))
       | _ => ({["name" := mapper.VString (fst (fields (string_of b)))]},
               None)
       end |}.

(** The directory part of a path: what precedes its last separator. *)
Fixpoint dir_from (path : string) (n : nat) : string :=
  match n with
  | O => "."
  | S i =>
      match String.get i path with
      | Some "/"%char => if Nat.eqb i 0 then "/" else String.substring 0 i path
      | _ => dir_from path i
      end
  end.

Definition prefix (op : StepOp) : string :=
  match op with
  | OpSame => "  "
  | OpCreate => "+ "
  | OpUpdate => "  "
  | OpDelete => "- "
  | OpReplace => "-+"
  | OpReplaceCreate => "~+"
  | OpReplaceDelete => "~-"
  end.

Definition collaborators : Collaborators :=
  {| Snapshot := list string;
     Envfile := Checkpoint;
     EnvPath name := ".lumi/env/" +:+ name +:+ ".json";
     Detect path :=
       let ext :=
         if String.eqb (filepath.Ext path) "" then ".json"
         else filepath.Ext path in
       (if String.eqb ext ".json" then Some json else None, ext);
     Dir path := dir_from path (String.length path);
     SerializeEnvfile env snap _ := mkCheckpoint (Name env) (default [] snap);
     DeserializeEnvfile e :=
       mret (Some (mkEnv (EnvName e) ∅), Some (Resources e));
     Decode obj :=
       match obj !! "name" with
       | Some _ => None
       | None => Some (Foreign "name: missing required field")
       end;
     StepOps := [OpSame; OpCreate; OpUpdate; OpDelete; OpReplace;
                 OpReplaceCreate; OpReplaceDelete];
     Prefix := prefix |}.

(** A file system without failures, holding the given files. *)
Definition disk (fl : gmap string bytes) : FS :=
  mkFS fl ∅ (fun _ => None) (fun _ => None).

Definition prod_env : Env := mkEnv "prod" ∅.
Definition prod_path : string := ".lumi/env/prod.json".

(** A world in which the environment "prod" has a checkpoint. *)
Definition deployed : World :=
  mkWorld (disk {[prod_path := bytes_of "prod"]}) [].

(** The same files, on a file system where [os.Stat] fails with an I/O
    error. *)
Definition unseen : World :=
  mkWorld
    (mkFS {[prod_path := bytes_of "prod"]} ∅
          (fun call =>
             match call with
             | SysStat _ => Some EIO
             | _ => None
             end)
          (fun _ => None)) [].

(** A world without any environment. *)
Definition fresh : World := mkWorld (disk ∅) [].

(** A snapshot: the names of the resources deployed. *)
Definition snapshot (names : list string) : @Snapshot collaborators := names.

(** A plan of one step, whose creation fails, leaving the state of the
    resource unknown; [Apply] tells the tracker and returns the
    checkpoint reached. *)
Definition failing_plan : lumi.Plan (H := collaborators) :=
  {| lumi.Empty := false;
     lumi.PlanSteps := [mkStep OpCreate];
     lumi.Apply prog :=
       prog ← lumi.Before prog (mkStep OpCreate);
       prog ← lumi.After prog (mkStep OpCreate) StateUnknown
                (Some (Foreign "creation failed"));
       mret (Some (snapshot ["bucket"]), Some (Foreign "creation failed"),
             prog) |}.

Definition failing_result : lumi.planResult (H := collaborators) :=
  {| lumi.Info := lumi.mkEnvCmdInfo (Some prod_env) None None [];
     lumi.New := Some (snapshot ["bucket"; "table"]);
     lumi.ThePlan := failing_plan |}.

Definition deploy_options : lumi.applyOptions :=
  {| lumi.Create := false; lumi.Delete := false; lumi.DryRun := false;
     lumi.Analyzers := []; lumi.ShowConfig := false;
     lumi.ShowReplaceSteps := false; lumi.ShowUnchanged := false;
     lumi.Summary := false; lumi.DOT := false; lumi.Output := "" |}.

(** The operations of a run: two creations and one replacement with its
    two fine-grained steps. *)
Definition counts : gmap StepOp Z :=
  <[OpCreate := 2]>
    (<[OpReplace := 1]>
       (<[OpReplaceCreate := 1]> {[OpReplaceDelete := 1]})).

(** ** Property maps with string values *)

Record FlatDiff := mkFlatDiff {
  Adds : gmap string string;
  Deletes : gmap string string;
  Sames : gmap string string;
  Updates : gmap string (string * string)
}.

(** Modelled from the spec: the structural diff of two property maps
    (keys only in the new map are adds, keys only in the old one deletes,
    keys in both are updates or sames; nil when nothing differs), here for
    maps whose values are strings. *)
Definition diff (old new : gmap string string) : option FlatDiff :=
  let adds := new ∖ old in
  let deletes := old ∖ new in
  let updates :=
    merge (fun o n =>
             match o, n with
             | Some a, Some b => if String.eqb a b then None else Some (a, b)
             | _, _ => None
             end) old new in
  let sames :=
    merge (fun o n =>
             match o, n with
             | Some a, Some b => if String.eqb a b then Some a else None
             | _, _ => None
             end) old new in
  if bool_decide (adds = ∅) && bool_decide (deletes = ∅)
     && bool_decide (updates = ∅)
  then None
  else Some (mkFlatDiff adds deletes sames updates).

Definition changed (d : FlatDiff) (k : string) : bool :=
  bool_decide (is_Some (Adds d !! k))
  || bool_decide (is_Some (Deletes d !! k))
  || bool_decide (is_Some (Updates d !! k)).

Definition properties : Properties :=
  {| PropertyMap := gmap string string;
     ObjectDiff := FlatDiff;
     UnmarshalProperties v :=
       omap (fun x => match x with
                      | mapper.VString s => Some s
                      | _ => None
                      end) (default ∅ v);
     Mappable props := mapper.VString <$> props;
     Diff := diff;
     Changed := changed |}.

(** Decoding into a struct, as far as the name goes. *)
Definition decode_name {T : Type} (set_name : string -> T -> T)
    (tree : mapper.Object) (obj : T) : T * option (list string) :=
  match tree !! "name" with
  | Some (mapper.VString s) => (set_name s obj, None)
  | Some _ => (obj, Some ["name: not a string"])
  | None => (obj, Some ["name: missing required field"])
  end.

Definition map_authorizer : MapTarget (apigateway.Authorizer) :=
  {| MapIU :=
       decode_name (fun s a =>
         apigateway.mkAuthorizer s (apigateway.Type_ a)
           (apigateway.AuthorizerCredentials a)
           (apigateway.AuthorizerResultTTLInSeconds a)
           (apigateway.AuthorizerURI a) (apigateway.IdentitySource a)
           (apigateway.IdentityValidationExpression a)
           (apigateway.Providers a) (apigateway.RestAPI a)) |}.

Definition map_alarm : MapTarget (cloudwatch.Alarm) :=
  {| MapIU :=
       decode_name (fun s a =>
         cloudwatch.mkAlarm s (cloudwatch.ComparisonOperator a)
           (cloudwatch.EvaluationPeriods a) (cloudwatch.MetricName a)
           (cloudwatch.Namespace a) (cloudwatch.Period a)
           (cloudwatch.Statistic a) (cloudwatch.Threshold a)
           (cloudwatch.ActionsEnabled a) (cloudwatch.AlarmActions a)
           (cloudwatch.AlarmDescription a) (cloudwatch.AlarmName a)
           (cloudwatch.Dimensions a) (cloudwatch.InsufficientDataActions a)
           (cloudwatch.OKActions a) (cloudwatch.Unit a)) |}.

Definition map_attachment : MapTarget (ec2.VPCGatewayAttachment) :=
  {| MapIU :=
       decode_name (fun s a =>
         ec2.mkVPCGatewayAttachment s (ec2.VPC a) (ec2.InternetGateway a)) |}.

(** A request to inspect the change of a resource renamed from "a" to
    "b", and a request for the name of a resource called "a". *)
Definition rename_request (token : string) : lumirpc.InspectChangeRequest :=
  {| lumirpc.Id := "id-1";
     lumirpc.InspectType := token;
     lumirpc.Olds := Some {["name" := mapper.VString "a"]};
     lumirpc.News := Some {["name" := mapper.VString "b"]} |}.

Definition name_request (token : string) : lumirpc.NameRequest :=
  {| lumirpc.NameType := token;
     lumirpc.Properties := Some {["name" := mapper.VString "a"]};
     lumirpc.Unknowns := ∅ |}.

(** Provider callbacks that declare one more cause of replacement. *)
Definition authorizer_ops
  : apigateway.AuthorizerProviderOps (H := properties) :=
  {| apigateway.InspectChange _ _ _ _ := (["type"], None) |}.

Definition alarm_ops : cloudwatch.AlarmProviderOps (H := properties) :=
  {| cloudwatch.InspectChange _ _ _ _ := (["metricName"], None) |}.

Definition attachment_ops
  : ec2.VPCGatewayAttachmentProviderOps (H := properties) :=
  {| ec2.InspectChange _ _ _ _ := ([], None) |}.

End fixture.

(** * More of the sources

    The rest of the environment commands of package [main], its indent
    helpers, and the stubs of a further provider in full. *)

(** ** The workspace ([pkg/workspace]) *)

Class Workspace := {
  (** [workspace.W] *)
  W : Type;
  (** [os.Getwd] *)
  Getwd : M (string * option error);
  (** [workspace.New] on a context for the given directory *)
  workspaceNew : string -> M (option W * option error);
  (** [w.Settings().Env], read and assigned *)
  SettingsEnv : W -> string;
  SetSettingsEnv : string -> W -> W;
  (** [w.Save()] *)
  Save : W -> M (option error)
}.

Module envcmd.
Section commands.
Context `{Collaborators} `{Workspace}.

(** [newWorkspace] creates a new workspace using the current working
    directory. *)
Definition newWorkspace : M (option W * option error) :=
  '(pwd, err) ← Getwd;
  match err with
  | Some err => mret (None, Some err)
  | None => workspaceNew pwd
  end.

(** [getCurrentEnv] reads the current environment. *)
Definition getCurrentEnv : M string :=
  '(w, err) ← newWorkspace;
  name ← match err with
         | None => w ← lumi.deref w; mret (SettingsEnv w)
         | Some _ => mret ""
         end;
  match err with
  | Some err => Errorf errors.ErrorIO [diag.AError err]
  | None => mret tt
  end;;
  mret name.

(** [setCurrentEnv] changes the current environment to the given
    environment name, issuing an error if it doesn't exist. *)
Definition setCurrentEnv (name : string) (verify : bool) : M unit :=
  let switch : M unit :=
    (* Switch the current workspace to that environment. *)
    '(w, err) ← newWorkspace;
    err ← match err with
          | None =>
              w ← lumi.deref w;
              Save (SetSettingsEnv name w)
          | Some _ => mret err
          end;
    match err with
    | Some err => Errorf errors.ErrorIO [diag.AError err]
    | None => mret tt
    end in
  if verify then
    '(_, env, _) ← lumi.readEnv name;
    match env with
    | None => mret tt (* no environment by this name exists, bail out *)
    | Some _ => switch
    end
  else switch.

(** [createEnv] just creates a new empty environment without deploying
    anything into it. *)
Definition createEnv (name : string) : M unit :=
  let env := Some (mkEnv name ∅) in
  lumi.saveEnv env None "" false ≫= fun success : bool =>
  if success then setCurrentEnv name false else mret tt.

Definition initEnvCmdName (name : string) (args : list string)
  : M (option lumi.envCmdInfo * option error) :=
  (* If the name is blank, use the default. *)
  name ← (if String.eqb name "" then getCurrentEnv else mret name);
  if String.eqb name "" then
    mret (None,
          Some (ErrorString "missing environment name (and no default found)"))
  else
    (* Read in the deployment information, bailing if an IO error
       occurs. *)
    '(envfile, env, old) ← lumi.readEnv name;
    match env with
    | None =>
        log ← get_sink;
        contract.Assert (negb (diag.Success log));;
        mret (None,
              Some (ErrorString "could not read envfile required to proceed"))
    | Some _ =>
        mret (Some (lumi.mkEnvCmdInfo env envfile old args), None)
    end.

Definition initEnvCmd (args : list string)
  : M (option lumi.envCmdInfo * option error) :=
  (* Read in the name of the environment to use. *)
  match args with
  | [] => mret (None, Some (ErrorString "missing required environment name"))
  | name :: rest =>
      if String.eqb name ""
      then mret (None, Some (ErrorString "missing required environment name"))
      else initEnvCmdName name rest
  end.
End commands.
End envcmd.

(** ** Indentation of the printed plan *)

Module display.





(** [strconv.Itoa], and [%d] of [fmt]. *)
Definition Itoa (i : Z) : string := pretty i.



End display.

(** ** The stubs of the Key provider, in full ([alarm.go]) *)

Module lumirpc_more.
Record CheckRequest := mkCheckRequest {
  CheckType : string;
  CheckProperties : option pbstruct.Struct
}.

Record CreateRequest := mkCreateRequest {
  CreateType : string;
  CreateProperties : option pbstruct.Struct
}.

Record CreateResponse := mkCreateResponse { CreatedId : string }.

Record GetRequest := mkGetRequest {
  GetType : string;
  GetId : string
}.

Record GetResponse := mkGetResponse { GotProperties : pbstruct.Struct }.

Record UpdateRequest := mkUpdateRequest {
  UpdateId : string;
  UpdateType : string;
  UpdateOlds : option pbstruct.Struct;
  UpdateNews : option pbstruct.Struct
}.

Record DeleteRequest := mkDeleteRequest {
  DeleteId : string;
  DeleteType : string
}.

(** [pbempty.Empty] *)
Inductive Empty := mkEmpty.
End lumirpc_more.

(** What the remaining stubs use of [pkg/resource]: the response to a
    check, and the way from a struct back to a protobuf struct. *)
Class Responses `{Properties} := {
  CheckResponse : Type;
  (** [resource.NewCheckResponse] *)
  NewCheckResponse : option (list string) -> CheckResponse;
  (** [resource.MarshalProperties nil props MarshalOptions{}] *)
  MarshalProperties : PropertyMap -> pbstruct.Struct
}.

(** [resource.NewPropertyMap], of a struct that may be nil. *)
Class PropertySource (T : Type) `{Properties} := {
  NewPropertyMap : option T -> PropertyMap
}.

Module kms.
Section provider.
Context `{Responses}.

Definition KeyToken : string := "aws:kms/key:Key".

(** [Key] is a marshalable representation of its IDL type. *)
Record Key := mkKey {
  Name : string;
  KeyPolicy : mapper.Value;
  Description : option string;
  Enabled : option bool;
  EnableKeyRotation : option bool
}.

Definition Key_zero : Key := mkKey "" mapper.VNil None None None.

Definition Key_Name : string := "name".

(** [KeyProviderOps] is a pluggable interface for Key-related management
    functionality. *)
Record KeyProviderOps := mkKeyProviderOps {
  Check : Key -> list string * option error;
  Create : Key -> string * option error;
  Get : string -> option Key * option error;
  InspectChange :
    string -> Key -> Key -> option ObjectDiff -> list string * option error;
  Update : string -> Key -> Key -> option ObjectDiff -> option error;
  Delete : string -> option error
}.

Context `{!MapTarget Key} `{!PropertySource Key}.

Definition Unmarshal (v : option pbstruct.Struct)
  : Key * PropertyMap * option (list string) :=
  let obj := Key_zero in
  let props := UnmarshalProperties v in
  let '(obj, result) := MapIU (Mappable props) obj in
  (obj, props, result).

Definition KeyProvider_Check (p : KeyProviderOps)
    (req : lumirpc_more.CheckRequest) : RPC CheckResponse :=
  if negb (String.eqb (lumirpc_more.CheckType req) KeyToken)
  then AssertFailed
  else
    let '(obj, _, decerr) := Unmarshal (lumirpc_more.CheckProperties req) in
    let consult :=
      match decerr with
      | None => true
      | Some failures => Nat.eqb (length failures) 0
      end in
    if consult then
      let '(failures, err) := Check p obj in
      match err with
      | Some _ => Reply None err
      | None =>
          let decerr :=
            if negb (Nat.eqb (length failures) 0) then Some failures
            else decerr in
          Reply (Some (NewCheckResponse decerr)) None
      end
    else Reply (Some (NewCheckResponse decerr)) None.

Definition KeyProvider_Name (req : lumirpc.NameRequest)
  : RPC lumirpc.NameResponse :=
  if negb (String.eqb (lumirpc.NameType req) KeyToken)
  then AssertFailed
  else
    let '(obj, _, decerr) := Unmarshal (lumirpc.Properties req) in
    match decerr with
    | Some _ => Reply None (decode_error decerr)
    | None =>
        if String.eqb (Name obj) "" then
          if lookup_bool (lumirpc.Unknowns req) Key_Name
          then Reply None
                 (Some (errors.New
                    "Name property cannot be computed from unknown outputs"))
          else Reply None
                 (Some (errors.New "Name property cannot be empty"))
        else Reply (Some (lumirpc.mkNameResponse (Name obj))) None
    end.

Definition KeyProvider_Create (p : KeyProviderOps)
    (req : lumirpc_more.CreateRequest) : RPC lumirpc_more.CreateResponse :=
  if negb (String.eqb (lumirpc_more.CreateType req) KeyToken)
  then AssertFailed
  else
    let '(obj, _, decerr) := Unmarshal (lumirpc_more.CreateProperties req) in
    match decerr with
    | Some _ => Reply None (decode_error decerr)
    | None =>
        let '(id, err) := Create p obj in
        match err with
        | Some _ => Reply None err
        | None => Reply (Some (lumirpc_more.mkCreateResponse id)) None
        end
    end.

Definition KeyProvider_Get (p : KeyProviderOps)
    (req : lumirpc_more.GetRequest) : RPC lumirpc_more.GetResponse :=
  if negb (String.eqb (lumirpc_more.GetType req) KeyToken)
  then AssertFailed
  else
    let id := lumirpc_more.GetId req in
    let '(obj, err) := Get p id in
    match err with
    | Some _ => Reply None err
    | None =>
        Reply (Some (lumirpc_more.mkGetResponse
                       (MarshalProperties (NewPropertyMap obj)))) None
    end.

Definition KeyProvider_InspectChange (p : KeyProviderOps)
    (req : lumirpc.InspectChangeRequest)
  : RPC lumirpc.InspectChangeResponse :=
  if negb (String.eqb (lumirpc.InspectType req) KeyToken)
  then AssertFailed
  else
    let id := lumirpc.Id req in
    let '(old, oldprops, decerr) := Unmarshal (lumirpc.Olds req) in
    match decerr with
    | Some _ => Reply None (decode_error decerr)
    | None =>
        let '(new, newprops, decerr) := Unmarshal (lumirpc.News req) in
        match decerr with
        | Some _ => Reply None (decode_error decerr)
        | None =>
            let replaces : list string := [] in
            let diff := Diff oldprops newprops in
            let replaces :=
              match diff with
              | Some d =>
                  if Changed d "name"
                  then (replaces ++ ["name"])%list else replaces
              | None => replaces
              end in
            let '(more, err) := InspectChange p id old new diff in
            match err with
            | Some _ => Reply None err
            | None =>
                Reply (Some (lumirpc.mkInspectChangeResponse
                               (replaces ++ more)%list)) err
            end
        end
    end.

Definition KeyProvider_Update (p : KeyProviderOps)
    (req : lumirpc_more.UpdateRequest) : RPC lumirpc_more.Empty :=
  if negb (String.eqb (lumirpc_more.UpdateType req) KeyToken)
  then AssertFailed
  else
    let id := lumirpc_more.UpdateId req in
    let '(old, oldprops, err) := Unmarshal (lumirpc_more.UpdateOlds req) in
    match err with
    | Some _ => Reply None (decode_error err)
    | None =>
        let '(new, newprops, err) := Unmarshal (lumirpc_more.UpdateNews req) in
        match err with
        | Some _ => Reply None (decode_error err)
        | None =>
            let diff := Diff oldprops newprops in
            match Update p id old new diff with
            | Some err => Reply None (Some err)
            | None => Reply (Some lumirpc_more.mkEmpty) None
            end
        end
    end.

Definition KeyProvider_Delete (p : KeyProviderOps)
    (req : lumirpc_more.DeleteRequest) : RPC lumirpc_more.Empty :=
  if negb (String.eqb (lumirpc_more.DeleteType req) KeyToken)
  then AssertFailed
  else
    let id := lumirpc_more.DeleteId req in
    match Delete p id with
    | Some err => Reply None (Some err)
    | None => Reply (Some lumirpc_more.mkEmpty) None
    end.
End provider.
End kms.

(** ** Import paths of the generated Go program
    ([pkg/codegen/go/gen_program.go]) *)

Module gen.
(** What [getVersionPath] reads of a [schema.Package]: its name and,
    behind a pointer that may be nil, its version, whose major number is
    an unsigned 64-bit integer. *)
Record Version := mkVersion { Major : Z }.

Record Package := mkPackage {
  Name : string;
  PkgVersion : option Version
}.

(** The loop of [getVersionPath]: the version of the first package of
    that name, converted to [int]; [None] is the nil dereference. *)
Fixpoint first_version (packages : list Package) (pkg : string)
    (version : Z) : option Z :=
  match packages with
  | [] => Some version
  | p :: rest =>
      if String.eqb (Name p) pkg then
        match PkgVersion p with
        | Some v => Some (goint.wrap (Major v))
        | None => None
        end
      else first_version rest pkg version
  end.

Definition getVersionPath (packages : list Package) (pkg : string)
  : option (string * option error) :=
  version ← first_version packages pkg (-1);
  if (version =? -1)%Z then
    Some ("", Some (ErrorString
      ("could not find package version information for pkg: " +:+ pkg)))
  else
    let vPath :=
      if (1 <? version)%Z then "/v" +:+ display.Itoa version else "" in
    Some (vPath, None).
End gen.

(** * More specifications *)

(** The histogram that counting operations one by one builds, starting
    from [m]: what [After] does to [Ops] and [printPlan] to its counts. *)
Definition tally_from (m : gmap StepOp Z) (ops : list StepOp)
  : gmap StepOp Z :=
  foldl (fun (m : gmap StepOp Z) op =>
           <[op := goint.incr (default 0 (m !! op))]> m) m ops.

Definition tally (ops : list StepOp) : gmap StepOp Z := tally_from ∅ ops.

(** How often an operation occurs in a list. *)
Definition occurrences (op : StepOp) (ops : list StepOp) : Z :=
  Z.of_nat (length (filter (fun o => o = op) ops)).

(** The operations of the callbacks that report success, in order. *)
Definition succeeded (cb : Callback) : bool :=
  match cb_err cb with
  | None => true
  | Some _ => false
  end.

Definition applied_ops (cbs : list Callback) : list StepOp :=
  (fun cb => Op (cb_step cb)) <$> filter (fun cb => succeeded cb = true) cbs.

(** The diagnostics of the callbacks that report a failure, in order. *)
Definition failure_reports (cbs : list Callback) : list diag.Diagnostic :=
  flat_map (fun cb =>
              match cb_err cb with
              | Some e =>
                  [diag.Error errors.ErrorPlanApplyFailed [diag.AError e]]
              | None => []
              end) cbs.

Section more_driver_specs.
Context `{Collaborators}.

(** The file [saveEnv] is asked to write: the given one, or the default
    location of the environment. *)
Definition requested (env : Env) (file : string) : string :=
  if String.eqb file "" then EnvPath (Name env) else file.

(** What [readEnv] makes of the bytes of an environment file, once they
    are read. *)
Definition decoded (m : encoding.Marshaler Envfile) (file : string)
    (b : bytes) : M (option Envfile * option Env * option Snapshot) :=
  let cant_read err :=
    diag.Error errors.ErrorCantReadDeployment
      [diag.AString file; diag.AError err] in
  fun w =>
    match encoding.UnmarshalEnvfile m b with
    | (_, Some err) => read_failed (cant_read err) w
    | (envfile, None) =>
        match encoding.UnmarshalObject m b with
        | (_, Some err) => read_failed (cant_read err) w
        | (obj, None) =>
            match Decode (without_resources obj) with
            | Some err => read_failed (cant_read err) w
            | None =>
                ('(env, snap) ← DeserializeEnvfile envfile;
                 contract.Assert (bool_decide (is_Some env));;
                 mret (Some envfile, env, snap)) w
            end
        end
    end.

(** A plan result whose plan applies differently. *)
Definition with_apply (result : lumi.planResult)
    (a : lumi.applyProgress ->
         M (option Snapshot * option error * lumi.applyProgress))
  : lumi.planResult :=
  lumi.mkPlanResult (lumi.Info result) (lumi.New result)
    (lumi.mkPlan (lumi.Empty (lumi.ThePlan result))
                 (lumi.PlanSteps (lumi.ThePlan result)) a).
End more_driver_specs.

(** A reply carries a response or an error, never both and never
    neither. *)
Definition replies_one {A : Type} (r : RPC A) : Prop :=
  match r with
  | Reply (Some _) None | Reply None (Some _) => True
  | Reply _ _ => False
  | AssertFailed => True
  end.

(** A stub asserts the type of its request: it trips the assertion
    exactly when the request is for another type. *)
Definition asserts_type {A : Type} (token ty : string) (r : RPC A) : Prop :=
  r = AssertFailed <-> ty <> token.



(** The assertion of a stub: the request's type decides. *)
Ltac type_asserted :=
  unfold asserts_type;
  match goal with
  | |- context [String.eqb ?ty kms.KeyToken] =>
      destruct (String.eqb_spec ty kms.KeyToken); simpl;
      [ split; [intros ?; exfalso | contradiction]
      | split; [intros _; assumption | reflexivity] ]
  end;
  repeat match goal with
         | H : context [match ?x with _ => _ end] |- _ => destruct x
         end;
  discriminate.

(** * More of the concrete setting *)

Module sample.

(** A workspace that opens and remembers the selected environment, and
    one whose directory cannot be determined. *)
Definition workspace : Workspace :=
  {| W := string;
     Getwd := mret ("/home/project", None);
     workspaceNew _ := mret (Some "", None);
     SettingsEnv w := w;
     SetSettingsEnv name _ := name;
     Save _ := mret None |}.

Definition lost : error := PathError "getwd" "." ENOENT.

Definition no_workspace : Workspace :=
  {| W := string;
     Getwd := mret ("", Some lost);
     workspaceNew _ := mret (Some "", None);
     SettingsEnv w := w;
     SetSettingsEnv name _ := name;
     Save _ := mret None |}.

(** The callbacks of a run: a creation, a failed update, a replacement
    with its creation, and another creation. *)
Definition callbacks : list Callback :=
  [mkCallback (mkStep OpCreate) StateOK None;
   mkCallback (mkStep OpUpdate) StateOK (Some (Foreign "throttled"));
   mkCallback (mkStep OpReplace) StateOK None;
   mkCallback (mkStep OpReplaceCreate) StateOK None;
   mkCallback (mkStep OpCreate) StateOK None].

(** A plan of three steps that applies without failure. *)
Definition plan : lumi.Plan (H := fixture.collaborators) :=
  {| lumi.Empty := false;
     lumi.PlanSteps := [mkStep OpCreate; mkStep OpReplace;
                        mkStep OpReplaceDelete];
     lumi.Apply prog := mret (Some (fixture.snapshot ["bucket"]), None, prog) |}.

Definition result : lumi.planResult (H := fixture.collaborators) :=
  {| lumi.Info := lumi.mkEnvCmdInfo (Some fixture.prod_env) None None [];
     lumi.New := Some (fixture.snapshot ["bucket"]);
     lumi.ThePlan := plan |}.

Definition dry_run : lumi.applyOptions :=
  {| lumi.Create := false; lumi.Delete := false; lumi.DryRun := true;
     lumi.Analyzers := []; lumi.ShowConfig := false;
     lumi.ShowReplaceSteps := false; lumi.ShowUnchanged := false;
     lumi.Summary := false; lumi.DOT := false; lumi.Output := "" |}.

(** Check responses as the list of failures, and property maps
    marshaled back to structs of strings. *)
Definition responses : Responses (H := fixture.properties) :=
  {| CheckResponse := list string;
     NewCheckResponse decerr := default [] decerr;
     MarshalProperties props := mapper.VString <$> props |}.

Definition map_key : MapTarget kms.Key :=
  {| MapIU :=
       fixture.decode_name (fun s k =>
         kms.mkKey s (kms.KeyPolicy k) (kms.Description k)
           (kms.Enabled k) (kms.EnableKeyRotation k)) |}.

Definition key_source : PropertySource (H := fixture.properties) kms.Key :=
  {| NewPropertyMap k :=
       match k with
       | Some k => {["name" := kms.Name k]}
       | None => ∅
       end |}.

(** Callbacks of the Key provider: keys need a description. *)
Definition key_ops : kms.KeyProviderOps (H := fixture.properties) :=
  {| kms.Check k :=
       (match kms.Description k with
        | Some _ => []
        | None => ["description: missing"]
        end, None);
     kms.Create k := ("key-" +:+ kms.Name k, None);
     kms.Get id := (Some (kms.mkKey id mapper.VNil None None None), None);
     kms.InspectChange _ _ _ _ := (["keyPolicy"], None);
     kms.Update _ _ _ _ := None;
     kms.Delete _ := None |}.

(** Properties without a name, which do not decode. *)
Definition nameless : option pbstruct.Struct :=
  Some {["description" := mapper.VString "signing key"]}.

Definition named : option pbstruct.Struct :=
  Some {["name" := mapper.VString "a"]}.

(** The packages of a program: two versions of aws are listed. *)
Definition packages : list gen.Package :=
  [gen.mkPackage "random" (Some (gen.mkVersion 2));
   gen.mkPackage "aws" (Some (gen.mkVersion 3));
   gen.mkPackage "aws" (Some (gen.mkVersion 1))].
End sample.
(** * Properties of the provider stubs *)

Lemma unknown_and_empty_messages_differ :
  "Name property cannot be computed from unknown outputs"
  <> "Name property cannot be empty".
Proof. discriminate. Qed.


Section apigateway_specs.
Context `{Properties} `{!MapTarget apigateway.Authorizer}.

Lemma Authorizer_InspectChange_name :
  reports_changed_name apigateway.Unmarshal apigateway.InspectChange
    apigateway.AuthorizerToken apigateway.AuthorizerProvider_InspectChange.
Proof.
  intros ops req old oldprops olderr new newprops newerr d
         Hold Hnew Hdiff Hchanged.
  unfold apigateway.AuthorizerProvider_InspectChange.
  rewrite Hold, Hnew, Hdiff, Hchanged. simpl.
  destruct (apigateway.InspectChange ops (lumirpc.Id req) old new (Some d))
    as [more operr] eqn:Hops.
  split.
  - intros resp err Hcall.
    destruct (negb _); [discriminate |].
    destruct olderr; [discriminate |].
    destruct newerr; [discriminate |].
    destruct operr; [discriminate |].
    injection Hcall as <- <-. simpl. split; [now left |].
    exists ["name"], more. repeat split; simpl; auto.
  - intros more' Htype -> -> Hmore. injection Hmore as -> ->.
    rewrite Htype, String.eqb_refl. simpl.
    eexists. split; [reflexivity |]. simpl. now left.
Qed.

Lemma Authorizer_Name_insists :
  insists_on_name apigateway.Unmarshal apigateway.Name
    apigateway.AuthorizerToken apigateway.Authorizer_Name
    apigateway.AuthorizerProvider_Name.
Proof.
  intros req obj props Hdec.
  unfold apigateway.AuthorizerProvider_Name. rewrite Hdec.
  split.
  - intros ->. rewrite String.eqb_refl. simpl.
    split.
    + intros ->. simpl. eexists. split; [| reflexivity].
      destruct (lookup_bool _ _); reflexivity.
    + intros Hne. name_cases (apigateway.Name obj); [contradiction |].
      reflexivity.
  - intros resp err Hcall.
    destruct (negb _); [discriminate |].
    name_cases (apigateway.Name obj).
    + split.
      * intros _. destruct (lookup_bool _ _);
          injection Hcall as <- <-; split; eauto.
      * intros r ->. destruct (lookup_bool _ _); discriminate.
    + injection Hcall as <- <-. split; [contradiction |].
      intros r [= <-]. simpl. auto.
Qed.
End apigateway_specs.


Section cloudwatch_specs.
Context `{Properties} `{!MapTarget cloudwatch.Alarm}.

Lemma Alarm_InspectChange_name :
  reports_changed_name cloudwatch.Unmarshal cloudwatch.InspectChange
    cloudwatch.AlarmToken cloudwatch.AlarmProvider_InspectChange.
Proof.
  intros ops req old oldprops olderr new newprops newerr d
         Hold Hnew Hdiff Hchanged.
  unfold cloudwatch.AlarmProvider_InspectChange.
  rewrite Hold, Hnew, Hdiff, Hchanged. simpl.
  destruct (cloudwatch.InspectChange ops (lumirpc.Id req) old new (Some d))
    as [more operr] eqn:Hops.
  split.
  - intros resp err Hcall.
    destruct (negb _); [discriminate |].
    destruct olderr; [discriminate |].
    destruct newerr; [discriminate |].
    destruct operr; [discriminate |].
    injection Hcall as <- <-. simpl. split.
    + changed_cases d; now left.
    + exists (if Changed d "alarmName" then ["name"; "alarmName"]
              else ["name"]), more.
      repeat split; changed_cases d; simpl; auto.
  - intros more' Htype -> -> Hmore. injection Hmore as -> ->.
    rewrite Htype, String.eqb_refl. simpl.
    eexists. split; [reflexivity |]. simpl. changed_cases d; now left.
Qed.

Lemma Alarm_Name_insists :
  insists_on_name cloudwatch.Unmarshal cloudwatch.Name
    cloudwatch.AlarmToken cloudwatch.Alarm_Name
    cloudwatch.AlarmProvider_Name.
Proof.
  intros req obj props Hdec.
  unfold cloudwatch.AlarmProvider_Name. rewrite Hdec.
  split.
  - intros ->. rewrite String.eqb_refl. simpl.
    split.
    + intros ->. simpl. eexists. split; [| reflexivity].
      destruct (lookup_bool _ _); reflexivity.
    + intros Hne. name_cases (cloudwatch.Name obj); [contradiction |].
      reflexivity.
  - intros resp err Hcall.
    destruct (negb _); [discriminate |].
    name_cases (cloudwatch.Name obj).
    + split.
      * intros _. destruct (lookup_bool _ _);
          injection Hcall as <- <-; split; eauto.
      * intros r ->. destruct (lookup_bool _ _); discriminate.
    + injection Hcall as <- <-. split; [contradiction |].
      intros r [= <-]. simpl. auto.
Qed.
End cloudwatch_specs.

Section ec2_specs.
Context `{Properties} `{!MapTarget ec2.VPCGatewayAttachment}.

Lemma VPCGatewayAttachment_InspectChange_name :
  reports_changed_name ec2.Unmarshal ec2.InspectChange
    ec2.VPCGatewayAttachmentToken
    ec2.VPCGatewayAttachmentProvider_InspectChange.
Proof.
  intros ops req old oldprops olderr new newprops newerr d
         Hold Hnew Hdiff Hchanged.
  unfold ec2.VPCGatewayAttachmentProvider_InspectChange.
  rewrite Hold, Hnew, Hdiff, Hchanged. simpl.
  destruct (ec2.InspectChange ops (lumirpc.Id req) old new (Some d))
    as [more operr] eqn:Hops.
  split.
  - intros resp err Hcall.
    destruct (negb _); [discriminate |].
    destruct olderr; [discriminate |].
    destruct newerr; [discriminate |].
    destruct operr; [discriminate |].
    injection Hcall as <- <-. simpl. split.
    + changed_cases d; now left.
    + exists ((if Changed d "vpc" then ["name"; "vpc"] else ["name"])
              ++ (if Changed d "internetGateway"
                  then ["internetGateway"] else []))%list, more.
      repeat split; changed_cases d; simpl; auto.
  - intros more' Htype -> -> Hmore. injection Hmore as -> ->.
    rewrite Htype, String.eqb_refl. simpl.
    eexists. split; [reflexivity |]. simpl. changed_cases d; now left.
Qed.

Lemma VPCGatewayAttachment_Name_insists :
  insists_on_name ec2.Unmarshal ec2.Name
    ec2.VPCGatewayAttachmentToken ec2.VPCGatewayAttachment_Name
    ec2.VPCGatewayAttachmentProvider_Name.
Proof.
  intros req obj props Hdec.
  unfold ec2.VPCGatewayAttachmentProvider_Name. rewrite Hdec.
  split.
  - intros ->. rewrite String.eqb_refl. simpl.
    split.
    + intros ->. simpl. eexists. split; [| reflexivity].
      destruct (lookup_bool _ _); reflexivity.
    + intros Hne. name_cases (ec2.Name obj); [contradiction |].
      reflexivity.
  - intros resp err Hcall.
    destruct (negb _); [discriminate |].
    name_cases (ec2.Name obj).
    + split.
      * intros _. destruct (lookup_bool _ _);
          injection Hcall as <- <-; split; eauto.
      * intros r ->. destruct (lookup_bool _ _); discriminate.
    + injection Hcall as <- <-. split; [contradiction |].
      intros r [= <-]. simpl. auto.
Qed.
End ec2_specs.

Section all_providers.
Context `{Properties} `{!MapTarget apigateway.Authorizer}
        `{!MapTarget cloudwatch.Alarm}
        `{!MapTarget ec2.VPCGatewayAttachment}.

(** C1: for each of the providers, whenever the old and the new
    property maps of an [InspectChange] call differ in the "name" key,
    every response lists "name" among the causes of replacement, and it
    lists the structural keys followed by whatever keys the provider's
    own [InspectChange] returned: those are appended and replace
    nothing.  A response is produced whenever both property bags decode
    and the provider's callback succeeds. *)
Theorem InspectChange_always_reports_name :
  reports_changed_name apigateway.Unmarshal apigateway.InspectChange
    apigateway.AuthorizerToken apigateway.AuthorizerProvider_InspectChange /\
  reports_changed_name cloudwatch.Unmarshal cloudwatch.InspectChange
    cloudwatch.AlarmToken cloudwatch.AlarmProvider_InspectChange /\
  reports_changed_name ec2.Unmarshal ec2.InspectChange
    ec2.VPCGatewayAttachmentToken
    ec2.VPCGatewayAttachmentProvider_InspectChange.
Proof.
  split; [| split].
  - apply Authorizer_InspectChange_name.
  - apply Alarm_InspectChange_name.
  - apply VPCGatewayAttachment_InspectChange_name.
Qed.

(** C9: for each of the providers, a [Name] call whose properties
    decode fails whenever the decoded name is empty, with one message
    when the request marks the name as unknown and another when it is
    merely empty; a call that succeeds returns the decoded name, which
    is then not empty. *)
Theorem Name_never_empty :
  (insists_on_name apigateway.Unmarshal apigateway.Name
     apigateway.AuthorizerToken apigateway.Authorizer_Name
     apigateway.AuthorizerProvider_Name /\
   insists_on_name cloudwatch.Unmarshal cloudwatch.Name
     cloudwatch.AlarmToken cloudwatch.Alarm_Name
     cloudwatch.AlarmProvider_Name /\
   insists_on_name ec2.Unmarshal ec2.Name
     ec2.VPCGatewayAttachmentToken ec2.VPCGatewayAttachment_Name
     ec2.VPCGatewayAttachmentProvider_Name) /\
  "Name property cannot be computed from unknown outputs"
  <> "Name property cannot be empty".
Proof.
  split; [split; [| split] |].
  - apply Authorizer_Name_insists.
  - apply Alarm_Name_insists.
  - apply VPCGatewayAttachment_Name_insists.
  - apply unknown_and_empty_messages_differ.
Qed.
End all_providers.

(** * Properties of the checkpoint driver *)


Lemma length_append (s1 s2 : string) :
  String.length (s1 +:+ s2) = (String.length s1 + String.length s2)%nat.
Proof. induction s1 as [| c s1 IH]; simpl; [reflexivity | now rewrite IH]. Qed.

Lemma length_substring0 (n : nat) (s : string) :
  (n <= String.length s)%nat ->
  String.length (String.substring 0 n s) = n.
Proof.
  revert s. induction n as [| n IH]; intros [| c s] Hn; simpl in *;
    try reflexivity; try lia.
  rewrite IH; [reflexivity | lia].
Qed.

Lemma append_bak_ne (file : string) : file +:+ ".bak" <> file.
Proof.
  intros Heq. apply (f_equal String.length) in Heq.
  rewrite length_append in Heq. simpl in Heq. lia.
Qed.

Section save_specs.
Context `{Collaborators}.

Lemma backupEnv_backed_up (file : string) (w : World) :
  file <> "" ->
  lumi.backupEnv file w = Done tt (mkWorld (backed_up file (fs w)) (sink w)).
Proof.
  intros Hne. unfold lumi.backupEnv, os.Rename, backed_up.
  destruct (String.eqb_spec file ""); [contradiction |]. run.
  destruct w as [f log]; simpl.
  destruct (faults f _); [reflexivity |].
  destruct (files f !! file); reflexivity.
Qed.

Lemma backupEnv_empty (w : World) :
  exists msg, lumi.backupEnv "" w = Panicked msg w.
Proof. eexists. reflexivity. Qed.

Lemma backed_up_backup (file : string) (f : FS) (content : bytes) :
  files f !! file = Some content ->
  faults f (SysRename file (file +:+ ".bak")) = None ->
  files (backed_up file f) !! (file +:+ ".bak") = Some content /\
  files (backed_up file f) !! file = None.
Proof.
  intros Hfile Hfault. unfold backed_up. rewrite Hfault, Hfile. simpl.
  split.
  - apply lookup_insert_eq.
  - rewrite lookup_insert_ne by apply append_bak_ne.
    apply lookup_delete_eq.
Qed.

Lemma backed_up_unchanged (file : string) (f : FS) :
  files f !! file = None \/
  is_Some (faults f (SysRename file (file +:+ ".bak"))) ->
  backed_up file f = f.
Proof.
  unfold backed_up. intros [Hnone | [errno Hfault]].
  - rewrite Hnone. destruct (faults f _); reflexivity.
  - rewrite Hfault. reflexivity.
Qed.

Lemma backed_up_other (file : string) (f : FS) (p : string) :
  p <> file -> p <> file +:+ ".bak" ->
  files (backed_up file f) !! p = files f !! p.
Proof.
  intros Hp Hbak. unfold backed_up.
  destruct (faults f _); [reflexivity |].
  destruct (files f !! file); [| reflexivity]. simpl.
  rewrite lookup_insert_ne by congruence.
  rewrite lookup_delete_ne by congruence. reflexivity.
Qed.

Lemma backed_up_dirs_faults (file : string) (f : FS) :
  dirs (backed_up file f) = dirs f /\ faults (backed_up file f) = faults f.
Proof.
  unfold backed_up. destruct (faults f _); [auto |].
  destruct (files f !! file); auto.
Qed.

(** What [Mkdir] and [MkdirAll] leave alone, and what they make. *)
Lemma mkdir_frame (name : string) (f : FS) :
  let f' := fst (os.mkdir name f) in
  files f' = files f /\ faults f' = faults f /\ torn f' = torn f /\
  dirs f ⊆ dirs f' /\ dirs f' ⊆ {[name]} ∪ dirs f /\
  (snd (os.mkdir name f) = None -> name ∈ dirs f').
Proof.
  unfold os.mkdir. destruct (faults f (SysMkdir name)); simpl.
  - repeat apply conj; auto; [apply union_subseteq_r | discriminate].
  - destruct (String.eqb name ""); simpl;
      [repeat apply conj; auto; [apply union_subseteq_r | discriminate] |].
    destruct (_ || _); simpl.
    + repeat apply conj; auto; [apply union_subseteq_r | discriminate].
    + repeat apply conj; auto; [apply union_subseteq_r |].
      intros _. apply elem_of_union_l. now apply elem_of_singleton.
Qed.

Lemma lstat_dir_dirs (f : FS) (name : string) :
  os.lstat_dir f name = true -> name ∈ dirs f.
Proof.
  unfold os.lstat_dir. destruct (faults f (SysLstat name)); [discriminate |].
  apply bool_decide_eq_true_1.
Qed.

Lemma mkdir_all_frame (chain : list string) (f : FS) :
  let f' := fst (os.mkdir_all chain f) in
  files f' = files f /\ faults f' = faults f /\ torn f' = torn f /\
  dirs f ⊆ dirs f' /\ dirs f' ⊆ list_to_set chain ∪ dirs f /\
  (snd (os.mkdir_all chain f) = None ->
   forall p, head chain = Some p -> p ∈ dirs f').
Proof.
  revert f. induction chain as [| path parents IH]; intros f; simpl.
  - repeat apply conj; auto; [apply union_subseteq_r | discriminate].
  - destruct (os.stat f path) as [staterr |].
    + specialize (IH f).
      destruct (os.mkdir_all parents f) as [f1 [err |]]; simpl in *.
      * destruct IH as (Hfiles & Hfaults & Htorn & Hsub & Hsup & _).
        repeat apply conj; auto; [| discriminate].
        intros d Hd. apply Hsup in Hd.
        apply elem_of_union in Hd as [Hd | Hd];
          [apply elem_of_union_l, elem_of_union_r, Hd
          | apply elem_of_union_r, Hd].
      * destruct IH as (Hfiles & Hfaults & Htorn & Hsub & Hsup & _).
        assert (Hsup1 :
          dirs f1 ⊆ ({[path]} ∪ list_to_set parents) ∪ dirs f).
        { intros d Hd. apply Hsup in Hd.
          apply elem_of_union in Hd as [Hd | Hd];
            [apply elem_of_union_l, elem_of_union_r, Hd
            | apply elem_of_union_r, Hd]. }
        destruct (mkdir_frame path f1)
          as (Hfiles' & Hfaults' & Htorn' & Hsub' & Hsup' & Hmade).
        destruct (os.mkdir path f1) as [f2 [err |]]; simpl in *.
        -- destruct (os.lstat_dir f1 path) eqn:Hlstat; simpl.
           ++ repeat apply conj; auto.
              intros _ p [= <-]. now apply lstat_dir_dirs.
           ++ repeat apply conj; auto. discriminate.
        -- repeat apply conj; try congruence.
           ++ intros d Hd. apply Hsub', Hsub, Hd.
           ++ intros d Hd. apply Hsup' in Hd.
              apply elem_of_union in Hd as [Hd | Hd];
                [apply elem_of_union_l, elem_of_union_l, Hd |].
              now apply Hsup1.
           ++ intros Hok p [= <-]. now apply Hmade.
    + destruct (bool_decide_reflect (path ∈ dirs f)) as [Hdir | _]; simpl.
      * repeat apply conj; auto; [apply union_subseteq_r |].
        intros _ p [= <-]. exact Hdir.
      * repeat apply conj; auto; [apply union_subseteq_r | discriminate].
Qed.

Lemma dir_made_files (file : string) (f : FS) :
  files (dir_made file f) = files (backed_up file f) /\
  faults (dir_made file f) = faults f /\
  torn (dir_made file f) = torn (backed_up file f).
Proof.
  unfold dir_made.
  destruct (mkdir_all_frame (os.ancestors (Dir file)) (backed_up file f))
    as (Hfiles & Hfaults & Htorn & _).
  destruct (backed_up_dirs_faults file f) as [_ Hbf].
  repeat apply conj; congruence.
Qed.

Lemma ancestors_head (path : string) : head (os.ancestors path) = Some path.
Proof. unfold os.ancestors. now destruct (String.length path). Qed.

(** The course of [saveEnv] once the format is detected and the envfile
    is encoded. *)
Lemma saveEnv_encoded (env : Env) (snap : option Snapshot) (file : string)
    (existok : bool) (w : World) m data :
  detected env file = Some m ->
  encoding.Marshal m (SerializeEnvfile env snap "") = (data, None) ->
  let path := resolved_path env file in
  lumi.saveEnv (Some env) snap file existok w =
    if negb existok && negb (bool_decide (is_Some (os.stat (fs w) path))) then
      Done false
        (mkWorld (fs w)
           (sink w ++
            [diag.Error errors.ErrorIO
               [diag.AError
                  (ErrorString ("file '" +:+ path +:+ "' already exists"))]]))
    else if String.eqb path "" then
      Panicked "precondition on file" w
    else
      match mkdir_error path (fs w) with
      | Some err =>
          Done false
            (mkWorld (dir_made path (fs w))
               (sink w ++ [diag.Error errors.ErrorIO [diag.AError err]]))
      | None =>
          match faults (fs w) (SysWriteFile path) with
          | Some errno =>
              Done false
                (mkWorld (write_failed path (fs w))
                   (sink w ++
                    [diag.Error errors.ErrorIO
                       [diag.AError (PathError "open" path errno)]]))
          | None => Done true (mkWorld (saved path data (fs w)) (sink w))
          end
      end.
Proof.
  unfold detected, resolved_path, lumi.saveEnv.
  intros Hdet Henc. simpl.
  set (file0 := if String.eqb file "" then EnvPath (Name env) else file) in *.
  destruct (Detect file0) as [m' ext] eqn:HD. simpl in Hdet. subst m'.
  simpl.
  set (path := if String.eqb (filepath.Ext file0) "" then file0 +:+ ext
               else file0).
  assert (Hout :
    (lumi.backupEnv path ≫= fun _ : unit =>
     os.MkdirAll (Dir path) ≫= fun err : option error =>
     match err with
     | Some err => Errorf errors.ErrorIO [diag.AError err];; mret false
     | None =>
         ioutil.WriteFile path data ≫= fun err : option error =>
         match err with
         | Some err => Errorf errors.ErrorIO [diag.AError err];; mret false
         | None => mret true
         end
     end) w =
    if String.eqb path "" then Panicked "precondition on file" w
    else
      match mkdir_error path (fs w) with
      | Some err =>
          Done false
            (mkWorld (dir_made path (fs w))
               (sink w ++ [diag.Error errors.ErrorIO [diag.AError err]]))
      | None =>
          match faults (fs w) (SysWriteFile path) with
          | Some errno =>
              Done false
                (mkWorld (write_failed path (fs w))
                   (sink w ++
                    [diag.Error errors.ErrorIO
                       [diag.AError (PathError "open" path errno)]]))
          | None => Done true (mkWorld (saved path data (fs w)) (sink w))
          end
      end).
  { destruct (String.eqb_spec path "") as [Hempty | Hpath].
    - rewrite Hempty. reflexivity.
    - unfold mbind at 1. unfold M_bind at 1.
      rewrite (backupEnv_backed_up path w Hpath).
      destruct (dir_made_files path (fs w)) as (_ & Hfaults & _).
      unfold saved, write_failed, mkdir_error, dir_made in *.
      unfold os.MkdirAll, ioutil.WriteFile. run.
      destruct (os.mkdir_all (os.ancestors (Dir path))
                  (backed_up path (fs w))) as [f1 [err |]]; simpl in *.
      + reflexivity.
      + destruct f1 as [files1 dirs1 faults1 torn1]; simpl in *.
        subst faults1.
        destruct (faults (fs w) (SysWriteFile path)); simpl;
          [destruct (torn1 path) |]; reflexivity. }
  run. fold file0. rewrite HD, Henc. fold path.
  unfold os.Stat. run.
  destruct existok; simpl; [exact Hout |].
  destruct (os.stat (fs w) path); simpl; [exact Hout | reflexivity].
Qed.

Lemma saveEnv_undetected (env : Env) (snap : option Snapshot) (file : string)
    (existok : bool) (w : World) :
  detected env file = None ->
  exists ext,
    lumi.saveEnv (Some env) snap file existok w =
      Done false
        (mkWorld (fs w)
           (sink w ++
            [diag.Error errors.ErrorIllegalMarkupExtension [diag.AString ext]])).
Proof.
  unfold detected, lumi.saveEnv. intros Hdet.
  destruct (Detect _) as [m ext] eqn:HD. simpl in Hdet. subst m.
  exists ext. run. rewrite HD. reflexivity.
Qed.

Lemma saveEnv_unencodable (env : Env) (snap : option Snapshot) (file : string)
    (existok : bool) (w : World) m data err :
  detected env file = Some m ->
  encoding.Marshal m (SerializeEnvfile env snap "") = (data, Some err) ->
  lumi.saveEnv (Some env) snap file existok w =
    Done false
      (mkWorld (fs w)
         (sink w ++ [diag.Error errors.ErrorIO [diag.AError err]])).
Proof.
  unfold detected, lumi.saveEnv. intros Hdet Henc.
  destruct (Detect _) as [m' ext] eqn:HD. simpl in Hdet. subst m'.
  run. rewrite HD, Henc. reflexivity.
Qed.

Lemma saveEnv_nil (snap : option Snapshot) (file : string) (existok : bool)
    (w : World) :
  exists msg, lumi.saveEnv None snap file existok w = Panicked msg w.
Proof. eexists. reflexivity. Qed.

Lemma saved_files (path : string) (data : bytes) (f : FS) :
  files (saved path data f) !! path = Some data /\
  (mkdir_error path f = None -> Dir path ∈ dirs (saved path data f)) /\
  (forall old,
      files f !! path = Some old ->
      faults f (SysRename path (path +:+ ".bak")) = None ->
      files (saved path data f) !! (path +:+ ".bak") = Some old) /\
  (files f !! path = None \/
   is_Some (faults f (SysRename path (path +:+ ".bak"))) ->
   files (saved path data f) = <[path := data]> (files f)).
Proof.
  destruct (dir_made_files path f) as (Hfiles & _ & _).
  unfold saved. simpl. rewrite Hfiles. repeat apply conj.
  - apply lookup_insert_eq.
  - intros Hok. unfold mkdir_error, dir_made in *.
    destruct (mkdir_all_frame (os.ancestors (Dir path)) (backed_up path f))
      as (_ & _ & _ & _ & _ & Hhead).
    apply (Hhead Hok). apply ancestors_head.
  - intros old Hold Hfault.
    rewrite lookup_insert_ne by (apply not_eq_sym, append_bak_ne).
    now apply backed_up_backup.
  - intros Hfail. now rewrite backed_up_unchanged.
Qed.

(** The file system changes only on the way past the existence check. *)
Lemma saveEnv_touches (env : option Env) (snap : option Snapshot)
    (file : string) (existok : bool) (w : World) :
  fs (world_of (lumi.saveEnv env snap file existok w)) <> fs w ->
  exists e m data,
    env = Some e /\
    detected e file = Some m /\
    encoding.Marshal m (SerializeEnvfile e snap "") = (data, None) /\
    (existok = true \/ is_Some (os.stat (fs w) (resolved_path e file))).
Proof.
  intros Hfs. destruct env as [e |].
  2: { destruct (saveEnv_nil snap file existok w) as [msg Hnil].
       rewrite Hnil in Hfs. now destruct Hfs. }
  destruct (detected e file) as [m |] eqn:Hdet.
  2: { destruct (saveEnv_undetected e snap file existok w Hdet) as [ext Hu].
       rewrite Hu in Hfs. now destruct Hfs. }
  destruct (encoding.Marshal m (SerializeEnvfile e snap "")) as [data [err |]]
    eqn:Henc.
  { rewrite (saveEnv_unencodable e snap file existok w m data err Hdet Henc)
      in Hfs. now destruct Hfs. }
  exists e, m, data. repeat split; try assumption.
  rewrite (saveEnv_encoded e snap file existok w m data Hdet Henc) in Hfs.
  destruct existok; [now left | right]. simpl in Hfs.
  destruct (os.stat (fs w) (resolved_path e file)); [eauto |].
  simpl in Hfs. now destruct Hfs.
Qed.

(** What [os.Stat] reports of a file that is there. *)
Lemma stat_file (f : FS) (name : string) (content : bytes) :
  files f !! name = Some content ->
  os.stat f name =
    (fun errno => PathError "stat" name errno) <$> faults f (SysStat name).
Proof.
  intros Hfile. unfold os.stat. rewrite Hfile.
  destruct (faults f (SysStat name)); [reflexivity |].
  rewrite bool_decide_eq_true_2 by eauto. reflexivity.
Qed.

(** C4, as amended: [saveEnv] with [existok = false], when a file
    already exists at the resolved path and [os.Stat] reports it without
    an error, returns [false] and leaves the file system exactly as it
    was: the file keeps its contents, nothing is renamed to the backup
    name, no directory is made and nothing is written. *)
Theorem saveEnv_refuses_existing_file (env : Env) (snap : option Snapshot)
    (file : string) (w : World) (content : bytes) :
  files (fs w) !! resolved_path env file = Some content ->
  faults (fs w) (SysStat (resolved_path env file)) = None ->
  exists w',
    lumi.saveEnv (Some env) snap file false w = Done false w' /\
    fs w' = fs w /\
    files (fs w') !! resolved_path env file = Some content /\
    files (fs w') !! (resolved_path env file +:+ ".bak") =
      files (fs w) !! (resolved_path env file +:+ ".bak").
Proof.
  intros Hfile Hstat.
  assert (Hgoal : exists w',
    lumi.saveEnv (Some env) snap file false w = Done false w' /\ fs w' = fs w).
  { destruct (detected env file) as [m |] eqn:Hdet.
    2: { destruct (saveEnv_undetected env snap file false w Hdet) as [ext Hu].
         rewrite Hu. eauto. }
    destruct (encoding.Marshal m (SerializeEnvfile env snap ""))
      as [data [err |]] eqn:Henc.
    { rewrite (saveEnv_unencodable env snap file false w m data err Hdet Henc).
      eauto. }
    rewrite (saveEnv_encoded env snap file false w m data Hdet Henc).
    simpl. rewrite (stat_file _ _ _ Hfile), Hstat. simpl. eauto. }
  destruct Hgoal as (w' & Hsave & Hfs).
  exists w'. rewrite Hfs. auto.
Qed.

(** C5: [saveEnv] validates and encodes before it touches the
    destination.  An undetectable format is reported as an illegal
    extension and an encoding failure as an I/O error; either way the
    call returns [false] with the file system as it was.  More generally,
    whenever a call changes the file system at all, the format had been
    detected, the envfile encoded, and the existence check passed
    (overwriting was allowed, or [os.Stat] returned an error). *)
Theorem saveEnv_validates_before_writing (env : Env) (snap : option Snapshot)
    (file : string) (existok : bool) (w : World) :
  (detected env file = None ->
   exists ext,
     lumi.saveEnv (Some env) snap file existok w =
       Done false
         (mkWorld (fs w)
            (sink w ++
             [diag.Error errors.ErrorIllegalMarkupExtension
                [diag.AString ext]]))) /\
  (forall m data err,
     detected env file = Some m ->
     encoding.Marshal m (SerializeEnvfile env snap "") = (data, Some err) ->
     lumi.saveEnv (Some env) snap file existok w =
       Done false
         (mkWorld (fs w)
            (sink w ++ [diag.Error errors.ErrorIO [diag.AError err]]))) /\
  (forall env',
     fs (world_of (lumi.saveEnv env' snap file existok w)) <> fs w ->
     exists e m data,
       env' = Some e /\
       detected e file = Some m /\
       encoding.Marshal m (SerializeEnvfile e snap "") = (data, None) /\
       (existok = true \/ is_Some (os.stat (fs w) (resolved_path e file)))).
Proof.
  split; [| split].
  - apply saveEnv_undetected.
  - intros m data err. apply saveEnv_unencodable.
  - intros env'. apply saveEnv_touches.
Qed.

(** A save that passes the checks and meets no failure of [MkdirAll] or
    [WriteFile] succeeds, whatever becomes of the rename. *)
Lemma saveEnv_succeeds (env : Env) (snap : option Snapshot) (file : string)
    (existok : bool) (w : World) m data :
  detected env file = Some m ->
  encoding.Marshal m (SerializeEnvfile env snap "") = (data, None) ->
  resolved_path env file <> "" ->
  existok = true \/ is_Some (os.stat (fs w) (resolved_path env file)) ->
  mkdir_error (resolved_path env file) (fs w) = None ->
  faults (fs w) (SysWriteFile (resolved_path env file)) = None ->
  lumi.saveEnv (Some env) snap file existok w =
    Done true
      (mkWorld (saved (resolved_path env file) data (fs w)) (sink w)).
Proof.
  intros Hdet Henc Hpath Hexist Hmkdir Hwrite.
  rewrite (saveEnv_encoded env snap file existok w m data Hdet Henc).
  simpl.
  assert (Hcheck : negb existok
            && negb (bool_decide
                       (is_Some (os.stat (fs w) (resolved_path env file))))
          = false).
  { destruct Hexist as [-> | Hstat]; [reflexivity |].
    rewrite bool_decide_eq_true_2 by assumption.
    destruct existok; reflexivity. }
  rewrite Hcheck.
  destruct (String.eqb_spec (resolved_path env file) ""); [contradiction |].
  rewrite Hmkdir, Hwrite. reflexivity.
Qed.

(** A save that returns [true] went all the way. *)
Lemma saveEnv_true (env : Env) (snap : option Snapshot) (file : string)
    (existok : bool) (w w' : World) :
  lumi.saveEnv (Some env) snap file existok w = Done true w' ->
  exists m data,
    detected env file = Some m /\
    encoding.Marshal m (SerializeEnvfile env snap "") = (data, None) /\
    mkdir_error (resolved_path env file) (fs w) = None /\
    w' = mkWorld (saved (resolved_path env file) data (fs w)) (sink w).
Proof.
  intros Hsave.
  destruct (detected env file) as [m |] eqn:Hdet.
  2: { destruct (saveEnv_undetected env snap file existok w Hdet) as [ext Hu].
       rewrite Hu in Hsave. discriminate. }
  destruct (encoding.Marshal m (SerializeEnvfile env snap ""))
    as [data [err |]] eqn:Henc.
  { rewrite (saveEnv_unencodable env snap file existok w m data err Hdet Henc)
      in Hsave. discriminate. }
  exists m, data. split; [reflexivity |]. split; [assumption |].
  rewrite (saveEnv_encoded env snap file existok w m data Hdet Henc) in Hsave.
  simpl in Hsave.
  destruct (negb existok && _); [discriminate |].
  destruct (String.eqb _ ""); [discriminate |].
  destruct (mkdir_error _ _); [discriminate |].
  destruct (faults _ (SysWriteFile _)); [discriminate |].
  split; [reflexivity |]. now injection Hsave as <-.
Qed.

(** C6: every successful save leaves the file system as the best-effort
    rename to the ".bak" name, the creation of the directory and the
    write make it, in this order: an existing file that the rename could
    move is found under the backup name, and the new content is at the
    destination.  A failing rename (no existing file, or an error of the
    operating system) does not abort the save, which succeeds as soon as
    the checks pass (overwriting is allowed, or [os.Stat] returns an
    error) and neither [MkdirAll] nor [WriteFile] fails. *)
Theorem saveEnv_backs_up_then_writes (env : Env) (snap : option Snapshot)
    (file : string) (existok : bool) (w : World) :
  let path := resolved_path env file in
  (forall w',
     lumi.saveEnv (Some env) snap file existok w = Done true w' ->
     exists m data,
       detected env file = Some m /\
       encoding.Marshal m (SerializeEnvfile env snap "") = (data, None) /\
       w' = mkWorld (saved path data (fs w)) (sink w) /\
       files (fs w') !! path = Some data /\
       Dir path ∈ dirs (fs w') /\
       (forall old,
          files (fs w) !! path = Some old ->
          faults (fs w) (SysRename path (path +:+ ".bak")) = None ->
          files (fs w') !! (path +:+ ".bak") = Some old) /\
       (files (fs w) !! path = None \/
        is_Some (faults (fs w) (SysRename path (path +:+ ".bak"))) ->
        files (fs w') = <[path := data]> (files (fs w)))) /\
  (forall m data,
     detected env file = Some m ->
     encoding.Marshal m (SerializeEnvfile env snap "") = (data, None) ->
     path <> "" ->
     existok = true \/ is_Some (os.stat (fs w) path) ->
     mkdir_error path (fs w) = None ->
     faults (fs w) (SysWriteFile path) = None ->
     lumi.saveEnv (Some env) snap file existok w =
       Done true (mkWorld (saved path data (fs w)) (sink w))).
Proof.
  intros path. split.
  - intros w' Hsave.
    destruct (saveEnv_true env snap file existok w w' Hsave)
      as (m & data & Hdet & Henc & Hmkdir & ->).
    exists m, data. simpl.
    destruct (saved_files path data (fs w)) as (Hnew & Hdir & Hbak & Hplain).
    repeat split; auto.
  - intros m data. apply saveEnv_succeeds.
Qed.
End save_specs.

Section remove_specs.
Context `{Collaborators}.

Lemma deleteEnv_outcome (env : Env) (w : World) :
  lumi.deleteEnv (Some env) w =
    if String.eqb (EnvPath (Name env)) ""
    then Panicked "precondition on file" w
    else Done tt (mkWorld (backed_up (EnvPath (Name env)) (fs w)) (sink w)).
Proof.
  unfold lumi.deleteEnv. run.
  destruct (String.eqb_spec (EnvPath (Name env)) "") as [-> | Hne].
  - reflexivity.
  - now apply backupEnv_backed_up.
Qed.

Lemma removeEnv_outcome (env : Env) (w : World) :
  lumi.removeEnv (Some env) w = lumi.deleteEnv (Some env) w.
Proof.
  unfold lumi.removeEnv. run.
  destruct (lumi.deleteEnv (Some env) w) as [[] w' | msg w']; reflexivity.
Qed.

Lemma removeEnv_fs (env : Env) (w : World) :
  let file := EnvPath (Name env) in
  fs (world_of (lumi.removeEnv (Some env) w)) =
    (if String.eqb file "" then fs w else backed_up file (fs w)) /\
  sink (world_of (lumi.removeEnv (Some env) w)) = sink w.
Proof.
  simpl. rewrite removeEnv_outcome, deleteEnv_outcome.
  destruct (String.eqb _ ""); simpl; auto.
Qed.

(** C10: removing an environment neither deletes nor truncates the
    checkpoint: all that [removeEnv] and [deleteEnv] do to the file
    system is the rename of the environment file to its ".bak" name.
    Directories and all other files stay as they are, the bytes of the
    environment file remain on disk, and when the rename goes through
    they are found, unchanged, under the backup name. *)
Theorem removeEnv_only_renames (env : Env) (w : World) :
  let file := EnvPath (Name env) in
  let after := fs (world_of (lumi.removeEnv (Some env) w)) in
  lumi.removeEnv (Some env) w = lumi.deleteEnv (Some env) w /\
  (after = fs w \/ after = backed_up file (fs w)) /\
  dirs after = dirs (fs w) /\
  (forall p, p <> file -> p <> file +:+ ".bak" ->
     files after !! p = files (fs w) !! p) /\
  (forall content,
     files (fs w) !! file = Some content ->
     (files after !! file = Some content \/
      files after !! (file +:+ ".bak") = Some content) /\
     (file <> "" ->
      faults (fs w) (SysRename file (file +:+ ".bak")) = None ->
      lumi.removeEnv (Some env) w =
        Done tt (mkWorld (backed_up file (fs w)) (sink w)) /\
      files after !! (file +:+ ".bak") = Some content /\
      files after !! file = None)).
Proof.
  intros file after.
  destruct (removeEnv_fs env w) as [Hafter _]. fold file after in Hafter.
  split; [apply removeEnv_outcome |].
  split; [| split; [| split]].
  - rewrite Hafter. destruct (String.eqb file ""); auto.
  - rewrite Hafter. destruct (String.eqb file ""); [reflexivity |].
    apply backed_up_dirs_faults.
  - intros p Hp Hbak. rewrite Hafter.
    destruct (String.eqb file ""); [reflexivity |].
    now apply backed_up_other.
  - intros content Hfile. split.
    + rewrite Hafter. destruct (String.eqb file ""); [now left |].
      destruct (faults (fs w) (SysRename file (file +:+ ".bak")))
        as [errno |] eqn:Hfault.
      * left. rewrite backed_up_unchanged; [assumption |].
        right. rewrite Hfault. eauto.
      * right. now apply backed_up_backup.
    + intros Hne Hfault. rewrite Hafter.
      rewrite removeEnv_outcome, deleteEnv_outcome. fold file.
      destruct (String.eqb_spec file ""); [contradiction |].
      split; [reflexivity |]. now apply backed_up_backup.
Qed.
End remove_specs.

Section read_specs.
Context `{Collaborators}.

Lemma ReadFile_pure (file : string) (w : World) :
  exists b err, ioutil.ReadFile file w = Done (b, err) w.
Proof.
  unfold ioutil.ReadFile. run.
  destruct (faults (fs w) _); [eauto |].
  destruct (files (fs w) !! file); eauto.
Qed.

(** The course of [readEnv] once the format is detected. *)
Lemma readEnv_detected (name : string) (w : World) m ext b err :
  name <> "" ->
  Detect (EnvPath name) = (Some m, ext) ->
  ioutil.ReadFile (EnvPath name) w = Done (b, err) w ->
  lumi.readEnv name w =
    match err with
    | Some err =>
        read_failed
          (if os.IsNotExist err
           then diag.Error errors.ErrorInvalidEnvName [diag.AString name]
           else diag.Error errors.ErrorIO [diag.AError err]) w
    | None =>
        let cant_read err :=
          diag.Error errors.ErrorCantReadDeployment
            [diag.AString (EnvPath name); diag.AError err] in
        match encoding.UnmarshalEnvfile m b with
        | (_, Some err) => read_failed (cant_read err) w
        | (envfile, None) =>
            match encoding.UnmarshalObject m b with
            | (_, Some err) => read_failed (cant_read err) w
            | (obj, None) =>
                match Decode (without_resources obj) with
                | Some err => read_failed (cant_read err) w
                | None =>
                    ('(env, snap) ← DeserializeEnvfile envfile;
                     contract.Assert (bool_decide (is_Some env));;
                     mret (Some envfile, env, snap)) w
                end
            end
        end
    end.
Proof.
  intros Hname HD Hread. unfold lumi.readEnv, read_failed, without_resources.
  destruct (String.eqb_spec name ""); [contradiction |].
  run. rewrite HD, Hread.
  destruct err as [err |].
  { destruct (os.IsNotExist err); reflexivity. }
  destruct (encoding.UnmarshalEnvfile m b) as [envfile [err |]];
    [reflexivity |].
  destruct (encoding.UnmarshalObject m b) as [obj [err |]];
    [reflexivity |].
  destruct (Decode _); reflexivity.
Qed.

(** C7: [readEnv] decodes the file twice, into the typed envfile and
    into a generic object that serves the validation only, and returns
    three nils when the format is undetectable, when the file cannot be
    read, or when either decode fails.  A file that does not exist is
    reported as an invalid environment name, every other read error as an
    I/O error.  When nothing fails, the result is the typed envfile and
    what [DeserializeEnvfile] makes of it. *)
Theorem readEnv_reports_failures (name : string) (w : World) :
  name <> "" ->
  let file := EnvPath name in
  let cant_read err :=
    diag.Error errors.ErrorCantReadDeployment
      [diag.AString file; diag.AError err] in
  (forall ext,
     Detect file = (None, ext) ->
     lumi.readEnv name w =
       read_failed
         (diag.Error errors.ErrorIllegalMarkupExtension [diag.AString ext]) w)
  /\
  (forall m ext,
     Detect file = (Some m, ext) ->
     (forall b err,
        ioutil.ReadFile file w = Done (b, Some err) w ->
        (os.IsNotExist err = true ->
         lumi.readEnv name w =
           read_failed
             (diag.Error errors.ErrorInvalidEnvName [diag.AString name]) w) /\
        (os.IsNotExist err = false ->
         lumi.readEnv name w =
           read_failed (diag.Error errors.ErrorIO [diag.AError err]) w)) /\
     (files (fs w) !! file = None ->
      faults (fs w) (SysReadFile file) = None ->
      lumi.readEnv name w =
        read_failed
          (diag.Error errors.ErrorInvalidEnvName [diag.AString name]) w) /\
     (forall b,
        ioutil.ReadFile file w = Done (b, None) w ->
        (forall envfile err,
           encoding.UnmarshalEnvfile m b = (envfile, Some err) ->
           lumi.readEnv name w = read_failed (cant_read err) w) /\
        (forall envfile obj err,
           encoding.UnmarshalEnvfile m b = (envfile, None) ->
           encoding.UnmarshalObject m b = (obj, Some err) ->
           lumi.readEnv name w = read_failed (cant_read err) w) /\
        (forall envfile obj,
           encoding.UnmarshalEnvfile m b = (envfile, None) ->
           encoding.UnmarshalObject m b = (obj, None) ->
           lumi.readEnv name w =
             match Decode (without_resources obj) with
             | Some err => read_failed (cant_read err) w
             | None =>
                 ('(env, snap) ← DeserializeEnvfile envfile;
                  contract.Assert (bool_decide (is_Some env));;
                  mret (Some envfile, env, snap)) w
             end))).
Proof.
  intros Hname file cant_read. split.
  - intros ext HD. unfold lumi.readEnv, read_failed.
    destruct (String.eqb_spec name ""); [contradiction |].
    run. fold file. rewrite HD. reflexivity.
  - intros m ext HD. split; [| split].
    + intros b err Hread.
      rewrite (readEnv_detected name w m ext b (Some err) Hname HD Hread).
      split; intros ->; reflexivity.
    + intros Hfile Hfault.
      assert (Hread : ioutil.ReadFile file w =
                Done ([], Some (PathError "open" file ENOENT)) w).
      { unfold ioutil.ReadFile. run. now rewrite Hfault, Hfile. }
      rewrite (readEnv_detected name w m ext _ _ Hname HD Hread).
      reflexivity.
    + intros b Hread.
      pose proof (readEnv_detected name w m ext b None Hname HD Hread)
        as Hcourse.
      simpl in Hcourse. fold file in Hcourse.
      split; [| split].
      * intros envfile err Henv. rewrite Hcourse, Henv. reflexivity.
      * intros envfile obj err Henv Hobj.
        rewrite Hcourse, Henv, Hobj. reflexivity.
      * intros envfile obj Henv Hobj.
        rewrite Hcourse, Henv, Hobj. reflexivity.
Qed.
End read_specs.

Section progress_specs.

Lemma After_outcome (prog : lumi.applyProgress) (step : Step) (state : State)
    (err : option error) (w : World) :
  lumi.After prog step state err w =
    match err with
    | None =>
        Done (lumi.mkApplyProgress
                (goint.incr (lumi.Steps prog))
                (<[Op step :=
                     goint.incr (default 0 (lumi.Ops prog !! Op step))]>
                   (lumi.Ops prog))
                (lumi.MaybeCorrupt prog) (lumi.ProgressSummary prog)) w
    | Some e =>
        let w' :=
          mkWorld (fs w)
            (sink w ++
             [diag.Error errors.ErrorPlanApplyFailed [diag.AError e]]) in
        match state with
        | StateOK => Done prog w'
        | StateUnknown =>
            Done (lumi.mkApplyProgress (lumi.Steps prog) (lumi.Ops prog) true
                    (lumi.ProgressSummary prog)) w'
        | StateOther _ => Panicked "Unrecognized resource state" w'
        end
    end.
Proof.
  unfold lumi.After. destruct err as [e |]; [| reflexivity].
  destruct state; reflexivity.
Qed.

Lemma After_flag (prog prog' : lumi.applyProgress) (cb : Callback)
    (w w' : World) :
  lumi.After prog (cb_step cb) (cb_state cb) (cb_err cb) w = Done prog' w' ->
  lumi.MaybeCorrupt prog' = lumi.MaybeCorrupt prog || catastrophic cb.
Proof.
  rewrite After_outcome. unfold catastrophic.
  destruct (cb_err cb) as [e |]; simpl.
  - destruct (cb_state cb); intros [= <- <-]; simpl.
    + now rewrite orb_false_r.
    + now rewrite orb_true_r.
  - intros [= <- <-]. simpl. now rewrite orb_false_r.
Qed.

Lemma After_returns (prog : lumi.applyProgress) (cb : Callback) (w : World) :
  recognised cb = true ->
  exists prog' w',
    lumi.After prog (cb_step cb) (cb_state cb) (cb_err cb) w = Done prog' w'.
Proof.
  rewrite After_outcome. unfold recognised.
  destruct (cb_err cb) as [e |]; [| eauto].
  destruct (cb_state cb); simpl; eauto. discriminate.
Qed.

(** A failure that [After] is told of is on the sink afterwards. *)
Lemma After_reports (prog prog' : lumi.applyProgress) (step : Step)
    (state : State) (e : error) (w w' : World) :
  lumi.After prog step state (Some e) w = Done prog' w' ->
  diag.Success (sink w') = false.
Proof.
  rewrite After_outcome. simpl.
  assert (Hlog : diag.Success
            (sink w ++
             [diag.Error errors.ErrorPlanApplyFailed [diag.AError e]]) = false).
  { unfold diag.Success. rewrite existsb_app. simpl.
    now rewrite orb_true_r. }
  destruct state; intros [= <- <-]; exact Hlog.
Qed.

Lemma afterAll_flag (cbs : list Callback) :
  forall (prog prog' : lumi.applyProgress) (w w' : World),
    afterAll cbs prog w = Done prog' w' ->
    lumi.MaybeCorrupt prog' =
      lumi.MaybeCorrupt prog || existsb catastrophic cbs.
Proof.
  induction cbs as [| cb cbs IH]; intros prog prog' w w' Hrun.
  - injection Hrun as <- <-. simpl. now rewrite orb_false_r.
  - simpl in Hrun. unfold mbind, M_bind in Hrun.
    destruct (lumi.After prog (cb_step cb) (cb_state cb) (cb_err cb) w)
      as [prog1 w1 | msg w1] eqn:Hstep; [| discriminate].
    apply IH in Hrun. apply After_flag in Hstep.
    rewrite Hrun, Hstep. simpl. now rewrite orb_assoc.
Qed.

Lemma afterAll_returns (cbs : list Callback) :
  forall (prog : lumi.applyProgress) (w : World),
    forallb recognised cbs = true ->
    exists prog' w', afterAll cbs prog w = Done prog' w'.
Proof.
  induction cbs as [| cb cbs IH]; intros prog w Hrec.
  - simpl. eauto.
  - simpl in Hrec. apply andb_true_iff in Hrec as [Hcb Hrest].
    destruct (After_returns prog cb w Hcb) as (prog1 & w1 & Hstep).
    simpl. unfold mbind, M_bind. rewrite Hstep. now apply IH.
Qed.

(** C2: over any sequence of [After] callbacks, [MaybeCorrupt] is the
    flag the tracker started with or-ed with "some callback so far
    reported an error with state Unknown".  Hence it becomes true with the
    first such callback, a later callback never resets it, and a callback
    with a nil error or with state OK leaves it as it is.  A fresh tracker
    starts with the flag down, and the callbacks all return as long as
    the failures they report come with one of the two known states. *)
Theorem MaybeCorrupt_is_sticky (cbs : list Callback)
    (prog : lumi.applyProgress) (w : World) :
  (forall summary, lumi.MaybeCorrupt (lumi.newProgress summary) = false) /\
  (forall prog' w',
     afterAll cbs prog w = Done prog' w' ->
     lumi.MaybeCorrupt prog' =
       lumi.MaybeCorrupt prog || existsb catastrophic cbs) /\
  (forallb recognised cbs = true ->
   exists prog' w', afterAll cbs prog w = Done prog' w') /\
  (forall step state err,
     err = None \/ state = StateOK ->
     exists prog' w',
       lumi.After prog step state err w = Done prog' w' /\
       lumi.MaybeCorrupt prog' = lumi.MaybeCorrupt prog) /\
  (forall step e,
     exists prog' w',
       lumi.After prog step StateUnknown (Some e) w = Done prog' w' /\
       lumi.MaybeCorrupt prog' = true).
Proof.
  split; [reflexivity |].
  split; [intros prog' w'; apply afterAll_flag |].
  split; [apply afterAll_returns |].
  split.
  - intros step state err Hquiet. rewrite After_outcome.
    destruct err as [e |].
    + destruct Hquiet as [Hnone | ->]; [discriminate |]. simpl. eauto.
    + simpl. eauto.
  - intros step e. rewrite After_outcome. simpl. eauto.
Qed.
End progress_specs.

Section apply_specs.
Context `{Collaborators}.

Lemma checkEmpty_returns (plan : lumi.Plan) (w : World) :
  exists w', lumi.checkEmpty plan w = Done (lumi.Empty plan) w' /\ fs w' = fs w.
Proof.
  unfold lumi.checkEmpty. destruct (lumi.Empty plan); run; eauto.
Qed.

(** C3: in an apply that is not a dry run, whatever checkpoint
    [Plan.Apply] returns goes to [saveEnv], for the environment of the
    plan and the requested output, with overwriting allowed, and this
    whether [Apply] returned an error or not; the error only has to be on
    the sink, as [apply] asserts of a failing [Apply].  So, whenever the
    save itself goes through, the checkpoint of a failed run is on disk at
    the resolved path after [apply]. *)
Theorem apply_saves_checkpoint
    (plan : lumi.envCmdInfo -> lumi.applyOptions ->
            M (option lumi.planResult))
    (info : lumi.envCmdInfo) (opts : lumi.applyOptions)
    (result : lumi.planResult) (w w1 w2 w3 : World) (empty : bool)
    (checkpoint : option Snapshot) (err : option error)
    (progress : lumi.applyProgress) :
  lumi.DryRun opts = false ->
  plan info opts w = Done (Some result) w1 ->
  lumi.checkEmpty (lumi.ThePlan result) w1 = Done empty w2 ->
  lumi.Apply (lumi.ThePlan result) (lumi.newProgress (lumi.Summary opts)) w2 =
    Done (checkpoint, err, progress) w3 ->
  (is_Some err -> diag.Success (sink w3) = false) ->
  lumi.apply plan info opts w =
    (_ ← lumi.saveEnv (lumi.InfoEnv (lumi.Info result)) checkpoint
           (lumi.Output opts) true;
     mret tt) w3 /\
  (forall env m data,
     lumi.InfoEnv (lumi.Info result) = Some env ->
     detected env (lumi.Output opts) = Some m ->
     encoding.Marshal m (SerializeEnvfile env checkpoint "") = (data, None) ->
     resolved_path env (lumi.Output opts) <> "" ->
     mkdir_error (resolved_path env (lumi.Output opts)) (fs w3) = None ->
     faults (fs w3) (SysWriteFile (resolved_path env (lumi.Output opts)))
       = None ->
     exists w4,
       lumi.apply plan info opts w = Done tt w4 /\
       files (fs w4) !! resolved_path env (lumi.Output opts) = Some data).
Proof.
  intros Hdry Hplan Hempty Happly Hreported.
  assert (Hcourse :
    lumi.apply plan info opts w =
      (_ ← lumi.saveEnv (lumi.InfoEnv (lumi.Info result)) checkpoint
             (lumi.Output opts) true;
       mret tt) w3).
  { unfold lumi.apply. unfold mbind at 1. unfold M_bind at 1.
    rewrite Hplan, Hdry.
    unfold mbind at 1. unfold M_bind at 1. rewrite Hempty.
    unfold mbind at 1. unfold M_bind at 1. rewrite Happly.
    unfold mbind at 1. unfold M_bind at 1.
    destruct err as [e |].
    - rewrite bool_decide_eq_true_2 by eauto.
      unfold get_sink, contract.Assert.
      unfold mbind at 1. unfold M_bind at 1.
      rewrite Hreported by eauto. reflexivity.
    - rewrite bool_decide_eq_false_2 by (intros [? ?]; discriminate).
      reflexivity. }
  split; [exact Hcourse |].
  intros env m data Henv Hdet Henc Hpath Hmkdir Hwrite.
  rewrite Hcourse, Henv. unfold mbind, M_bind.
  rewrite (saveEnv_succeeds env checkpoint (lumi.Output opts) true w3 m data
             Hdet Henc Hpath (or_introl eq_refl) Hmkdir Hwrite).
  eexists. split; [reflexivity |]. simpl.
  apply saved_files.
Qed.
End apply_specs.

Section summary_specs.
Context `{Collaborators}.

Lemma wrap_add_wrap (a b : Z) :
  goint.wrap (goint.wrap a + b) = goint.wrap (a + b).
Proof.
  unfold goint.wrap.
  replace ((a + goint.half) mod goint.modulus - goint.half + b + goint.half)
    with ((a + goint.half) mod goint.modulus + b) by lia.
  rewrite Zplus_mod_idemp_l. do 2 f_equal. lia.
Qed.

Lemma wrap_small (a : Z) : 0 <= a < goint.half -> goint.wrap a = a.
Proof.
  intros Ha. unfold goint.wrap.
  rewrite Z.mod_small; [lia |].
  unfold goint.modulus, goint.half in *. lia.
Qed.

Lemma skip_not_counted (show : bool) (op : StepOp) :
  negb show && lumi.isReplaceStep op = negb (counted show op).
Proof. unfold counted. destruct show, (lumi.isReplaceStep op); reflexivity. Qed.

(** The lines of a summary, operation by operation. *)
Lemma printSummary_lines (counts : gmap StepOp Z) (show plan : bool) :
  lumi.Lines (lumi.printSummary counts show plan) =
    flat_map (fun op =>
      if counted show op && (0 <? default 0 (counts !! op))%Z
      then [lumi.mkSummaryLine (Prefix op) (default 0 (counts !! op))
              (lumi.plural "resource" (default 0 (counts !! op)))
              (if plan then "to " else "") op (if plan then "" else "d")]
      else []) StepOps.
Proof.
  unfold lumi.printSummary. simpl.
  induction StepOps as [| op ops IH]; [reflexivity |].
  simpl. rewrite IH. f_equal.
  rewrite skip_not_counted. destruct (counted show op); reflexivity.
Qed.

Lemma foldr_add_acc (l : list Z) (a : Z) :
  foldr Z.add a l = foldr Z.add 0 l + a.
Proof. induction l as [| z l IH]; simpl; lia. Qed.

Lemma displayed_sum_line_counts (counts : gmap StepOp Z) (show plan : bool) :
  displayed_sum (lumi.printSummary counts show plan) =
    foldr Z.add 0 (line_count counts show <$> StepOps).
Proof.
  unfold displayed_sum. rewrite printSummary_lines.
  generalize StepOps as ops.
  induction ops as [| op ops IH]; [reflexivity |].
  cbn [flat_map fmap list_fmap foldr].
  rewrite fmap_app, foldr_app, foldr_add_acc.
  f_equal; [| exact IH].
  unfold line_count. destruct (counted show op && _); simpl; lia.
Qed.

Lemma line_counts_insert (counts : gmap StepOp Z) (show : bool)
    (i : StepOp) (x : Z) (ops : list StepOp) :
  NoDup ops ->
  counts !! i = None ->
  foldr Z.add 0 (line_count (<[i := x]> counts) show <$> ops) =
    foldr Z.add 0 (line_count counts show <$> ops)
    + (if bool_decide (i ∈ ops)
       then (if counted show i && (0 <? x)%Z then x else 0)
       else 0).
Proof.
  intros Hnodup Hfresh. induction Hnodup as [| op ops Hnotin Hnodup IH].
  - simpl. lia.
  - rewrite !fmap_cons. cbn [foldr]. rewrite IH.
    destruct (decide (i = op)) as [<- | Hne].
    + rewrite (bool_decide_eq_true_2 (i ∈ i :: ops)) by constructor.
      rewrite (bool_decide_eq_false_2 (i ∈ ops)) by assumption.
      unfold line_count. rewrite lookup_insert_eq, Hfresh. simpl.
      rewrite andb_false_r. lia.
    + unfold line_count at 1 3. rewrite lookup_insert_ne by assumption.
      destruct (decide (i ∈ ops)) as [Hin | Hout].
      * rewrite (bool_decide_eq_true_2 (i ∈ op :: ops))
          by (apply elem_of_cons; now right).
        rewrite (bool_decide_eq_true_2 (i ∈ ops)) by assumption. lia.
      * rewrite (bool_decide_eq_false_2 (i ∈ op :: ops))
          by (apply not_elem_of_cons; now split).
        rewrite (bool_decide_eq_false_2 (i ∈ ops)) by assumption. lia.
Qed.

Lemma line_counts_nonneg (counts : gmap StepOp Z) (show : bool)
    (ops : list StepOp) :
  0 <= foldr Z.add 0 (line_count counts show <$> ops).
Proof.
  induction ops as [| op ops IH]; [simpl; lia |].
  rewrite fmap_cons. cbn [foldr]. unfold line_count at 1.
  destruct (counted show op && _) eqn:Hshown; [| lia].
  apply andb_true_iff in Hshown as [_ Hpos]. lia.
Qed.

Lemma printSummary_total (show plan : bool) :
  NoDup StepOps ->
  forall counts : gmap StepOp Z,
    (forall op c,
       counts !! op = Some c ->
       0 <= c /\ (counted show op = true -> c <> 0 -> op ∈ StepOps)) ->
    lumi.Total (lumi.printSummary counts show plan) =
      goint.wrap (foldr Z.add 0 (line_count counts show <$> StepOps)).
Proof.
  intros Hnodup counts. unfold lumi.printSummary. simpl.
  apply (map_fold_weak_ind
           (fun total (m : gmap StepOp Z) =>
              (forall op c,
                 m !! op = Some c ->
                 0 <= c /\ (counted show op = true -> c <> 0 -> op ∈ StepOps)) ->
              total =
                goint.wrap (foldr Z.add 0 (line_count m show <$> StepOps)))).
  - intros _.
    assert (Hzero : foldr Z.add 0
              (line_count (∅ : gmap StepOp Z) show <$> StepOps) = 0).
    { generalize StepOps as ops.
      induction ops as [| op ops IH]; [reflexivity |].
      rewrite fmap_cons. cbn [foldr]. rewrite IH.
      unfold line_count. rewrite lookup_empty. simpl.
      now rewrite andb_false_r. }
    rewrite Hzero. reflexivity.
  - intros i x m total Hfresh IH Hgood.
    assert (Hm : forall op c,
               m !! op = Some c ->
               0 <= c /\ (counted show op = true -> c <> 0 -> op ∈ StepOps)).
    { intros op c Hop. apply Hgood.
      rewrite lookup_insert_ne; [assumption |]. congruence. }
    specialize (IH Hm). subst total.
    destruct (Hgood i x (lookup_insert_eq _ _ _)) as [Hx Hin].
    rewrite (line_counts_insert m show i x StepOps Hnodup Hfresh).
    rewrite skip_not_counted.
    destruct (counted show i) eqn:Hcounted; simpl.
    + unfold goint.add. rewrite wrap_add_wrap. f_equal.
      destruct (0 <? x)%Z eqn:Hpos.
      * rewrite bool_decide_eq_true_2; [reflexivity |].
        apply Hin; [reflexivity | lia].
      * assert (x = 0) as -> by lia. destruct (bool_decide _); lia.
    + destruct (bool_decide _); f_equal; lia.
Qed.

(** C8: the total that [printSummary] reports is the sum of the counts
    on the lines it prints, as the machine adds them up, and exactly that
    sum when it fits an [int].  Each line shows the count the map holds
    for its operation, and the lines for ReplaceCreate and ReplaceDelete
    are there, and counted, exactly when replace steps are to be shown.
    The counts are counts, that is non-negative, and the operations
    counted are among those [StepOps] enumerates, each once. *)
Theorem printSummary_total_is_sum (counts : gmap StepOp Z)
    (showReplaceSteps plan : bool) :
  NoDup StepOps ->
  (forall op c,
     counts !! op = Some c ->
     0 <= c /\
     (counted showReplaceSteps op = true -> c <> 0 -> op ∈ StepOps)) ->
  let s := lumi.printSummary counts showReplaceSteps plan in
  lumi.Total s = goint.wrap (displayed_sum s) /\
  (displayed_sum s < goint.half -> lumi.Total s = displayed_sum s) /\
  (forall l,
     l ∈ lumi.Lines s ->
     counts !! lumi.LineOp l = Some (lumi.LineCount l) /\
     0 < lumi.LineCount l /\
     (showReplaceSteps = false ->
      lumi.LineOp l <> OpReplaceCreate /\ lumi.LineOp l <> OpReplaceDelete)) /\
  (forall op c,
     counts !! op = Some c -> 0 < c -> counted showReplaceSteps op = true ->
     exists l, l ∈ lumi.Lines s /\ lumi.LineOp l = op /\ lumi.LineCount l = c).
Proof.
  intros Hnodup Hgood s.
  assert (Htotal : lumi.Total s = goint.wrap (displayed_sum s)).
  { unfold s. rewrite displayed_sum_line_counts.
    now apply printSummary_total. }
  split; [exact Htotal |]. split; [| split].
  - intros Hfits. rewrite Htotal. apply wrap_small. split; [| assumption].
    unfold s. rewrite displayed_sum_line_counts. apply line_counts_nonneg.
  - intros l Hl. unfold s in Hl. rewrite printSummary_lines in Hl.
    apply list_elem_of_In, in_flat_map in Hl as (op & _ & Hl).
    destruct (counted showReplaceSteps op) eqn:Hcounted; simpl in Hl;
      [| contradiction].
    destruct (0 <? default 0 (counts !! op))%Z eqn:Hpos; simpl in Hl;
      [| contradiction].
    destruct Hl as [<- | []]. simpl.
    destruct (counts !! op) as [c |] eqn:Hop; simpl in *; [| lia].
    split; [reflexivity |]. split; [lia |].
    intros ->. unfold counted, lumi.isReplaceStep in Hcounted. simpl in Hcounted.
    split; intros ->; simpl in Hcounted; discriminate.
  - intros op c Hop Hpos Hcounted.
    destruct (Hgood op c Hop) as [_ Hin].
    specialize (Hin Hcounted ltac:(lia)).
    eexists. split.
    + unfold s. rewrite printSummary_lines.
      apply list_elem_of_In, in_flat_map. exists op.
      split; [now apply list_elem_of_In |].
      rewrite Hcounted, Hop. simpl.
      replace (0 <? c)%Z with true by (symmetry; lia).
      simpl. left. reflexivity.
    + simpl. auto.
Qed.
End summary_specs.

(** * The properties at work on the concrete setting *)

Lemma InspectChange_always_reports_name_witness :
  exists resp,
    apigateway.AuthorizerProvider_InspectChange
      (H := fixture.properties) (H0 := fixture.map_authorizer)
      fixture.authorizer_ops
      (fixture.rename_request apigateway.AuthorizerToken)
    = Reply (Some resp) None /\
    In "name" (lumirpc.Replaces resp).
Proof.
  refine (proj2
    (proj1 (@InspectChange_always_reports_name fixture.properties
              fixture.map_authorizer fixture.map_alarm fixture.map_attachment)
       fixture.authorizer_ops
       (fixture.rename_request apigateway.AuthorizerToken)
       _ _ None _ _ None _ _ _ _ _) ["type"] _ _ _ _);
    reflexivity.
Defined.

Lemma Name_never_empty_witness :
  cloudwatch.AlarmProvider_Name
    (H := fixture.properties) (H0 := fixture.map_alarm)
    (fixture.name_request cloudwatch.AlarmToken)
  = Reply (Some (lumirpc.mkNameResponse "a")) None.
Proof.
  destruct (proj1 (proj2 (proj1
              (@Name_never_empty fixture.properties fixture.map_authorizer
                 fixture.map_alarm fixture.map_attachment)))
              (fixture.name_request cloudwatch.AlarmToken) _ _ eq_refl)
    as [Hcall _].
  destruct (Hcall eq_refl) as [_ Hname].
  apply Hname. discriminate.
Defined.

Lemma MaybeCorrupt_is_sticky_witness :
  exists prog' w',
    afterAll
      [mkCallback (mkStep OpCreate) StateOK None;
       mkCallback (mkStep OpUpdate) StateUnknown (Some (Foreign "timeout"));
       mkCallback (mkStep OpDelete) StateOK (Some (Foreign "busy"));
       mkCallback (mkStep OpCreate) StateOK None]
      (lumi.newProgress false) fixture.fresh = Done prog' w' /\
    lumi.MaybeCorrupt prog' = true.
Proof.
  destruct (MaybeCorrupt_is_sticky
              [mkCallback (mkStep OpCreate) StateOK None;
               mkCallback (mkStep OpUpdate) StateUnknown
                 (Some (Foreign "timeout"));
               mkCallback (mkStep OpDelete) StateOK (Some (Foreign "busy"));
               mkCallback (mkStep OpCreate) StateOK None]
              (lumi.newProgress false) fixture.fresh)
    as (_ & Hflag & Hreturns & _).
  destruct (Hreturns eq_refl) as (prog' & w' & Hrun).
  exists prog', w'. split; [exact Hrun |].
  rewrite (Hflag prog' w' Hrun). reflexivity.
Defined.

Lemma apply_saves_checkpoint_witness :
  exists w4,
    lumi.apply (H := fixture.collaborators)
      (fun _ _ => mret (Some fixture.failing_result))
      (lumi.mkEnvCmdInfo (Some fixture.prod_env) None None [])
      fixture.deploy_options fixture.deployed = Done tt w4 /\
    files (fs w4) !! fixture.prod_path
      = Some (fixture.bytes_of "prod,bucket").
Proof.
  refine (proj2
    (@apply_saves_checkpoint fixture.collaborators
       (fun _ _ => mret (Some fixture.failing_result))
       (lumi.mkEnvCmdInfo (Some fixture.prod_env) None None [])
       fixture.deploy_options fixture.failing_result
       fixture.deployed fixture.deployed fixture.deployed _ false
       _ (Some (Foreign "creation failed")) _ _ _ _ _ _)
    fixture.prod_env fixture.json _ _ _ _ _ _ _);
    try reflexivity.
  vm_compute. discriminate.
Defined.

Lemma saveEnv_refuses_existing_file_witness :
  exists w',
    lumi.saveEnv (H := fixture.collaborators)
      (Some fixture.prod_env) None "" false fixture.deployed
      = Done false w' /\
    fs w' = fs fixture.deployed /\
    files (fs w') !! fixture.prod_path = Some (fixture.bytes_of "prod") /\
    files (fs w') !! (fixture.prod_path +:+ ".bak") = None.
Proof.
  exact (@saveEnv_refuses_existing_file fixture.collaborators
           fixture.prod_env None "" fixture.deployed
           (fixture.bytes_of "prod") eq_refl eq_refl).
Defined.

(** C4 as first stated does not hold: when [os.Stat] fails on the
    existing file, the file is taken to be absent; it is moved to the
    backup name, the new checkpoint is written in its place, and
    [saveEnv] returns [true]. *)
Lemma saveEnv_refuses_existing_file_counterexample :
  files (fs fixture.unseen)
    !! resolved_path (H := fixture.collaborators) fixture.prod_env ""
    = Some (fixture.bytes_of "prod") /\
  (exists w',
     lumi.saveEnv (H := fixture.collaborators) (Some fixture.prod_env)
       (Some (fixture.snapshot ["bucket"])) "" false fixture.unseen
       = Done true w' /\
     files (fs w') !! fixture.prod_path
       = Some (fixture.bytes_of "prod,bucket") /\
     files (fs w') !! (fixture.prod_path +:+ ".bak")
       = Some (fixture.bytes_of "prod")) /\
  ~ (exists w',
       lumi.saveEnv (H := fixture.collaborators) (Some fixture.prod_env)
         (Some (fixture.snapshot ["bucket"])) "" false fixture.unseen
         = Done false w' /\
       fs w' = fs fixture.unseen).
Proof.
  assert (Hsave :
    lumi.saveEnv (H := fixture.collaborators) (Some fixture.prod_env)
      (Some (fixture.snapshot ["bucket"])) "" false fixture.unseen =
    Done true
      (mkWorld
         (saved (H := fixture.collaborators) fixture.prod_path
            (fixture.bytes_of "prod,bucket") (fs fixture.unseen)) [])).
  { apply (@saveEnv_succeeds fixture.collaborators fixture.prod_env
             (Some (fixture.snapshot ["bucket"])) "" false fixture.unseen
             fixture.json); try reflexivity.
    - discriminate.
    - right. vm_compute. eauto. }
  split; [reflexivity |]. split.
  - eexists. split; [exact Hsave |]. vm_compute. split; reflexivity.
  - intros (w' & Hfalse & _). rewrite Hsave in Hfalse. discriminate.
Qed.

Lemma saveEnv_validates_before_writing_witness :
  (exists ext,
     lumi.saveEnv (H := fixture.collaborators)
       (Some fixture.prod_env) None "state.txt" true fixture.deployed =
       Done false
         (mkWorld (fs fixture.deployed)
            [diag.Error errors.ErrorIllegalMarkupExtension
               [diag.AString ext]])) /\
  lumi.saveEnv (H := fixture.collaborators)
    (Some fixture.prod_env) (Some (fixture.snapshot [""])) "" true
    fixture.deployed =
    Done false
      (mkWorld (fs fixture.deployed)
         [diag.Error errors.ErrorIO
            [diag.AError (Foreign "resource without a name")]]).
Proof.
  split.
  - exact (proj1
      (@saveEnv_validates_before_writing fixture.collaborators
         fixture.prod_env None "state.txt" true fixture.deployed) eq_refl).
  - exact (proj1 (proj2
      (@saveEnv_validates_before_writing fixture.collaborators
         fixture.prod_env (Some (fixture.snapshot [""])) "" true
         fixture.deployed))
      fixture.json [] (Foreign "resource without a name") eq_refl eq_refl).
Defined.

Lemma saveEnv_backs_up_then_writes_witness :
  (exists w',
     lumi.saveEnv (H := fixture.collaborators)
       (Some fixture.prod_env) (Some (fixture.snapshot ["bucket"])) "" true
       fixture.deployed = Done true w' /\
     files (fs w') !! fixture.prod_path
       = Some (fixture.bytes_of "prod,bucket") /\
     files (fs w') !! (fixture.prod_path +:+ ".bak")
       = Some (fixture.bytes_of "prod")) /\
  (exists w',
     lumi.saveEnv (H := fixture.collaborators)
       (Some fixture.prod_env) None "" false fixture.fresh = Done true w' /\
     files (fs w') = {[fixture.prod_path := fixture.bytes_of "prod"]}).
Proof.
  split.
  - pose proof (@saveEnv_backs_up_then_writes fixture.collaborators
        fixture.prod_env (Some (fixture.snapshot ["bucket"])) "" true
        fixture.deployed) as [Hfacts Hsucceeds].
    pose proof (Hsucceeds fixture.json (fixture.bytes_of "prod,bucket")
        eq_refl eq_refl ltac:(discriminate) (or_introl eq_refl)
        eq_refl eq_refl) as Hsave.
    eexists. split; [exact Hsave |].
    destruct (Hfacts _ Hsave)
      as (m & data & Hdet & Henc & _ & Hnew & _ & Hbak & _).
    assert (m = fixture.json) as ->
      by (vm_compute in Hdet; now injection Hdet as <-).
    assert (data = fixture.bytes_of "prod,bucket") as ->
      by (vm_compute in Henc; now injection Henc as <-).
    split.
    + exact Hnew.
    + apply (Hbak (fixture.bytes_of "prod")); reflexivity.
  - pose proof (@saveEnv_backs_up_then_writes fixture.collaborators
        fixture.prod_env None "" false fixture.fresh) as [Hfacts Hsucceeds].
    assert (Hstat : is_Some (os.stat (fs fixture.fresh) fixture.prod_path))
      by (vm_compute; eauto).
    pose proof (Hsucceeds fixture.json (fixture.bytes_of "prod")
        eq_refl eq_refl ltac:(discriminate) (or_intror Hstat)
        eq_refl eq_refl) as Hsave.
    eexists. split; [exact Hsave |].
    destruct (Hfacts _ Hsave)
      as (m & data & Hdet & Henc & _ & _ & _ & _ & Hplain).
    assert (m = fixture.json) as ->
      by (vm_compute in Hdet; now injection Hdet as <-).
    assert (data = fixture.bytes_of "prod") as ->
      by (vm_compute in Henc; now injection Henc as <-).
    exact (Hplain (or_introl eq_refl)).
Defined.

Lemma readEnv_reports_failures_witness :
  lumi.readEnv (H := fixture.collaborators) "prod" fixture.fresh =
    read_failed
      (diag.Error errors.ErrorInvalidEnvName [diag.AString "prod"])
      fixture.fresh /\
  lumi.readEnv (H := fixture.collaborators) "prod" fixture.deployed =
    Done (Some (fixture.mkCheckpoint "prod" []),
          Some fixture.prod_env, Some (fixture.snapshot []))
      fixture.deployed.
Proof.
  split.
  - exact (proj1 (proj2
      (proj2
         (@readEnv_reports_failures fixture.collaborators "prod"
            fixture.fresh ltac:(discriminate))
         fixture.json ".json" eq_refl)) eq_refl eq_refl).
  - exact (proj2 (proj2
      (proj2 (proj2
         (proj2
            (@readEnv_reports_failures fixture.collaborators "prod"
               fixture.deployed ltac:(discriminate))
            fixture.json ".json" eq_refl))
         (fixture.bytes_of "prod") eq_refl))
      (fixture.mkCheckpoint "prod" [])
      {["name" := mapper.VString "prod"]} eq_refl eq_refl).
Defined.

Lemma removeEnv_only_renames_witness :
  lumi.removeEnv (H := fixture.collaborators)
    (Some fixture.prod_env) fixture.deployed =
    Done tt
      (mkWorld (backed_up fixture.prod_path
                  (fs fixture.deployed)) []) /\
  files (backed_up fixture.prod_path
           (fs fixture.deployed)) !! (fixture.prod_path +:+ ".bak")
    = Some (fixture.bytes_of "prod").
Proof.
  destruct (@removeEnv_only_renames fixture.collaborators fixture.prod_env
              fixture.deployed) as (_ & _ & _ & _ & Hbytes).
  destruct (Hbytes (fixture.bytes_of "prod") eq_refl) as [_ Hrenamed].
  destruct (Hrenamed ltac:(discriminate) eq_refl) as (Hcall & Hbak & _).
  split; [exact Hcall |].
  rewrite <- Hbak. rewrite Hcall. reflexivity.
Defined.

Lemma fixture_StepOps_NoDup : NoDup (@StepOps fixture.collaborators).
Proof. apply (bool_decide_unpack _). vm_compute. exact I. Qed.

Lemma fixture_counts_good (show : bool) (op : StepOp) (c : Z) :
  fixture.counts !! op = Some c ->
  0 <= c /\
  (counted show op = true -> c <> 0 -> op ∈ @StepOps fixture.collaborators).
Proof.
  intros Hop. split.
  - destruct op; vm_compute in Hop; try discriminate;
      injection Hop as <-; lia.
  - intros _ _. apply list_elem_of_In. destruct op; simpl; tauto.
Qed.

Lemma printSummary_total_is_sum_witness :
  lumi.Total
    (lumi.printSummary (H := fixture.collaborators) fixture.counts false false)
    = 3 /\
  displayed_sum
    (lumi.printSummary (H := fixture.collaborators) fixture.counts false false)
    = 3 /\
  lumi.Total
    (lumi.printSummary (H := fixture.collaborators) fixture.counts true true)
    = 5.
Proof.
  destruct (@printSummary_total_is_sum fixture.collaborators fixture.counts
              false false fixture_StepOps_NoDup (fixture_counts_good false))
    as (_ & Hhidden & _).
  destruct (@printSummary_total_is_sum fixture.collaborators fixture.counts
              true true fixture_StepOps_NoDup (fixture_counts_good true))
    as (_ & Hshown & _).
  split; [| split].
  - rewrite Hhidden; reflexivity.
  - reflexivity.
  - rewrite Hshown; reflexivity.
Defined.

(** ** Runs of the model *)

Example Ext_of_env_path : filepath.Ext ".lumi/env/prod.json" = ".json".
Proof. reflexivity. Qed.

Example Ext_stops_at_separator : filepath.Ext "backup.d/prod" = "".
Proof. reflexivity. Qed.

Example Ext_of_dotfile : filepath.Ext ".lumi" = ".lumi".
Proof. reflexivity. Qed.

(** The parents [MkdirAll] goes through. *)
Example ancestors_of_env_dir :
  os.ancestors ".lumi/env" = [".lumi/env"; ".lumi"].
Proof. reflexivity. Qed.

Example ancestors_of_rooted_path :
  os.ancestors "/var/lumi/" = ["/var/lumi/"; "/var"].
Proof. reflexivity. Qed.

Example ancestors_of_one_element : os.ancestors "." = ["."].
Proof. reflexivity. Qed.

Example plural_of_one : lumi.plural "change" 1 = "change".
Proof. reflexivity. Qed.

Example plural_of_none : lumi.plural "resource" 0 = "resources".
Proof. reflexivity. Qed.

Example incr_wraps : goint.incr (2 ^ 63 - 1) = - 2 ^ 63.
Proof. reflexivity. Qed.

(** Creating an environment writes its first checkpoint; creating it
    again is refused and changes nothing. *)
Example createEnv_twice :
  match lumi.createEnv (H := fixture.collaborators) "prod" fixture.fresh with
  | Done true w1 =>
      files (fs w1) = {[fixture.prod_path := fixture.bytes_of "prod"]} /\
      match lumi.createEnv (H := fixture.collaborators) "prod" w1 with
      | Done false w2 => fs w2 = fs w1
      | _ => False
      end
  | _ => False
  end.
Proof. vm_compute. split; reflexivity. Qed.

(** The first save of an environment makes the directory of its file
    and the parent of that directory. *)
Example first_save_makes_parents :
  match
    lumi.saveEnv (H := fixture.collaborators) (Some fixture.prod_env) None
      "" false fixture.fresh
  with
  | Done true w1 =>
      bool_decide (dirs (fs w1) = {[".lumi/env"; ".lumi"]}) = true
  | _ => False
  end.
Proof. vm_compute. reflexivity. Qed.

(** A directory that cannot be made stops the save, with the parents
    made so far left behind. *)
Example failed_mkdir_leaves_parents :
  let f :=
    mkFS ∅ ∅
         (fun call =>
            match call with
            | SysMkdir ".lumi/env" => Some EACCES
            | _ => None
            end)
         (fun _ => None) in
  match
    lumi.saveEnv (H := fixture.collaborators) (Some fixture.prod_env)
      (Some (fixture.snapshot ["bucket"])) "" false (mkWorld f [])
  with
  | Done false w1 =>
      bool_decide (dirs (fs w1) = {[".lumi"]}) = true /\
      files (fs w1) !! fixture.prod_path = None
  | _ => False
  end.
Proof. vm_compute. split; reflexivity. Qed.

(** What is saved can be read back. *)
Example save_then_read :
  match
    lumi.saveEnv (H := fixture.collaborators) (Some fixture.prod_env)
      (Some (fixture.snapshot ["bucket"; "table"])) "" true fixture.deployed
  with
  | Done true w1 =>
      lumi.readEnv (H := fixture.collaborators) "prod" w1 =
        Done (Some (fixture.mkCheckpoint "prod" ["bucket"; "table"]),
              Some fixture.prod_env,
              Some (fixture.snapshot ["bucket"; "table"])) w1
  | _ => False
  end.
Proof. vm_compute. reflexivity. Qed.

(** A write that fails half way leaves the torn file and the backup. *)
Example torn_write_keeps_backup :
  let f :=
    mkFS {[fixture.prod_path := fixture.bytes_of "prod"]} ∅
         (fun call =>
            match call with
            | SysWriteFile _ => Some ENOSPC
            | _ => None
            end)
         (fun _ => Some (fixture.bytes_of "pro")) in
  match
    lumi.saveEnv (H := fixture.collaborators) (Some fixture.prod_env)
      (Some (fixture.snapshot ["bucket"])) "" true (mkWorld f [])
  with
  | Done false w1 =>
      files (fs w1) !! fixture.prod_path = Some (fixture.bytes_of "pro") /\
      files (fs w1) !! (fixture.prod_path +:+ ".bak")
        = Some (fixture.bytes_of "prod")
  | _ => False
  end.
Proof. vm_compute. split; reflexivity. Qed.

(** The summary of the sample run, with the replacement steps hidden. *)
Example summary_of_counts :
  lumi.printSummary (H := fixture.collaborators) fixture.counts false false =
    {| lumi.Total := 3;
       lumi.Planned := "";
       lumi.Noun := "changes";
       lumi.Colon := ":";
       lumi.Lines :=
         [lumi.mkSummaryLine "+ " 2 "resources" "" OpCreate "d";
          lumi.mkSummaryLine "-+" 1 "resource" "" OpReplace "d"] |}.
Proof. reflexivity. Qed.

(** A decoding failure of the properties is what a [Name] call returns. *)
Example Name_without_properties :
  ec2.VPCGatewayAttachmentProvider_Name
    (H := fixture.properties) (H0 := fixture.map_attachment)
    (lumirpc.mkNameRequest ec2.VPCGatewayAttachmentToken None ∅)
  = Reply None (Some (DecodeErr ["name: missing required field"])).
Proof. reflexivity. Qed.

(** An unknown name has its own message. *)
Example Name_unknown :
  apigateway.AuthorizerProvider_Name
    (H := fixture.properties) (H0 := fixture.map_authorizer)
    (lumirpc.mkNameRequest apigateway.AuthorizerToken
       (Some {["name" := mapper.VString ""]}) {["name" := true]})
  = Reply None
      (Some (ErrorString
               "Name property cannot be computed from unknown outputs")).
Proof. reflexivity. Qed.

(** * Further properties of the progress tracker and the summary *)

Section tally_specs.

Lemma wrap_wrap_add (a b : Z) :
  goint.wrap (goint.wrap a + b) = goint.wrap (a + b).
Proof.
  unfold goint.wrap.
  replace ((a + goint.half) mod goint.modulus - goint.half + b + goint.half)
    with ((a + goint.half) mod goint.modulus + b) by lia.
  rewrite Zplus_mod_idemp_l. do 2 f_equal. lia.
Qed.

Lemma wrap_in_range (a : Z) : - goint.half <= a < goint.half -> goint.wrap a = a.
Proof.
  intros Ha. unfold goint.wrap.
  rewrite Z.mod_small; [lia |].
  unfold goint.modulus, goint.half in *. lia.
Qed.

Lemma occurrences_cons (op x : StepOp) (ops : list StepOp) :
  occurrences op (x :: ops) =
    (if bool_decide (x = op) then 1 else 0) + occurrences op ops.
Proof.
  unfold occurrences. rewrite filter_cons.
  destruct (decide (x = op)) as [-> | Hne].
  - rewrite bool_decide_eq_true_2 by reflexivity. simpl length. lia.
  - rewrite bool_decide_eq_false_2 by assumption. lia.
Qed.

Lemma occurrences_nonneg (op : StepOp) (ops : list StepOp) :
  0 <= occurrences op ops <= Z.of_nat (length ops).
Proof.
  unfold occurrences. split; [lia |].
  apply inj_le, length_filter.
Qed.

(** A tally holds, for each operation, what was there plus its
    occurrences, as the machine counts. *)
Lemma tally_from_lookup (ops : list StepOp) :
  forall (m : gmap StepOp Z) (op : StepOp),
    tally_from m ops !! op =
      if (occurrences op ops =? 0)%Z then m !! op
      else Some (goint.wrap (default 0 (m !! op) + occurrences op ops)).
Proof.
  induction ops as [| x ops IH]; intros m op.
  - reflexivity.
  - unfold tally_from in *. simpl foldl. rewrite IH.
    rewrite occurrences_cons.
    pose proof (occurrences_nonneg op ops) as [Hocc _].
    destruct (decide (x = op)) as [-> | Hne].
    + rewrite bool_decide_eq_true_2 by reflexivity.
      rewrite lookup_insert_eq. simpl default.
      destruct (occurrences op ops =? 0)%Z eqn:Hzero.
      * apply Z.eqb_eq in Hzero. rewrite Hzero.
        replace (1 + 0 =? 0)%Z with false by (symmetry; lia).
        unfold goint.incr, goint.add. reflexivity.
      * replace (1 + occurrences op ops =? 0)%Z with false
          by (symmetry; lia).
        unfold goint.incr, goint.add. rewrite wrap_wrap_add.
        do 2 f_equal. lia.
    + rewrite bool_decide_eq_false_2 by assumption.
      rewrite lookup_insert_ne by assumption. reflexivity.
Qed.

Lemma After_counters (prog prog' : lumi.applyProgress) (cb : Callback)
    (w w' : World) :
  lumi.After prog (cb_step cb) (cb_state cb) (cb_err cb) w = Done prog' w' ->
  lumi.Steps prog' =
    (if succeeded cb then goint.incr (lumi.Steps prog) else lumi.Steps prog) /\
  lumi.Ops prog' =
    (if succeeded cb then tally_from (lumi.Ops prog) [Op (cb_step cb)]
     else lumi.Ops prog) /\
  lumi.ProgressSummary prog' = lumi.ProgressSummary prog /\
  fs w' = fs w /\
  sink w' = (sink w ++ failure_reports [cb])%list.
Proof.
  rewrite After_outcome. unfold succeeded, failure_reports. simpl.
  destruct (cb_err cb) as [e |]; simpl.
  - destruct (cb_state cb); intros [= <- <-]; simpl; auto.
  - intros [= <- <-]. simpl. rewrite app_nil_r. auto.
Qed.

Lemma afterAll_counters (cbs : list Callback) :
  forall (prog prog' : lumi.applyProgress) (w w' : World),
    afterAll cbs prog w = Done prog' w' ->
    lumi.Steps prog' =
      goint.wrap (lumi.Steps prog + Z.of_nat (length (applied_ops cbs))) \/
    applied_ops cbs = [] /\ lumi.Steps prog' = lumi.Steps prog.
Proof.
  induction cbs as [| cb cbs IH]; intros prog prog' w w' Hrun.
  - injection Hrun as <- <-. right. auto.
  - simpl in Hrun. unfold mbind, M_bind in Hrun.
    destruct (lumi.After prog (cb_step cb) (cb_state cb) (cb_err cb) w)
      as [prog1 w1 | msg w1] eqn:Hstep; [| discriminate].
    apply After_counters in Hstep as (Hsteps & _).
    unfold applied_ops in *. rewrite filter_cons.
    destruct (succeeded cb) eqn:Hok.
    + rewrite decide_True by reflexivity. rewrite fmap_cons. left.
      destruct (IH _ _ _ _ Hrun) as [Hrest | [Hnil Hrest]].
      * rewrite Hrest, Hsteps. unfold goint.incr, goint.add.
        rewrite wrap_wrap_add. f_equal. simpl length. lia.
      * rewrite Hnil, Hrest, Hsteps. unfold goint.incr, goint.add.
        f_equal.
    + rewrite decide_False by discriminate.
      rewrite <- Hsteps. eapply IH. exact Hrun.
Qed.

Lemma afterAll_ops (cbs : list Callback) :
  forall (prog prog' : lumi.applyProgress) (w w' : World),
    afterAll cbs prog w = Done prog' w' ->
    lumi.Ops prog' = tally_from (lumi.Ops prog) (applied_ops cbs) /\
    lumi.ProgressSummary prog' = lumi.ProgressSummary prog.
Proof.
  induction cbs as [| cb cbs IH]; intros prog prog' w w' Hrun.
  - injection Hrun as <- <-. auto.
  - simpl in Hrun. unfold mbind, M_bind in Hrun.
    destruct (lumi.After prog (cb_step cb) (cb_state cb) (cb_err cb) w)
      as [prog1 w1 | msg w1] eqn:Hstep; [| discriminate].
    apply After_counters in Hstep as (_ & Hops & Hsummary & _).
    destruct (IH _ _ _ _ Hrun) as [Hrest Hsum].
    rewrite Hrest, Hsum, Hops, Hsummary. split; [| reflexivity].
    unfold applied_ops. rewrite filter_cons.
    destruct (succeeded cb).
    + rewrite decide_True by reflexivity. reflexivity.
    + rewrite decide_False by discriminate. reflexivity.
Qed.

Lemma afterAll_world (cbs : list Callback) :
  forall (prog : lumi.applyProgress) (w : World),
    fs (world_of (afterAll cbs prog w)) = fs w /\
    forall prog' w',
      afterAll cbs prog w = Done prog' w' ->
      sink w' = (sink w ++ failure_reports cbs)%list.
Proof.
  induction cbs as [| cb cbs IH]; intros prog w.
  - simpl. split; [reflexivity |]. intros prog' w' [= <- <-].
    now rewrite app_nil_r.
  - simpl. unfold mbind, M_bind.
    destruct (lumi.After prog (cb_step cb) (cb_state cb) (cb_err cb) w)
      as [prog1 w1 | msg w1] eqn:Hstep.
    + apply After_counters in Hstep as (_ & _ & _ & Hfs & Hsink).
      destruct (IH prog1 w1) as [Hfs' Hsink']. split.
      * now rewrite Hfs'.
      * intros prog' w' Hrun. rewrite (Hsink' _ _ Hrun), Hsink.
        rewrite <- app_assoc. f_equal.
        unfold failure_reports. simpl. now rewrite app_nil_r.
    + split; [| discriminate]. simpl.
      rewrite After_outcome in Hstep.
      destruct (cb_err cb); [| discriminate].
      destruct (cb_state cb); try discriminate.
      now injection Hstep as <- <-.
Qed.

(** X1: after any run of [After] callbacks on a fresh tracker, [Steps]
    is the number of callbacks that reported success and [Ops] holds, for
    each operation, the number of successful callbacks with that
    operation (no entry when there is none), both as the machine counts;
    callbacks that report a failure are not counted. *)
Theorem tracker_counts_successes (cbs : list Callback) (summary : bool)
    (w w' : World) (prog' : lumi.applyProgress) :
  afterAll cbs (lumi.newProgress summary) w = Done prog' w' ->
  lumi.Steps prog' = goint.wrap (Z.of_nat (length (applied_ops cbs))) /\
  (forall op,
     lumi.Ops prog' !! op =
       if (occurrences op (applied_ops cbs) =? 0)%Z then None
       else Some (goint.wrap (occurrences op (applied_ops cbs)))) /\
  (Z.of_nat (length cbs) < goint.half ->
   lumi.Steps prog' = Z.of_nat (length (applied_ops cbs)) /\
   forall op,
     default 0 (lumi.Ops prog' !! op) = occurrences op (applied_ops cbs)).
Proof.
  intros Hrun.
  assert (Hsteps :
    lumi.Steps prog' = goint.wrap (Z.of_nat (length (applied_ops cbs)))).
  { destruct (afterAll_counters cbs _ _ _ _ Hrun) as [Hs | [Hnil Hs]].
    - exact Hs.
    - rewrite Hs, Hnil. reflexivity. }
  assert (Hops : forall op,
     lumi.Ops prog' !! op =
       if (occurrences op (applied_ops cbs) =? 0)%Z then None
       else Some (goint.wrap (occurrences op (applied_ops cbs)))).
  { intros op. destruct (afterAll_ops cbs _ _ _ _ Hrun) as [-> _].
    rewrite tally_from_lookup. simpl. rewrite lookup_empty. reflexivity. }
  split; [exact Hsteps |]. split; [exact Hops |].
  intros Hsmall.
  assert (Hlen : Z.of_nat (length (applied_ops cbs)) <= Z.of_nat (length cbs)).
  { unfold applied_ops. rewrite length_fmap. apply inj_le, length_filter. }
  split.
  - rewrite Hsteps. apply wrap_in_range. unfold goint.half in *. lia.
  - intros op. rewrite Hops.
    pose proof (occurrences_nonneg op (applied_ops cbs)) as [Hlo Hhi].
    destruct (occurrences op (applied_ops cbs) =? 0)%Z eqn:Hzero.
    + apply Z.eqb_eq in Hzero. now rewrite Hzero.
    + simpl. apply wrap_in_range. unfold goint.half in *. lia.
Qed.

(** X2: the progress tracker never touches the file system, and a run of
    [After] callbacks that returns has put exactly one
    plan-apply-failed diagnostic on the sink for each callback that
    reported a failure, in the order of the callbacks; so the sink still
    reports success afterwards exactly if it did before and no callback
    failed. *)
Theorem tracker_reports_each_failure (cbs : list Callback)
    (prog : lumi.applyProgress) (w : World) :
  fs (world_of (afterAll cbs prog w)) = fs w /\
  forall prog' w',
    afterAll cbs prog w = Done prog' w' ->
    sink w' = (sink w ++ failure_reports cbs)%list /\
    diag.Success (sink w') =
      diag.Success (sink w) && forallb succeeded cbs.
Proof.
  destruct (afterAll_world cbs prog w) as [Hfs Hsink].
  split; [exact Hfs |].
  intros prog' w' Hrun. specialize (Hsink _ _ Hrun).
  split; [exact Hsink |].
  rewrite Hsink. unfold diag.Success. rewrite existsb_app, negb_orb.
  f_equal. clear. induction cbs as [| cb cbs IH]; [reflexivity |].
  unfold failure_reports in *. simpl. rewrite existsb_app, negb_orb, IH.
  f_equal. unfold succeeded. destruct (cb_err cb); reflexivity.
Qed.
End tally_specs.

Section summary_of_tally.
Context `{Collaborators}.

Lemma sum_add {A} (f g : A -> Z) (l : list A) :
  foldr Z.add 0 ((fun a => f a + g a) <$> l) =
    foldr Z.add 0 (f <$> l) + foldr Z.add 0 (g <$> l).
Proof.
  induction l as [| a l IH]; [reflexivity |].
  rewrite !fmap_cons. cbn [foldr]. rewrite IH. lia.
Qed.

Lemma sum_ext {A} (f g : A -> Z) (l : list A) :
  (forall a, a ∈ l -> f a = g a) ->
  foldr Z.add 0 (f <$> l) = foldr Z.add 0 (g <$> l).
Proof.
  induction l as [| a l IH]; intros Hfg; [reflexivity |].
  rewrite !fmap_cons. cbn [foldr].
  rewrite Hfg by (apply elem_of_cons; now left).
  rewrite IH; [reflexivity |].
  intros b Hb. apply Hfg, elem_of_cons. now right.
Qed.

Lemma sum_indicator (x : StepOp) (c : Z) (l : list StepOp) :
  NoDup l ->
  foldr Z.add 0 ((fun op => if bool_decide (x = op) then c else 0) <$> l) =
    if bool_decide (x ∈ l) then c else 0.
Proof.
  intros Hnodup. induction Hnodup as [| op l Hnotin Hnodup IH].
  - reflexivity.
  - rewrite fmap_cons. cbn [foldr]. rewrite IH.
    destruct (decide (x = op)) as [-> | Hne].
    + rewrite bool_decide_eq_true_2 by reflexivity.
      rewrite (bool_decide_eq_false_2 (op ∈ l)) by assumption.
      rewrite (bool_decide_eq_true_2 (op ∈ op :: l)) by constructor. lia.
    + rewrite bool_decide_eq_false_2 by assumption.
      destruct (decide (x ∈ l)) as [Hin | Hout].
      * rewrite (bool_decide_eq_true_2 (x ∈ l)) by assumption.
        rewrite (bool_decide_eq_true_2 (x ∈ op :: l))
          by (apply elem_of_cons; now right). lia.
      * rewrite (bool_decide_eq_false_2 (x ∈ l)) by assumption.
        rewrite (bool_decide_eq_false_2 (x ∈ op :: l))
          by (apply not_elem_of_cons; now split). lia.
Qed.

Lemma occurrences_elem (op : StepOp) (ops : list StepOp) :
  0 < occurrences op ops -> op ∈ ops.
Proof.
  induction ops as [| x ops IH]; [unfold occurrences; simpl; lia |].
  rewrite occurrences_cons. destruct (decide (x = op)) as [-> | Hne].
  - intros _. constructor.
  - rewrite bool_decide_eq_false_2 by assumption. intros Hpos.
    apply elem_of_cons. right. apply IH. lia.
Qed.

(** Over a list of operations, the shown occurrences add up to the
    number of shown operations. *)
Lemma sum_occurrences (show : bool) (ops : list StepOp) :
  NoDup StepOps ->
  (forall op, op ∈ ops -> counted show op = true -> op ∈ StepOps) ->
  foldr Z.add 0
    ((fun op => if counted show op then occurrences op ops else 0)
       <$> StepOps) =
    Z.of_nat (length (filter (fun op => counted show op = true) ops)).
Proof.
  intros Hnodup. induction ops as [| x ops IH]; intros Hin.
  - rewrite (sum_ext _ (fun _ => 0 + 0)).
    + rewrite sum_add. simpl. generalize StepOps as l.
      induction l as [| a l IHl]; [reflexivity |].
      rewrite fmap_cons. cbn [foldr]. lia.
    + intros op _. destruct (counted show op); reflexivity.
  - rewrite (sum_ext _
      (fun op => (if bool_decide (x = op)
                  then (if counted show x then 1 else 0) else 0)
                 + (if counted show op then occurrences op ops else 0))).
    + rewrite sum_add, sum_indicator by assumption.
      rewrite IH by (intros op Hop; apply Hin, elem_of_cons; now right).
      rewrite filter_cons.
      destruct (counted show x) eqn:Hshown.
      * rewrite decide_True by reflexivity.
        rewrite bool_decide_eq_true_2
          by (apply Hin; [constructor | assumption]).
        simpl length. lia.
      * rewrite decide_False by discriminate.
        destruct (bool_decide _); lia.
    + intros op _. rewrite occurrences_cons.
      destruct (decide (x = op)) as [-> | Hne].
      * rewrite !bool_decide_eq_true_2 by reflexivity.
        destruct (counted show op); lia.
      * rewrite !bool_decide_eq_false_2 by assumption.
        destruct (counted show op); lia.
Qed.

Lemma tally_lookup_small (ops : list StepOp) (op : StepOp) :
  Z.of_nat (length ops) < goint.half ->
  default 0 (tally ops !! op) = occurrences op ops /\
  (forall c, tally ops !! op = Some c -> c = occurrences op ops /\ 0 < c).
Proof.
  intros Hsmall. unfold tally. rewrite tally_from_lookup, lookup_empty.
  pose proof (occurrences_nonneg op ops) as [Hlo Hhi].
  destruct (occurrences op ops =? 0)%Z eqn:Hzero.
  - apply Z.eqb_eq in Hzero. rewrite Hzero. split; [reflexivity |].
    discriminate.
  - apply Z.eqb_neq in Hzero. simpl.
    rewrite wrap_in_range by (unfold goint.half in *; lia).
    split; [reflexivity |]. intros c [= <-]. lia.
Qed.

(** The summary of a tally: its total is the number of shown operations
    tallied. *)
Lemma printSummary_tally (ops : list StepOp) (show plan : bool) :
  NoDup StepOps ->
  (forall op, op ∈ ops -> counted show op = true -> op ∈ StepOps) ->
  Z.of_nat (length ops) < goint.half ->
  lumi.Total (lumi.printSummary (tally ops) show plan) =
    Z.of_nat (length (filter (fun op => counted show op = true) ops)) /\
  displayed_sum (lumi.printSummary (tally ops) show plan) =
    Z.of_nat (length (filter (fun op => counted show op = true) ops)).
Proof.
  intros Hnodup Hin Hsmall.
  assert (Hsum :
    foldr Z.add 0 (line_count (tally ops) show <$> StepOps) =
      Z.of_nat (length (filter (fun op => counted show op = true) ops))).
  { rewrite <- sum_occurrences by assumption.
    apply sum_ext. intros op _. unfold line_count.
    destruct (tally_lookup_small ops op Hsmall) as [-> _].
    pose proof (occurrences_nonneg op ops) as [Hlo _].
    destruct (counted show op); simpl; [| reflexivity].
    destruct (0 <? occurrences op ops)%Z eqn:Hpos; [reflexivity |].
    apply Z.ltb_ge in Hpos. lia. }
  split.
  - rewrite printSummary_total; [| assumption |].
    + rewrite Hsum. apply wrap_in_range.
      pose proof (length_filter (fun op => counted show op = true) ops).
      unfold goint.half in *. lia.
    + intros op c Hop.
      destruct (tally_lookup_small ops op Hsmall) as [_ Hc].
      destruct (Hc c Hop) as [-> Hpos]. split; [lia |].
      intros Hshown _. apply Hin; [| assumption].
      now apply occurrences_elem.
  - rewrite displayed_sum_line_counts. exact Hsum.
Qed.

Lemma filter_all_shown (l : list StepOp) :
  filter (fun op => counted true op = true) l = l.
Proof.
  induction l as [| a l IHl]; [reflexivity |].
  rewrite filter_cons_True; [now rewrite IHl | reflexivity].
Qed.

Lemma step_counts_tally (l : list Step) (m : gmap StepOp Z) :
  foldl (fun (counts : gmap StepOp Z) step =>
           <[Op step := goint.incr (default 0 (counts !! Op step))]> counts)
        m l
  = tally_from m (Op <$> l).
Proof.
  revert m. induction l as [| st l IH]; intros m; [reflexivity |].
  rewrite fmap_cons. simpl. apply IH.
Qed.

(** X3: [printPlan] issues the "nothing to update" message and no
    summary for an empty plan; otherwise its summary totals the steps of
    the plan, leaving out the ReplaceCreate and ReplaceDelete steps unless
    replace steps are to be shown, and the counts on its lines add up to
    that total.  The operations shown are among those of [StepOps()],
    which lists none twice, and the plan has fewer than 2^63 steps. *)
Theorem printPlan_counts_steps (result : lumi.planResult)
    (opts : lumi.applyOptions) (w : World) :
  let steps := Op <$> lumi.PlanSteps (lumi.ThePlan result) in
  let show := lumi.ShowReplaceSteps opts in
  NoDup StepOps ->
  (forall op, op ∈ steps -> counted show op = true -> op ∈ StepOps) ->
  Z.of_nat (length steps) < goint.half ->
  (lumi.Empty (lumi.ThePlan result) = true ->
   lumi.printPlan result opts w =
     Done None
       (mkWorld (fs w)
          (sink w ++ [diag.Info "no resources need to be updated"]))) /\
  (lumi.Empty (lumi.ThePlan result) = false ->
   exists s,
     lumi.printPlan result opts w = Done (Some s) w /\
     lumi.Total s =
       Z.of_nat (length (filter (fun op => counted show op = true) steps)) /\
     displayed_sum s = lumi.Total s /\
     (show = true -> lumi.Total s = Z.of_nat (length steps))).
Proof.
  intros steps show Hnodup Hin Hsmall. split.
  - intros Hempty. unfold lumi.printPlan, lumi.checkEmpty.
    rewrite Hempty. reflexivity.
  - intros Hempty. unfold lumi.printPlan, lumi.checkEmpty.
    rewrite Hempty. unfold mbind, M_bind, mret, M_ret. simpl.
    eexists. split; [reflexivity |].
    assert (Hcounts :
      foldl (fun (counts : gmap StepOp Z) step =>
               <[Op step := goint.incr (default 0 (counts !! Op step))]>
                 counts) ∅ (lumi.PlanSteps (lumi.ThePlan result))
      = tally steps).
    { apply step_counts_tally. }
    rewrite Hcounts.
    destruct (printSummary_tally steps show true Hnodup Hin Hsmall)
      as [Htotal Hsum].
    fold show. rewrite Htotal, Hsum. repeat split.
    intros Hshow. rewrite Hshow. now rewrite filter_all_shown.
Qed.

(** X4: after a run of [After] callbacks on a fresh tracker, the summary
    that [apply] prints of the tracker's [Ops] totals the successful
    steps it shows; with replace steps shown, that total is the tracker's
    [Steps].  The operations shown are among those of [StepOps()], which
    lists none twice, and there are fewer than 2^63 callbacks. *)
Theorem summary_total_is_steps (cbs : list Callback) (summary show : bool)
    (w w' : World) (prog' : lumi.applyProgress) :
  NoDup StepOps ->
  (forall op, op ∈ applied_ops cbs -> counted show op = true ->
              op ∈ StepOps) ->
  Z.of_nat (length cbs) < goint.half ->
  afterAll cbs (lumi.newProgress summary) w = Done prog' w' ->
  let s := lumi.printSummary (lumi.Ops prog') show false in
  lumi.Total s =
    Z.of_nat (length (filter (fun op => counted show op = true)
                             (applied_ops cbs))) /\
  displayed_sum s = lumi.Total s /\
  (show = true -> lumi.Total s = lumi.Steps prog').
Proof.
  intros Hnodup Hin Hsmall Hrun s.
  assert (Hlen : Z.of_nat (length (applied_ops cbs)) < goint.half).
  { unfold applied_ops. rewrite length_fmap.
    pose proof (length_filter (fun cb => succeeded cb = true) cbs). lia. }
  destruct (afterAll_ops cbs _ _ _ _ Hrun) as [Hops _].
  simpl in Hops. fold (tally (applied_ops cbs)) in Hops.
  destruct (printSummary_tally (applied_ops cbs) show false Hnodup Hin Hlen)
    as [Htotal Hsum].
  unfold s. rewrite Hops, Htotal, Hsum. repeat split.
  intros Hshow.
  destruct (afterAll_counters cbs _ _ _ _ Hrun) as [Hs | [Hnil Hs]].
  - rewrite Hs. simpl.
    rewrite wrap_in_range by (unfold goint.half in *; lia).
    rewrite Hshow. now rewrite filter_all_shown.
  - rewrite Hs, Hnil. reflexivity.
Qed.
End summary_of_tally.

(** * Further properties of saving, reading and removing *)

Section checkpoint_specs.
Context `{Collaborators}.

Lemma append_empty (s1 s2 : string) : s1 +:+ s2 = "" -> s1 = "" /\ s2 = "".
Proof. destruct s1; simpl; [auto | discriminate]. Qed.

Lemma resolved_path_nonempty (env : Env) (file : string) :
  snd (Detect (requested env file)) <> "" -> resolved_path env file <> "".
Proof.
  unfold resolved_path, requested. intros Hext.
  set (file0 := if String.eqb file "" then EnvPath (Name env) else file) in *.
  destruct (String.eqb_spec (filepath.Ext file0) "") as [Hnone | Hsome].
  - intros Hempty. apply append_empty in Hempty as [_ Hempty].
    contradiction.
  - intros ->. now apply Hsome.
Qed.

(** What [saveEnv] does to the sink. *)
Lemma saveEnv_sink (env : Env) (snap : option Snapshot) (file : string)
    (existok : bool) (w : World) :
  resolved_path env file <> "" ->
  exists ok w',
    lumi.saveEnv (Some env) snap file existok w = Done ok w' /\
    if ok then sink w' = sink w
    else exists id args, sink w' = (sink w ++ [diag.Error id args])%list.
Proof.
  intros Hpath.
  destruct (detected env file) as [m |] eqn:Hdet.
  2: { destruct (saveEnv_undetected env snap file existok w Hdet) as [ext Hu].
       rewrite Hu. exists false. eexists. split; [reflexivity |].
       simpl. eauto. }
  destruct (encoding.Marshal m (SerializeEnvfile env snap ""))
    as [data [err |]] eqn:Henc.
  { rewrite (saveEnv_unencodable env snap file existok w m data err Hdet Henc).
    exists false. eexists. split; [reflexivity |]. simpl. eauto. }
  rewrite (saveEnv_encoded env snap file existok w m data Hdet Henc).
  simpl. destruct (negb existok && _).
  { exists false. eexists. split; [reflexivity |]. simpl. eauto. }
  destruct (String.eqb_spec (resolved_path env file) ""); [contradiction |].
  destruct (mkdir_error _ _).
  { exists false. eexists. split; [reflexivity |]. simpl. eauto. }
  destruct (faults _ (SysWriteFile _)).
  { exists false. eexists. split; [reflexivity |]. simpl. eauto. }
  exists true. eexists. split; reflexivity.
Qed.

(** X5: given an environment and an extension from [Detect] that is not
    empty, [saveEnv] always returns (the precondition of [backupEnv] is
    never violated), and it fails loudly: it returns [false] exactly when
    it has put one error on the sink, and leaves the sink alone when it
    returns [true]. *)
Theorem saveEnv_fails_loudly (env : Env) (snap : option Snapshot)
    (file : string) (existok : bool) (w : World) :
  snd (Detect (requested env file)) <> "" ->
  exists ok w',
    lumi.saveEnv (Some env) snap file existok w = Done ok w' /\
    (ok = true -> sink w' = sink w) /\
    (ok = false ->
     exists id args, sink w' = (sink w ++ [diag.Error id args])%list) /\
    (diag.Success (sink w) = true -> diag.Success (sink w') = ok).
Proof.
  intros Hext.
  destruct (saveEnv_sink env snap file existok w
              (resolved_path_nonempty env file Hext))
    as (ok & w' & Hsave & Hsink).
  exists ok, w'. split; [exact Hsave |].
  destruct ok.
  - repeat split; [auto | discriminate |]. now rewrite Hsink.
  - destruct Hsink as (id & args & Hsink).
    repeat split; [discriminate | eauto |].
    intros _. rewrite Hsink. unfold diag.Success.
    rewrite existsb_app. simpl. now rewrite orb_true_r.
Qed.

Lemma backed_up_torn (file : string) (f : FS) :
  torn (backed_up file f) = torn f.
Proof.
  unfold backed_up. destruct (faults f _); [reflexivity |].
  destruct (files f !! file); reflexivity.
Qed.

(** The parent of a path is a shorter prefix of it. *)
Lemma skip_separators_le (path : string) (i : nat) :
  (os.skip_separators path i <= i)%nat.
Proof.
  induction i as [| k IH]; simpl; [lia |].
  destruct (String.get k path) as [c |]; [| lia].
  destruct (os.IsPathSeparator c); lia.
Qed.

Lemma skip_element_le (path : string) (j : nat) :
  (os.skip_element path j <= j)%nat.
Proof.
  induction j as [| k IH]; simpl; [lia |].
  destruct (String.get k path) as [c |]; [| lia].
  destruct (os.IsPathSeparator c); lia.
Qed.

Lemma parent_prefix (path q : string) :
  os.parent path = Some q ->
  exists n, (n < String.length path)%nat /\ q = String.substring 0 n path.
Proof.
  unfold os.parent.
  set (i := os.skip_separators path (String.length path)).
  set (j := os.skip_element path i).
  pose proof (skip_separators_le path (String.length path)) as Hi.
  pose proof (skip_element_le path i) as Hj. fold i in Hi. fold j in Hj.
  destruct (Nat.ltb_spec 1 j) as [Hlt | _]; [| discriminate].
  intros [= <-]. exists (j - 1)%nat. split; [lia | reflexivity].
Qed.

Lemma parent_shorter (path q : string) :
  os.parent path = Some q -> (String.length q < String.length path)%nat.
Proof.
  intros Hq. destruct (parent_prefix path q Hq) as (n & Hn & ->).
  rewrite length_substring0; lia.
Qed.

Lemma parent_of_empty : os.parent "" = None.
Proof. reflexivity. Qed.

(** The length of a path is enough fuel: more of it gives the same
    chain, so no chain is cut short. *)
Lemma ancestors_from_enough (n m : nat) (path : string) :
  (String.length path <= n)%nat -> (String.length path <= m)%nat ->
  os.ancestors_from n path = os.ancestors_from m path.
Proof.
  revert m path. induction n as [| n IH]; intros [| m] path Hn Hm; simpl;
    try reflexivity.
  - destruct path; [reflexivity | simpl in Hn; lia].
  - destruct path; [reflexivity | simpl in Hm; lia].
  - destruct (os.parent path) as [q |] eqn:Hq; [| reflexivity].
    pose proof (parent_shorter path q Hq).
    f_equal. apply IH; lia.
Qed.

(** The chain holds the parent of each of its members. *)
Lemma ancestors_closed (path a q : string) :
  a ∈ os.ancestors path -> os.parent a = Some q -> q ∈ os.ancestors path.
Proof.
  unfold os.ancestors.
  assert (Hgen : forall n p,
    (String.length p <= n)%nat ->
    a ∈ os.ancestors_from n p -> os.parent a = Some q ->
    q ∈ os.ancestors_from n p).
  { induction n as [| n IH]; intros p Hn Ha Hq.
    - destruct p; [| simpl in Hn; lia].
      simpl in Ha. apply elem_of_cons in Ha as [-> | Ha].
      + rewrite parent_of_empty in Hq. discriminate.
      + now apply elem_of_nil in Ha.
    - simpl in Ha |- *. apply elem_of_cons in Ha as [-> | Ha].
      + rewrite Hq. apply elem_of_cons. right.
        destruct n; simpl; apply elem_of_cons; now left.
      + apply elem_of_cons. right.
        destruct (os.parent p) as [p' |] eqn:Hp;
          [| now apply elem_of_nil in Ha].
        apply IH; [| assumption | assumption].
        pose proof (parent_shorter p p' Hp). lia. }
  apply Hgen. lia.
Qed.



End checkpoint_specs.

Section roundtrip_specs.
Context `{Collaborators}.

Lemma ReadFile_present (file : string) (w : World) (content : bytes) :
  files (fs w) !! file = Some content ->
  faults (fs w) (SysReadFile file) = None ->
  ioutil.ReadFile file w = Done (content, None) w.
Proof.
  intros Hfile Hfault. unfold ioutil.ReadFile. run.
  now rewrite Hfault, Hfile.
Qed.

Lemma ReadFile_absent (file : string) (w : World) :
  files (fs w) !! file = None ->
  faults (fs w) (SysReadFile file) = None ->
  ioutil.ReadFile file w = Done ([], Some (PathError "open" file ENOENT)) w.
Proof.
  intros Hfile Hfault. unfold ioutil.ReadFile. run.
  now rewrite Hfault, Hfile.
Qed.

Lemma readEnv_decoded (name : string) (w : World) m ext b :
  name <> "" ->
  Detect (EnvPath name) = (Some m, ext) ->
  ioutil.ReadFile (EnvPath name) w = Done (b, None) w ->
  lumi.readEnv name w = decoded m (EnvPath name) b w.
Proof.
  intros Hname HD Hread.
  rewrite (readEnv_detected name w m ext b None Hname HD Hread).
  reflexivity.
Qed.

(** For a default location with an extension, the resolved path of a
    save without a file name is that location. *)
Lemma resolved_default (env : Env) :
  filepath.Ext (EnvPath (Name env)) <> "" ->
  resolved_path env "" = EnvPath (Name env).
Proof.
  intros Hext. unfold resolved_path. simpl.
  destruct (String.eqb_spec (filepath.Ext (EnvPath (Name env))) "");
    [contradiction | reflexivity].
Qed.

(** X7: what [saveEnv] has saved at the default location of an
    environment is what [readEnv] then reads: the bytes that the
    marshaler made of the serialized envfile are the bytes [readEnv]
    decodes.  So, wherever the marshaler decodes its own encoding and the
    validation accepts it, [readEnv] returns the envfile that was
    serialized and what [DeserializeEnvfile] makes of it. *)
Theorem save_then_read_back (env : Env) (snap : option Snapshot)
    (existok : bool) (w w1 : World) :
  Name env <> "" ->
  filepath.Ext (EnvPath (Name env)) <> "" ->
  faults (fs w) (SysReadFile (EnvPath (Name env))) = None ->
  lumi.saveEnv (Some env) snap "" existok w = Done true w1 ->
  exists m data,
    detected env "" = Some m /\
    encoding.Marshal m (SerializeEnvfile env snap "") = (data, None) /\
    ioutil.ReadFile (EnvPath (Name env)) w1 = Done (data, None) w1 /\
    lumi.readEnv (Name env) w1 = decoded m (EnvPath (Name env)) data w1 /\
    (forall obj,
       encoding.UnmarshalEnvfile m data =
         (SerializeEnvfile env snap "", None) ->
       encoding.UnmarshalObject m data = (obj, None) ->
       Decode (without_resources obj) = None ->
       lumi.readEnv (Name env) w1 =
         ('(env', snap') ← DeserializeEnvfile (SerializeEnvfile env snap "");
          contract.Assert (bool_decide (is_Some env'));;
          mret (Some (SerializeEnvfile env snap ""), env', snap')) w1).
Proof.
  intros Hname Hext Hfault Hsave.
  destruct (saveEnv_true env snap "" existok w w1 Hsave)
    as (m & data & Hdet & Henc & _ & ->).
  rewrite (resolved_default env Hext).
  exists m, data. split; [exact Hdet |]. split; [exact Henc |].
  assert (Hread :
    ioutil.ReadFile (EnvPath (Name env))
      (mkWorld (saved (EnvPath (Name env)) data (fs w)) (sink w)) =
    Done (data, None)
      (mkWorld (saved (EnvPath (Name env)) data (fs w)) (sink w))).
  { apply ReadFile_present.
    - apply saved_files.
    - simpl. destruct (dir_made_files (EnvPath (Name env)) (fs w))
        as (_ & -> & _). exact Hfault. }
  split; [exact Hread |].
  assert (HD : Detect (EnvPath (Name env)) = (Some m, snd (Detect (EnvPath (Name env))))).
  { unfold detected in Hdet. simpl in Hdet.
    destruct (Detect (EnvPath (Name env))) as [m' ext]. simpl in *.
    now subst m'. }
  pose proof (readEnv_decoded (Name env) _ m _ data Hname HD Hread) as Hdec.
  split; [exact Hdec |].
  intros obj Henvfile Hobj Hvalid. rewrite Hdec. unfold decoded.
  now rewrite Henvfile, Hobj, Hvalid.
Qed.

(** X8: the backup holds one generation.  After two successful saves
    of an environment at the same place, whose renames the operating
    system let through, the backup holds what the first save wrote and
    the file holds what the second wrote; what was there before the first
    save is gone. *)
Theorem second_save_backs_up_first (env : Env)
    (snap1 snap2 : option Snapshot) (file : string) (existok : bool)
    (w w1 w2 : World) :
  let path := resolved_path env file in
  faults (fs w) (SysRename path (path +:+ ".bak")) = None ->
  lumi.saveEnv (Some env) snap1 file existok w = Done true w1 ->
  lumi.saveEnv (Some env) snap2 file true w1 = Done true w2 ->
  exists m data1 data2,
    detected env file = Some m /\
    encoding.Marshal m (SerializeEnvfile env snap1 "") = (data1, None) /\
    encoding.Marshal m (SerializeEnvfile env snap2 "") = (data2, None) /\
    files (fs w2) !! path = Some data2 /\
    files (fs w2) !! (path +:+ ".bak") = Some data1.
Proof.
  intros path Hrename Hsave1 Hsave2.
  destruct (saveEnv_true env snap1 file existok w w1 Hsave1)
    as (m & data1 & Hdet & Henc1 & _ & ->).
  destruct (saveEnv_true env snap2 file true _ w2 Hsave2)
    as (m' & data2 & Hdet' & Henc2 & _ & ->).
  rewrite Hdet in Hdet'. injection Hdet' as <-.
  exists m, data1, data2. fold path.
  split; [exact Hdet |]. split; [exact Henc1 |]. split; [exact Henc2 |].
  simpl.
  destruct (saved_files path data2 (saved path data1 (fs w)))
    as (Hnew & _ & Hbak & _).
  split; [exact Hnew |].
  apply Hbak.
  - apply saved_files.
  - simpl. destruct (dir_made_files path (fs w)) as (_ & -> & _).
    exact Hrename.
Qed.

(** X9: a removed environment can no longer be read.  When the
    environment file exists and the operating system lets the rename
    through, [removeEnv] returns, the bytes of the file are under the
    backup name, and a [readEnv] of the environment fails with the
    invalid-environment-name diagnostic. *)
Theorem removed_env_is_gone (env : Env) (w : World) (content : bytes)
    m ext :
  let file := EnvPath (Name env) in
  Name env <> "" ->
  file <> "" ->
  files (fs w) !! file = Some content ->
  faults (fs w) (SysRename file (file +:+ ".bak")) = None ->
  faults (fs w) (SysReadFile file) = None ->
  Detect file = (Some m, ext) ->
  exists w1,
    lumi.removeEnv (Some env) w = Done tt w1 /\
    files (fs w1) !! (file +:+ ".bak") = Some content /\
    lumi.readEnv (Name env) w1 =
      read_failed
        (diag.Error errors.ErrorInvalidEnvName [diag.AString (Name env)]) w1.
Proof.
  intros file Hname Hfile Hcontent Hrename Hread HD.
  rewrite removeEnv_outcome, deleteEnv_outcome. fold file.
  destruct (String.eqb_spec file ""); [contradiction |].
  eexists. split; [reflexivity |].
  destruct (backed_up_backup file (fs w) content Hcontent Hrename)
    as [Hbak Hgone].
  split; [exact Hbak |].
  assert (Habsent :
    ioutil.ReadFile file (mkWorld (backed_up file (fs w)) (sink w)) =
    Done ([], Some (PathError "open" file ENOENT))
      (mkWorld (backed_up file (fs w)) (sink w))).
  { apply ReadFile_absent; [exact Hgone |]. simpl.
    destruct (backed_up_dirs_faults file (fs w)) as [_ ->]. exact Hread. }
  rewrite (readEnv_detected (Name env) _ m ext _ _ Hname HD Habsent).
  reflexivity.
Qed.

(** A [readEnv] that returns no environment has reported why. *)
Lemma readEnv_nil (name : string) (w w' : World) ef snap :
  lumi.readEnv name w = Done (ef, None, snap) w' ->
  ef = None /\ snap = None /\ fs w' = fs w /\
  diag.Success (sink w') = false.
Proof.
  assert (Hfailed : forall d,
    diag.is_error d = true ->
    read_failed (A := Envfile) (B := Env) (C := Snapshot) d w =
      Done (ef, None, snap) w' ->
    ef = None /\ snap = None /\ fs w' = fs w /\
    diag.Success (sink w') = false).
  { intros d Hd [= <- <- <-]. simpl. repeat split.
    unfold diag.Success. rewrite existsb_app. simpl. rewrite Hd.
    now rewrite orb_true_r. }
  destruct (String.eqb_spec name "") as [-> | Hname]; [discriminate |].
  destruct (Detect (EnvPath name)) as [[m |] ext] eqn:HD.
  2: { intros Hread. apply (Hfailed
         (diag.Error errors.ErrorIllegalMarkupExtension [diag.AString ext]));
         [reflexivity |].
       rewrite <- Hread. unfold lumi.readEnv, read_failed.
       destruct (String.eqb_spec name ""); [contradiction |].
       run. now rewrite HD. }
  destruct (ReadFile_pure (EnvPath name) w) as (b & err & Hread).
  rewrite (readEnv_detected name w m ext b err Hname HD Hread).
  destruct err as [err |].
  { destruct (os.IsNotExist err); now apply Hfailed. }
  cbv zeta.
  destruct (encoding.UnmarshalEnvfile m b) as [envfile [err |]];
    [now apply Hfailed |].
  destruct (encoding.UnmarshalObject m b) as [obj [err |]];
    [now apply Hfailed |].
  destruct (Decode _); [now apply Hfailed |].
  unfold mbind, M_bind, mret, M_ret, contract.Assert, panic.
  destruct (DeserializeEnvfile envfile w) as [[env0 snap0] w0 | msg w0];
    [| discriminate].
  destruct env0; simpl; discriminate.
Qed.

(** X10: [readEnv] returns an environment or reports.  Whenever it
    returns without an environment, the envfile and the snapshot are nil
    too, the file system is as before, and an error is on the sink;
    whenever it returns an environment, the envfile comes with it. *)
Theorem readEnv_env_or_report (name : string) (w w' : World) ef env snap :
  lumi.readEnv name w = Done (ef, env, snap) w' ->
  (env = None ->
   ef = None /\ snap = None /\ fs w' = fs w /\
   diag.Success (sink w') = false) /\
  (is_Some env -> is_Some ef).
Proof.
  intros Hread. split.
  - intros ->. now apply (readEnv_nil name w w' ef snap).
  - intros [e ->].
    assert (Hfailed : forall d,
      read_failed (A := Envfile) (B := Env) (C := Snapshot) d w <>
        Done (ef, Some e, snap) w') by (intros d; discriminate).
    destruct (String.eqb_spec name "") as [-> | Hname]; [discriminate |].
    destruct (Detect (EnvPath name)) as [[m |] ext] eqn:HD.
    2: { exfalso. apply (Hfailed
           (diag.Error errors.ErrorIllegalMarkupExtension [diag.AString ext])).
         rewrite <- Hread. unfold lumi.readEnv, read_failed.
         destruct (String.eqb_spec name ""); [contradiction |].
         run. now rewrite HD. }
    destruct (ReadFile_pure (EnvPath name) w) as (b & err & Hfile).
    rewrite (readEnv_detected name w m ext b err Hname HD Hfile) in Hread.
    destruct err as [err |].
    { destruct (os.IsNotExist err); now apply Hfailed in Hread. }
    cbv zeta in Hread.
    destruct (encoding.UnmarshalEnvfile m b) as [envfile [err |]];
      [now apply Hfailed in Hread |].
    destruct (encoding.UnmarshalObject m b) as [obj [err |]];
      [now apply Hfailed in Hread |].
    destruct (Decode _); [now apply Hfailed in Hread |].
    unfold mbind, M_bind, mret, M_ret, contract.Assert, panic in Hread.
    destruct (DeserializeEnvfile envfile w) as [[env0 snap0] w0 | msg w0];
      [| discriminate].
    destruct env0; simpl in Hread; [| discriminate].
    injection Hread as <- _ _ _. eauto.
Qed.
End roundtrip_specs.

(** * Properties of the environment commands *)

Section command_specs.
Context `{Collaborators} `{Workspace}.

Lemma bind_Done {A B} (m : M A) (k : A -> M B) (w w' : World) (a : A) :
  m w = Done a w' -> (m ≫= k) w = k a w'.
Proof. intros Hm. unfold mbind, M_bind. now rewrite Hm. Qed.

(** The course of [initEnvCmdName] for a given name: its own assertion
    never fails. *)
Lemma initEnvCmdName_named (name : string) (args : list string) (w : World) :
  name <> "" ->
  envcmd.initEnvCmdName name args w =
    match lumi.readEnv name w with
    | Done (envfile, Some env, old) w' =>
        Done (Some (lumi.mkEnvCmdInfo (Some env) envfile old args), None) w'
    | Done (_, None, _) w' =>
        Done (None,
              Some (ErrorString "could not read envfile required to proceed"))
             w'
    | Panicked msg w' => Panicked msg w'
    end.
Proof.
  intros Hname. unfold envcmd.initEnvCmdName.
  destruct (String.eqb_spec name ""); [contradiction |].
  unfold mbind at 1. unfold M_bind at 1. unfold mret at 1. unfold M_ret at 1.
  destruct (String.eqb_spec name ""); [contradiction |].
  unfold mbind at 1. unfold M_bind at 1.
  destruct (lumi.readEnv name w) as [[[ef env] snap] w' | msg w'] eqn:Hread;
    [| reflexivity].
  destruct env as [e |]; [reflexivity |].
  destruct (readEnv_nil name w w' ef snap Hread) as (_ & _ & _ & Hreported).
  run. now rewrite Hreported.
Qed.

(** X11: [initEnvCmd] without a name (no arguments, or an empty first
    one) fails with "missing required environment name" and leaves the
    world alone.  With a name, it returns the environment that [readEnv]
    finds, with its envfile, snapshot and the remaining arguments, or the
    error "could not read envfile required to proceed" when [readEnv]
    finds none; its assertion that an error was reported then always
    holds. *)
Theorem initEnvCmd_outcomes (args : list string) (w : World) :
  (args = [] \/ (exists rest, args = "" :: rest) ->
   envcmd.initEnvCmd args w =
     Done (None, Some (ErrorString "missing required environment name")) w) /\
  (forall name rest,
     args = name :: rest -> name <> "" ->
     envcmd.initEnvCmd args w =
       match lumi.readEnv name w with
       | Done (envfile, Some env, old) w' =>
           Done (Some (lumi.mkEnvCmdInfo (Some env) envfile old rest), None) w'
       | Done (_, None, _) w' =>
           Done (None,
                 Some (ErrorString
                         "could not read envfile required to proceed")) w'
       | Panicked msg w' => Panicked msg w'
       end).
Proof.
  split.
  - intros [-> | [rest ->]]; reflexivity.
  - intros name rest -> Hname. unfold envcmd.initEnvCmd.
    destruct (String.eqb_spec name ""); [contradiction |].
    now apply initEnvCmdName_named.
Qed.

Lemma newWorkspace_failed (w w1 : World) (e : error) :
  Getwd w = Done ("", Some e) w1 \/
  (exists pwd w0,
     Getwd w = Done (pwd, None) w0 /\
     workspaceNew pwd w0 = Done (None, Some e) w1) ->
  exists ws, envcmd.newWorkspace w = Done (ws, Some e) w1.
Proof.
  unfold envcmd.newWorkspace, mbind, M_bind, mret, M_ret.
  intros [-> | (pwd & w0 & -> & ->)]; eauto.
Qed.

(** X12: when the workspace cannot be opened, [getCurrentEnv] reports
    the error as an I/O error and returns no name, and [initEnvCmdName]
    with a blank name then fails with "missing environment name (and no
    default found)", without reading any environment. *)
Theorem no_workspace_no_default (args : list string) (w w1 : World)
    (ws : option W) (e : error) :
  envcmd.newWorkspace w = Done (ws, Some e) w1 ->
  let reported :=
    mkWorld (fs w1) (sink w1 ++ [diag.Error errors.ErrorIO [diag.AError e]]) in
  envcmd.getCurrentEnv w = Done "" reported /\
  envcmd.initEnvCmdName "" args w =
    Done (None,
          Some (ErrorString "missing environment name (and no default found)"))
         reported.
Proof.
  intros Hws reported.
  assert (Hcur : envcmd.getCurrentEnv w = Done "" reported).
  { unfold envcmd.getCurrentEnv. unfold mbind at 1. unfold M_bind at 1.
    rewrite Hws. reflexivity. }
  split; [exact Hcur |].
  unfold envcmd.initEnvCmdName.
  change (String.eqb "" "") with true. cbv iota.
  unfold mbind at 1. unfold M_bind at 1. rewrite Hcur. reflexivity.
Qed.

(** X13: [setCurrentEnv] with verification never switches to an
    environment that cannot be read: when [readEnv] returns none, the
    workspace is not even opened and the world is as [readEnv] left it;
    when [readEnv] finds the environment, the switch is the one made
    without verification. *)
Theorem setCurrentEnv_verifies (name : string) (w w1 : World) ef env snap :
  lumi.readEnv name w = Done (ef, env, snap) w1 ->
  (env = None -> envcmd.setCurrentEnv name true w = Done tt w1) /\
  (is_Some env ->
   envcmd.setCurrentEnv name true w = envcmd.setCurrentEnv name false w1).
Proof.
  intros Hread. unfold envcmd.setCurrentEnv. cbv zeta.
  rewrite (bind_Done _ _ _ _ _ Hread).
  split.
  - intros ->. reflexivity.
  - intros [e ->]. reflexivity.
Qed.

(** X14: [createEnv] neither overwrites nor selects an environment that
    [os.Stat] shows to exist: when a file is at the resolved path and
    [os.Stat] reports it without an error, it returns with the file
    system as it was and an error on the sink, and the workspace is not
    opened. *)
Theorem createEnv_keeps_existing (name : string) (w : World)
    (content : bytes) :
  files (fs w) !! resolved_path (mkEnv name ∅) "" = Some content ->
  faults (fs w) (SysStat (resolved_path (mkEnv name ∅) "")) = None ->
  exists w',
    lumi.saveEnv (Some (mkEnv name ∅)) None "" false w = Done false w' /\
    envcmd.createEnv name w = Done tt w' /\
    fs w' = fs w /\
    diag.Success (sink w') = false.
Proof.
  intros Hfile Hstat.
  assert (Hsave : exists id args,
    lumi.saveEnv (Some (mkEnv name ∅)) None "" false w =
      Done false (mkWorld (fs w) (sink w ++ [diag.Error id args]))).
  { destruct (detected (mkEnv name ∅) "") as [m |] eqn:Hdet.
    2: { destruct (saveEnv_undetected _ None "" false w Hdet) as [ext Hu].
         rewrite Hu. eauto. }
    destruct (encoding.Marshal m (SerializeEnvfile (mkEnv name ∅) None ""))
      as [data [err |]] eqn:Henc.
    { rewrite (saveEnv_unencodable _ None "" false w m data err Hdet Henc).
      eauto. }
    rewrite (saveEnv_encoded _ None "" false w m data Hdet Henc).
    simpl. rewrite (stat_file _ _ _ Hfile), Hstat. simpl. eauto. }
  destruct Hsave as (id & args & Hsave).
  eexists. split; [exact Hsave |].
  split; [| split].
  - unfold envcmd.createEnv. unfold mbind at 1. unfold M_bind at 1.
    rewrite Hsave. reflexivity.
  - reflexivity.
  - simpl. unfold diag.Success. rewrite existsb_app. simpl.
    now rewrite orb_true_r.
Qed.

(** [apply] once planning has produced a result. *)
Lemma apply_planned (info : lumi.envCmdInfo) (opts : lumi.applyOptions)
    (r : lumi.planResult) (w w1 : World) :
  lumi.apply (fun _ _ _ => Done (Some r) w1) info opts w =
    (if lumi.DryRun opts then
       if String.eqb (lumi.Output opts) "" || String.eqb (lumi.Output opts) "-"
       then _ ← lumi.printPlan r opts; mret tt
       else _ ← lumi.saveEnv (lumi.InfoEnv info) (lumi.New r)
                  (lumi.Output opts) true;
            mret tt
     else
       empty ← lumi.checkEmpty (lumi.ThePlan r);
       '(checkpoint, err, progress) ←
         lumi.Apply (lumi.ThePlan r) (lumi.newProgress (lumi.Summary opts));
       (if bool_decide (is_Some err)
        then log ← get_sink; contract.Assert (negb (diag.Success log))
        else mret tt);;
       _ ← lumi.saveEnv (lumi.InfoEnv (lumi.Info r)) checkpoint
             (lumi.Output opts) true;
       mret tt) w1.
Proof. reflexivity. Qed.

(** X15: a dry run applies nothing.  Its outcome does not depend on
    what applying the plan would do; without an output file (none, or
    "-") the file system stays as planning left it; with one, the planned
    snapshot is what goes to [saveEnv], for that file. *)
Theorem dry_run_applies_nothing
    (info : lumi.envCmdInfo) (opts : lumi.applyOptions)
    (result : lumi.planResult) (w w1 : World)
    (a : lumi.applyProgress ->
         M (option Snapshot * option error * lumi.applyProgress)) :
  lumi.DryRun opts = true ->
  let run r := lumi.apply (fun _ _ _ => Done (Some r) w1) info opts w in
  run (with_apply result a) = run result /\
  (lumi.Output opts = "" \/ lumi.Output opts = "-" ->
   fs (world_of (run result)) = fs w1) /\
  (lumi.Output opts <> "" -> lumi.Output opts <> "-" ->
   run result =
     (_ ← lumi.saveEnv (lumi.InfoEnv info) (lumi.New result)
            (lumi.Output opts) true;
      mret tt) w1).
Proof.
  intros Hdry run. unfold run.
  rewrite !apply_planned, Hdry.
  split; [| split].
  - destruct (String.eqb (lumi.Output opts) "" || _); reflexivity.
  - intros Hout.
    assert (Hnone : String.eqb (lumi.Output opts) ""
                    || String.eqb (lumi.Output opts) "-" = true).
    { destruct Hout as [-> | ->]; reflexivity. }
    rewrite Hnone. unfold lumi.printPlan, lumi.checkEmpty.
    destruct (lumi.Empty (lumi.ThePlan result)); reflexivity.
  - intros Hsome Hdash.
    destruct (String.eqb_spec (lumi.Output opts) ""); [contradiction |].
    destruct (String.eqb_spec (lumi.Output opts) "-"); [contradiction |].
    reflexivity.
Qed.
End command_specs.


(** * The indentation of the printed plan *)

Section display_specs.













End display_specs.


(** * The stubs of the Key provider *)

Section kms_specs.
Context `{Responses} `{!MapTarget kms.Key} `{!PropertySource kms.Key}.

(** X18: the Key provider's [InspectChange] reports a changed name as a
    replacement, in front of what its callback declares. *)
Theorem Key_InspectChange_reports_name :
  reports_changed_name kms.Unmarshal kms.InspectChange
    kms.KeyToken kms.KeyProvider_InspectChange.
Proof.
  intros ops req old oldprops olderr new newprops newerr d
         Hold Hnew Hdiff Hchanged.
  unfold kms.KeyProvider_InspectChange.
  rewrite Hold, Hnew, Hdiff, Hchanged. simpl.
  destruct (kms.InspectChange ops (lumirpc.Id req) old new (Some d))
    as [more operr] eqn:Hops.
  split.
  - intros resp err Hcall.
    destruct (negb _); [discriminate |].
    destruct olderr; [discriminate |].
    destruct newerr; [discriminate |].
    destruct operr; [discriminate |].
    injection Hcall as <- <-. simpl. split; [now left |].
    exists ["name"], more. repeat split; simpl; auto.
  - intros more' Htype -> -> Hmore. injection Hmore as -> ->.
    rewrite Htype, String.eqb_refl. simpl.
    eexists. split; [reflexivity |]. simpl. now left.
Qed.

(** X19: the Key provider's [Name] insists on a name: an empty one is an
    error that tells an unknown name from a missing one, and any
    response carries the decoded, non-empty name. *)
Theorem Key_Name_insists :
  insists_on_name kms.Unmarshal kms.Name
    kms.KeyToken kms.Key_Name kms.KeyProvider_Name.
Proof.
  intros req obj props Hdec.
  unfold kms.KeyProvider_Name. rewrite Hdec.
  split.
  - intros ->. rewrite String.eqb_refl. simpl.
    split.
    + intros ->. simpl. eexists. split; [| reflexivity].
      destruct (lookup_bool _ _); reflexivity.
    + intros Hne. name_cases (kms.Name obj); [contradiction |].
      reflexivity.
  - intros resp err Hcall.
    destruct (negb _); [discriminate |].
    name_cases (kms.Name obj).
    + split.
      * intros _. destruct (lookup_bool _ _);
          injection Hcall as <- <-; split; eauto.
      * intros r ->. destruct (lookup_bool _ _); discriminate.
    + injection Hcall as <- <-. split; [contradiction |].
      intros r [= <-]. simpl. auto.
Qed.

(** X20: properties that do not decode stop a call before the provider
    is reached.  [Name], [Create], [InspectChange] and [Update] reply
    with the decode error itself and no response, whatever the
    callbacks are; for the two that decode twice, the old properties
    are decoded first, and their failure hides that of the new ones. *)
Theorem Key_decode_failure_stops_the_call
    (p : kms.KeyProviderOps) (v : option pbstruct.Struct)
    (obj : kms.Key) (props : PropertyMap) (failures : list string) :
  kms.Unmarshal v = (obj, props, Some failures) ->
  let stopped {A} (r : RPC A) := r = Reply None (Some (DecodeErr failures)) in
  (forall unknowns,
     stopped (kms.KeyProvider_Name
                (lumirpc.mkNameRequest kms.KeyToken v unknowns))) /\
  stopped (kms.KeyProvider_Create p
             (lumirpc_more.mkCreateRequest kms.KeyToken v)) /\
  (forall id news,
     stopped (kms.KeyProvider_InspectChange p
                (lumirpc.mkInspectChangeRequest id kms.KeyToken v news)) /\
     stopped (kms.KeyProvider_Update p
                (lumirpc_more.mkUpdateRequest id kms.KeyToken v news))) /\
  (forall id olds old oldprops,
     kms.Unmarshal olds = (old, oldprops, None) ->
     stopped (kms.KeyProvider_InspectChange p
                (lumirpc.mkInspectChangeRequest id kms.KeyToken olds v)) /\
     stopped (kms.KeyProvider_Update p
                (lumirpc_more.mkUpdateRequest id kms.KeyToken olds v))).
Proof.
  intros Hdec stopped. unfold stopped.
  unfold kms.KeyProvider_Name, kms.KeyProvider_Create,
    kms.KeyProvider_InspectChange, kms.KeyProvider_Update.
  cbn -[kms.Unmarshal]. rewrite !Hdec.
  split; [reflexivity |]. split; [reflexivity |].
  split; [split; reflexivity |].
  intros id olds old oldprops Holds. rewrite !Holds.
  split; reflexivity.
Qed.

(** X21: [Check] turns failures of the properties into a response, not
    into an error.  An error of the call is the error of the provider's
    own check; and when decoding already found failures, the provider is
    not consulted: the response reports the decoding failures, whatever
    the callbacks are. *)
Theorem Key_Check_reports_failures
    (p : kms.KeyProviderOps) (req : lumirpc_more.CheckRequest)
    (obj : kms.Key) (props : PropertyMap) (decerr : option (list string)) :
  kms.Unmarshal (lumirpc_more.CheckProperties req) = (obj, props, decerr) ->
  lumirpc_more.CheckType req = kms.KeyToken ->
  (forall resp err,
     kms.KeyProvider_Check p req = Reply resp (Some err) ->
     resp = None /\ snd (kms.Check p obj) = Some err) /\
  (forall failure failures,
     decerr = Some (failure :: failures) ->
     kms.KeyProvider_Check p req =
       Reply (Some (NewCheckResponse decerr)) None) /\
  (forall failure failures,
     (decerr = None \/ decerr = Some []) ->
     kms.Check p obj = (failure :: failures, None) ->
     kms.KeyProvider_Check p req =
       Reply (Some (NewCheckResponse (Some (failure :: failures)))) None) /\
  ((decerr = None \/ decerr = Some []) ->
   kms.Check p obj = ([], None) ->
   kms.KeyProvider_Check p req =
     Reply (Some (NewCheckResponse decerr)) None).
Proof.
  intros Hdec Htype. unfold kms.KeyProvider_Check.
  rewrite Hdec, Htype, String.eqb_refl. simpl.
  split; [| split; [| split]].
  - intros resp err.
    destruct decerr as [[| f fs] |]; simpl;
      destruct (kms.Check p obj) as [failures [e |]]; simpl;
      try discriminate; intros [= <- <-]; auto.
  - intros failure failures ->. reflexivity.
  - intros failure failures [-> | ->] ->; reflexivity.
  - intros [-> | ->] ->; reflexivity.
Qed.

(** X22: every reply of the Key provider carries a response or an
    error, never both and never neither. *)
Theorem Key_replies_response_or_error (p : kms.KeyProviderOps) :
  (forall req, replies_one (kms.KeyProvider_Check p req)) /\
  (forall req, replies_one (kms.KeyProvider_Name req)) /\
  (forall req, replies_one (kms.KeyProvider_Create p req)) /\
  (forall req, replies_one (kms.KeyProvider_Get p req)) /\
  (forall req, replies_one (kms.KeyProvider_InspectChange p req)) /\
  (forall req, replies_one (kms.KeyProvider_Update p req)) /\
  (forall req, replies_one (kms.KeyProvider_Delete p req)).
Proof.
  repeat split; intros req.
  - unfold kms.KeyProvider_Check. destruct (negb _); [exact I |].
    destruct (kms.Unmarshal _) as [[obj props] [fs |]];
      [destruct (length fs =? 0)%nat |];
      try destruct (kms.Check p obj) as [failures [e |]]; exact I.
  - unfold kms.KeyProvider_Name. destruct (negb _); [exact I |].
    destruct (kms.Unmarshal _) as [[obj props] [fs |]]; [exact I |].
    destruct (String.eqb _ _); [| exact I].
    destruct (lookup_bool _ _); exact I.
  - unfold kms.KeyProvider_Create. destruct (negb _); [exact I |].
    destruct (kms.Unmarshal _) as [[obj props] [fs |]]; [exact I |].
    destruct (kms.Create p obj) as [id [e |]]; exact I.
  - unfold kms.KeyProvider_Get. destruct (negb _); [exact I |].
    destruct (kms.Get p _) as [obj [e |]]; exact I.
  - unfold kms.KeyProvider_InspectChange. destruct (negb _); [exact I |].
    destruct (kms.Unmarshal (lumirpc.Olds req)) as [[old oldprops] [fs |]];
      [exact I |].
    destruct (kms.Unmarshal (lumirpc.News req)) as [[new newprops] [fs |]];
      [exact I |].
    destruct (kms.InspectChange p _ _ _ _) as [more [e |]]; exact I.
  - unfold kms.KeyProvider_Update. destruct (negb _); [exact I |].
    destruct (kms.Unmarshal (lumirpc_more.UpdateOlds req))
      as [[old oldprops] [fs |]]; [exact I |].
    destruct (kms.Unmarshal (lumirpc_more.UpdateNews req))
      as [[new newprops] [fs |]]; [exact I |].
    destruct (kms.Update p _ _ _ _); exact I.
  - unfold kms.KeyProvider_Delete. destruct (negb _); [exact I |].
    destruct (kms.Delete p _); exact I.
Qed.

(** X23: every stub of the Key provider asserts that the request is for
    the Key type: a request for another type trips the assertion, in all
    seven, and nothing else does. *)
Theorem Key_stubs_assert_the_type (p : kms.KeyProviderOps) :
  (forall req, asserts_type kms.KeyToken (lumirpc_more.CheckType req)
                 (kms.KeyProvider_Check p req)) /\
  (forall req, asserts_type kms.KeyToken (lumirpc.NameType req)
                 (kms.KeyProvider_Name req)) /\
  (forall req, asserts_type kms.KeyToken (lumirpc_more.CreateType req)
                 (kms.KeyProvider_Create p req)) /\
  (forall req, asserts_type kms.KeyToken (lumirpc_more.GetType req)
                 (kms.KeyProvider_Get p req)) /\
  (forall req, asserts_type kms.KeyToken (lumirpc.InspectType req)
                 (kms.KeyProvider_InspectChange p req)) /\
  (forall req, asserts_type kms.KeyToken (lumirpc_more.UpdateType req)
                 (kms.KeyProvider_Update p req)) /\
  (forall req, asserts_type kms.KeyToken (lumirpc_more.DeleteType req)
                 (kms.KeyProvider_Delete p req)).
Proof.
  repeat apply conj; intros req.
  - unfold kms.KeyProvider_Check. type_asserted.
  - unfold kms.KeyProvider_Name. type_asserted.
  - unfold kms.KeyProvider_Create. type_asserted.
  - unfold kms.KeyProvider_Get. type_asserted.
  - unfold kms.KeyProvider_InspectChange. type_asserted.
  - unfold kms.KeyProvider_Update. type_asserted.
  - unfold kms.KeyProvider_Delete. type_asserted.
Qed.
End kms_specs.


(** * The version path of an imported package *)

Section gen_specs.

Lemma first_version_skips (pre rest : list gen.Package) (pkg : string)
    (version : Z) :
  (forall q, In q pre -> gen.Name q <> pkg) ->
  gen.first_version (pre ++ rest) pkg version =
  gen.first_version rest pkg version.
Proof.
  induction pre as [| q pre IH]; intros Hpre; simpl; [reflexivity |].
  destruct (String.eqb_spec (gen.Name q) pkg) as [Heq | _].
  - exfalso. apply (Hpre q); [now left | exact Heq].
  - apply IH. intros q' Hq'. apply Hpre. now right.
Qed.

(** X24: [getVersionPath] goes by the first package of the given name.
    The packages in front of it, and all those behind it, do not count,
    even those of the same name; and when no package has the name, the
    result is the error that names the package, with an empty path. *)
Theorem getVersionPath_first_match (pre : list gen.Package) (pkg : string) :
  (forall q, In q pre -> gen.Name q <> pkg) ->
  gen.getVersionPath pre pkg =
    Some ("", Some (ErrorString
      ("could not find package version information for pkg: " +:+ pkg))) /\
  (forall p post,
     gen.Name p = pkg ->
     gen.getVersionPath (pre ++ p :: post) pkg = gen.getVersionPath [p] pkg).
Proof.
  intros Hpre. unfold gen.getVersionPath. split.
  - rewrite <- (app_nil_r pre), first_version_skips by assumption.
    reflexivity.
  - intros p post Hp. rewrite first_version_skips by assumption.
    simpl. rewrite Hp, String.eqb_refl. reflexivity.
Qed.

Lemma wrap_high (m : Z) :
  goint.half <= m < goint.modulus -> goint.wrap m = m - goint.modulus.
Proof.
  unfold goint.wrap, goint.half, goint.modulus. intros Hm.
  replace (m + 2 ^ 63) with ((m - 2 ^ 63) + 1 * 2 ^ 64) by lia.
  rewrite Z.mod_add by lia. rewrite Z.mod_small by lia. lia.
Qed.

(** X25: from the major version to the path.  The major number is an
    unsigned 64-bit integer converted to [int].  Versions 0 and 1 have
    no path and a version from 2 up to the largest [int] has the path
    "/v" and the number; a larger number turns negative in the
    conversion and gets no path either, and the largest one turns into
    the -1 that stands for a package that was not found, so the package
    is reported as missing. *)
Theorem getVersionPath_of_major (p : gen.Package)
    (rest : list gen.Package) (m : Z) :
  0 <= m < goint.modulus ->
  gen.PkgVersion p = Some (gen.mkVersion m) ->
  gen.getVersionPath (p :: rest) (gen.Name p) =
    if (m <=? 1)%Z then Some ("", None)
    else if (m <? goint.half)%Z then Some ("/v" +:+ display.Itoa m, None)
    else if (m <? goint.modulus - 1)%Z then Some ("", None)
    else Some ("", Some (ErrorString
           ("could not find package version information for pkg: "
            +:+ gen.Name p))).
Proof.
  intros Hm Hv. unfold gen.getVersionPath. simpl.
  rewrite String.eqb_refl, Hv. simpl.
  destruct (Z.leb_spec m 1) as [Hle | Hgt].
  - rewrite wrap_small by (unfold goint.in_range, goint.half; lia).
    destruct (Z.eqb_spec m (-1)); [lia |].
    destruct (Z.ltb_spec 1 m); [lia | reflexivity].
  - destruct (Z.ltb_spec m goint.half) as [Hlow | Hhigh].
    + rewrite wrap_small by (unfold goint.in_range, goint.half in *; lia).
      destruct (Z.eqb_spec m (-1)); [lia |].
      destruct (Z.ltb_spec 1 m); [reflexivity | lia].
    + rewrite wrap_high by lia.
      destruct (Z.ltb_spec m (goint.modulus - 1)) as [Hlt | Hmax].
      * destruct (Z.eqb_spec (m - goint.modulus) (-1)); [lia |].
        destruct (Z.ltb_spec 1 (m - goint.modulus)); [lia | reflexivity].
      * destruct (Z.eqb_spec (m - goint.modulus) (-1)); [reflexivity | lia].
Qed.

(** A package of the given name without a version: the nil pointer. *)
Lemma getVersionPath_nil_version (p : gen.Package)
    (rest : list gen.Package) :
  gen.PkgVersion p = None ->
  gen.getVersionPath (p :: rest) (gen.Name p) = None.
Proof.
  intros Hv. unfold gen.getVersionPath. simpl.
  now rewrite String.eqb_refl, Hv.
Qed.
End gen_specs.

(** * The further properties at work on the concrete setting *)

Lemma sample_ops_listed (show : bool) (ops : list StepOp) (op : StepOp) :
  op ∈ ops -> counted show op = true -> op ∈ @StepOps fixture.collaborators.
Proof. intros _ _. apply list_elem_of_In. destruct op; simpl; tauto. Qed.

Lemma tracker_counts_successes_witness :
  exists prog' w',
    afterAll sample.callbacks (lumi.newProgress false) fixture.fresh
      = Done prog' w' /\
    lumi.Steps prog' = 4 /\
    lumi.Ops prog' !! OpCreate = Some 2 /\
    lumi.Ops prog' !! OpUpdate = None.
Proof.
  eexists _, _. split; [reflexivity |].
  destruct (tracker_counts_successes sample.callbacks false fixture.fresh
              _ _ eq_refl) as (Hsteps & Hops & _).
  split; [| split].
  - rewrite Hsteps. reflexivity.
  - rewrite (Hops OpCreate). reflexivity.
  - rewrite (Hops OpUpdate). reflexivity.
Defined.

Lemma printPlan_counts_steps_witness :
  exists s,
    lumi.printPlan (H := fixture.collaborators) sample.result sample.dry_run
      fixture.fresh = Done (Some s) fixture.fresh /\
    lumi.Total s = 2 /\
    displayed_sum s = 2.
Proof.
  destruct (@printPlan_counts_steps fixture.collaborators sample.result
              sample.dry_run fixture.fresh fixture_StepOps_NoDup
              (sample_ops_listed _ _) ltac:(vm_compute; reflexivity))
    as [_ Hsteps].
  destruct (Hsteps eq_refl) as (s & Hplan & Htotal & Hsum & _).
  exists s. split; [exact Hplan |].
  assert (Hs : lumi.Total s = 2) by (rewrite Htotal; reflexivity).
  split; [exact Hs |]. rewrite Hsum. exact Hs.
Defined.

Lemma summary_total_is_steps_witness :
  exists prog' w',
    afterAll sample.callbacks (lumi.newProgress false) fixture.fresh
      = Done prog' w' /\
    lumi.Total
      (lumi.printSummary (H := fixture.collaborators) (lumi.Ops prog')
         true false) = lumi.Steps prog'.
Proof.
  eexists _, _. split; [reflexivity |].
  exact (proj2 (proj2
    (@summary_total_is_steps fixture.collaborators sample.callbacks false
       true fixture.fresh _ _ fixture_StepOps_NoDup (sample_ops_listed _ _)
       ltac:(vm_compute; reflexivity) eq_refl)) eq_refl).
Defined.

Lemma saveEnv_fails_loudly_witness :
  exists ok w',
    lumi.saveEnv (H := fixture.collaborators) (Some fixture.prod_env) None
      "" false fixture.deployed = Done ok w' /\
    diag.Success (sink w') = ok.
Proof.
  destruct (@saveEnv_fails_loudly fixture.collaborators fixture.prod_env
              None "" false fixture.deployed ltac:(vm_compute; discriminate))
    as (ok & w' & Hsave & _ & _ & Hloud).
  exists ok, w'. split; [exact Hsave | exact (Hloud eq_refl)].
Defined.

Lemma save_then_read_back_witness :
  exists w1,
    lumi.saveEnv (H := fixture.collaborators) (Some fixture.prod_env)
      (Some (fixture.snapshot ["bucket"])) "" false fixture.fresh
      = Done true w1 /\
    lumi.readEnv (H := fixture.collaborators) "prod" w1 =
      Done (Some (fixture.mkCheckpoint "prod" ["bucket"]),
            Some fixture.prod_env, Some (fixture.snapshot ["bucket"])) w1.
Proof.
  exists (world_of
    (lumi.saveEnv (H := fixture.collaborators) (Some fixture.prod_env)
       (Some (fixture.snapshot ["bucket"])) "" false fixture.fresh)).
  assert (Hsave :
    lumi.saveEnv (H := fixture.collaborators) (Some fixture.prod_env)
      (Some (fixture.snapshot ["bucket"])) "" false fixture.fresh =
    Done true
      (world_of
         (lumi.saveEnv (H := fixture.collaborators) (Some fixture.prod_env)
            (Some (fixture.snapshot ["bucket"])) "" false fixture.fresh)))
    by (vm_compute; reflexivity).
  split; [exact Hsave |].
  destruct (@save_then_read_back fixture.collaborators fixture.prod_env
              (Some (fixture.snapshot ["bucket"])) false fixture.fresh _
              ltac:(discriminate) ltac:(vm_compute; discriminate)
              eq_refl Hsave)
    as (m & data & Hdet & Henc & _ & _ & Hback).
  assert (m = fixture.json) as ->
    by (vm_compute in Hdet; now injection Hdet as <-).
  assert (data = fixture.bytes_of "prod,bucket") as ->
    by (vm_compute in Henc; now injection Henc as <-).
  exact (Hback {["name" := mapper.VString "prod"]} eq_refl eq_refl eq_refl).
Defined.

Lemma second_save_backs_up_first_witness :
  exists w1 w2,
    lumi.saveEnv (H := fixture.collaborators) (Some fixture.prod_env)
      (Some (fixture.snapshot ["bucket"])) "" false fixture.fresh
      = Done true w1 /\
    lumi.saveEnv (H := fixture.collaborators) (Some fixture.prod_env)
      (Some (fixture.snapshot ["table"])) "" true w1 = Done true w2 /\
    files (fs w2) !! fixture.prod_path = Some (fixture.bytes_of "prod,table") /\
    files (fs w2) !! (fixture.prod_path +:+ ".bak")
      = Some (fixture.bytes_of "prod,bucket").
Proof.
  set (w1 := world_of
    (lumi.saveEnv (H := fixture.collaborators) (Some fixture.prod_env)
       (Some (fixture.snapshot ["bucket"])) "" false fixture.fresh)).
  set (w2 := world_of
    (lumi.saveEnv (H := fixture.collaborators) (Some fixture.prod_env)
       (Some (fixture.snapshot ["table"])) "" true w1)).
  assert (Hfirst :
    lumi.saveEnv (H := fixture.collaborators) (Some fixture.prod_env)
      (Some (fixture.snapshot ["bucket"])) "" false fixture.fresh =
    Done true w1) by (vm_compute; reflexivity).
  assert (Hsecond :
    lumi.saveEnv (H := fixture.collaborators) (Some fixture.prod_env)
      (Some (fixture.snapshot ["table"])) "" true w1 = Done true w2)
    by (vm_compute; reflexivity).
  exists w1, w2. split; [exact Hfirst |]. split; [exact Hsecond |].
  destruct (@second_save_backs_up_first fixture.collaborators
              fixture.prod_env (Some (fixture.snapshot ["bucket"]))
              (Some (fixture.snapshot ["table"])) "" false fixture.fresh
              w1 w2 eq_refl Hfirst Hsecond)
    as (m & data1 & data2 & Hdet & Henc1 & Henc2 & Hfile & Hbak).
  assert (m = fixture.json) as ->
    by (vm_compute in Hdet; now injection Hdet as <-).
  assert (data1 = fixture.bytes_of "prod,bucket") as ->
    by (vm_compute in Henc1; now injection Henc1 as <-).
  assert (data2 = fixture.bytes_of "prod,table") as ->
    by (vm_compute in Henc2; now injection Henc2 as <-).
  split; [exact Hfile | exact Hbak].
Defined.

Lemma removed_env_is_gone_witness :
  exists w1,
    lumi.removeEnv (H := fixture.collaborators) (Some fixture.prod_env)
      fixture.deployed = Done tt w1 /\
    files (fs w1) !! (fixture.prod_path +:+ ".bak")
      = Some (fixture.bytes_of "prod") /\
    lumi.readEnv (H := fixture.collaborators) "prod" w1 =
      read_failed
        (diag.Error errors.ErrorInvalidEnvName [diag.AString "prod"]) w1.
Proof.
  exact (@removed_env_is_gone fixture.collaborators fixture.prod_env
           fixture.deployed (fixture.bytes_of "prod") fixture.json ".json"
           ltac:(discriminate) ltac:(discriminate) eq_refl eq_refl eq_refl
           eq_refl).
Defined.

Lemma readEnv_env_or_report_witness :
  exists w',
    lumi.readEnv (H := fixture.collaborators) "prod" fixture.fresh
      = Done (None, None, None) w' /\
    fs w' = fs fixture.fresh /\
    diag.Success (sink w') = false.
Proof.
  exists (mkWorld (fs fixture.fresh)
            [diag.Error errors.ErrorInvalidEnvName [diag.AString "prod"]]).
  split; [reflexivity |].
  destruct (proj1 (@readEnv_env_or_report fixture.collaborators "prod"
                     fixture.fresh
                     (mkWorld (fs fixture.fresh)
                        [diag.Error errors.ErrorInvalidEnvName
                           [diag.AString "prod"]])
                     None None None eq_refl) eq_refl)
    as (_ & _ & Hfs & Hsink).
  split; [exact Hfs | exact Hsink].
Defined.

Lemma no_workspace_no_default_witness :
  envcmd.initEnvCmdName (H := fixture.collaborators)
    (H0 := sample.no_workspace) "" [] fixture.fresh =
    Done (None,
          Some (ErrorString "missing environment name (and no default found)"))
      (mkWorld (fs fixture.fresh)
         [diag.Error errors.ErrorIO [diag.AError sample.lost]]).
Proof.
  exact (proj2 (@no_workspace_no_default fixture.collaborators
                  sample.no_workspace [] fixture.fresh fixture.fresh None
                  sample.lost eq_refl)).
Defined.

Lemma setCurrentEnv_verifies_witness :
  exists w1,
    lumi.readEnv (H := fixture.collaborators) "prod" fixture.fresh
      = Done (None, None, None) w1 /\
    envcmd.setCurrentEnv (H := fixture.collaborators)
      (H0 := sample.workspace) "prod" true fixture.fresh = Done tt w1.
Proof.
  exists (mkWorld (fs fixture.fresh)
            [diag.Error errors.ErrorInvalidEnvName [diag.AString "prod"]]).
  split; [reflexivity |].
  exact (proj1 (@setCurrentEnv_verifies fixture.collaborators
                  sample.workspace "prod" fixture.fresh
                  (mkWorld (fs fixture.fresh)
                     [diag.Error errors.ErrorInvalidEnvName
                        [diag.AString "prod"]])
                  None None None eq_refl) eq_refl).
Defined.

Lemma createEnv_keeps_existing_witness :
  exists w',
    envcmd.createEnv (H := fixture.collaborators) (H0 := sample.workspace)
      "prod" fixture.deployed = Done tt w' /\
    fs w' = fs fixture.deployed /\
    diag.Success (sink w') = false.
Proof.
  destruct (@createEnv_keeps_existing fixture.collaborators sample.workspace
              "prod" fixture.deployed (fixture.bytes_of "prod") eq_refl
              eq_refl)
    as (w' & _ & Hcreate & Hfs & Hsink).
  exists w'. split; [exact Hcreate |]. split; [exact Hfs | exact Hsink].
Defined.

Lemma dry_run_applies_nothing_witness :
  let info := lumi.mkEnvCmdInfo (Some fixture.prod_env) None None [] in
  let run r :=
    lumi.apply (H := fixture.collaborators)
      (fun _ _ _ => Done (Some r) fixture.deployed) info sample.dry_run
      fixture.fresh in
  run (with_apply sample.result (lumi.Apply fixture.failing_plan))
    = run sample.result /\
  fs (world_of (run sample.result)) = fs fixture.deployed.
Proof.
  intros info run.
  destruct (@dry_run_applies_nothing fixture.collaborators info
              sample.dry_run sample.result fixture.fresh fixture.deployed
              (lumi.Apply fixture.failing_plan) eq_refl)
    as (Hsame & Hfs & _).
  split; [exact Hsame | exact (Hfs (or_introl eq_refl))].
Defined.


Lemma Key_InspectChange_reports_name_witness :
  exists resp,
    kms.KeyProvider_InspectChange
      (H := fixture.properties) (MapTarget0 := sample.map_key)
      sample.key_ops (fixture.rename_request kms.KeyToken)
    = Reply (Some resp) None /\
    In "name" (lumirpc.Replaces resp).
Proof.
  refine (proj2
    (@Key_InspectChange_reports_name fixture.properties sample.map_key
       sample.key_ops (fixture.rename_request kms.KeyToken)
       _ _ None _ _ None _ _ _ _ _) ["keyPolicy"] _ _ _ _);
    reflexivity.
Defined.

Lemma Key_Name_insists_witness :
  kms.KeyProvider_Name
    (H := fixture.properties) (MapTarget0 := sample.map_key)
    (fixture.name_request kms.KeyToken)
  = Reply (Some (lumirpc.mkNameResponse "a")) None.
Proof.
  destruct (@Key_Name_insists fixture.properties sample.map_key
              (fixture.name_request kms.KeyToken) _ _ eq_refl)
    as [Hcall _].
  destruct (Hcall eq_refl) as [_ Hname].
  apply Hname. discriminate.
Defined.

Lemma Key_decode_failure_stops_the_call_witness :
  kms.KeyProvider_Create
    (H := fixture.properties) (MapTarget0 := sample.map_key)
    sample.key_ops (lumirpc_more.mkCreateRequest kms.KeyToken sample.nameless)
  = Reply None (Some (DecodeErr ["name: missing required field"])) /\
  kms.KeyProvider_Update
    (H := fixture.properties) (MapTarget0 := sample.map_key)
    sample.key_ops
    (lumirpc_more.mkUpdateRequest "id-1" kms.KeyToken sample.named
       sample.nameless)
  = Reply None (Some (DecodeErr ["name: missing required field"])).
Proof.
  destruct (@Key_decode_failure_stops_the_call fixture.properties
              sample.map_key sample.key_ops sample.nameless _ _ _ eq_refl)
    as (_ & Hcreate & _ & Hnews).
  split; [exact Hcreate |].
  exact (proj2 (Hnews "id-1" sample.named _ _ eq_refl)).
Defined.

Lemma Key_Check_reports_failures_witness :
  kms.KeyProvider_Check
    (H := fixture.properties) (H0 := sample.responses)
    (MapTarget0 := sample.map_key) sample.key_ops
    (lumirpc_more.mkCheckRequest kms.KeyToken sample.named)
  = Reply (Some ["description: missing"]) None /\
  kms.KeyProvider_Check
    (H := fixture.properties) (H0 := sample.responses)
    (MapTarget0 := sample.map_key) sample.key_ops
    (lumirpc_more.mkCheckRequest kms.KeyToken sample.nameless)
  = Reply (Some ["name: missing required field"]) None.
Proof.
  split.
  - exact (proj1 (proj2 (proj2
      (@Key_Check_reports_failures fixture.properties sample.responses
         sample.map_key sample.key_ops
         (lumirpc_more.mkCheckRequest kms.KeyToken sample.named)
         _ _ None eq_refl eq_refl)))
      "description: missing" [] (or_introl eq_refl) eq_refl).
  - exact (proj1 (proj2
      (@Key_Check_reports_failures fixture.properties sample.responses
         sample.map_key sample.key_ops
         (lumirpc_more.mkCheckRequest kms.KeyToken sample.nameless)
         _ _ _ eq_refl eq_refl))
      "name: missing required field" [] eq_refl).
Defined.

Lemma getVersionPath_first_match_witness :
  gen.getVersionPath sample.packages "aws" = Some ("/v3", None) /\
  gen.getVersionPath sample.packages "azure" =
    Some ("", Some (ErrorString
      "could not find package version information for pkg: azure")).
Proof.
  split.
  - exact (proj2 (getVersionPath_first_match
               [gen.mkPackage "random" (Some (gen.mkVersion 2))] "aws"
               ltac:(intros q [<- | []]; discriminate))
               (gen.mkPackage "aws" (Some (gen.mkVersion 3)))
               [gen.mkPackage "aws" (Some (gen.mkVersion 1))] eq_refl).
  - apply (getVersionPath_first_match sample.packages "azure").
    intros q [<- | [<- | [<- | []]]]; discriminate.
Defined.

Lemma getVersionPath_of_major_witness :
  gen.getVersionPath
    [gen.mkPackage "aws" (Some (gen.mkVersion (2 ^ 64 - 1)))] "aws" =
    Some ("", Some (ErrorString
      "could not find package version information for pkg: aws")) /\
  gen.getVersionPath
    [gen.mkPackage "aws" (Some (gen.mkVersion 2))] "aws" = Some ("/v2", None).
Proof.
  split.
  - exact (getVersionPath_of_major
             (gen.mkPackage "aws" (Some (gen.mkVersion (2 ^ 64 - 1)))) []
             (2 ^ 64 - 1) ltac:(vm_compute; split; congruence) eq_refl).
  - exact (getVersionPath_of_major
             (gen.mkPackage "aws" (Some (gen.mkVersion 2))) []
             2 ltac:(vm_compute; split; congruence) eq_refl).
Defined.
